(** * Console chess (src/chess.py): a shallow embedding and its properties

    The engine works on a board that is a Python list of eight row lists of
    optional (color, type) tuples.  Rows are mutable objects: [move] writes
    into the rows of the board it is given and [legal_moves_from] writes into
    the rows of a copy.  The embedding therefore keeps the rows in a store
    and lets a board be the list of its row references.  Functions that only
    read a board are written over the grid the reference denotes at the time
    of the call. *)

From Stdlib Require Import ZArith Lia Bool String Ascii DecimalString.
From stdpp Require Import base list.

Local Open Scope Z_scope.

(** ** Exceptions and results *)

(** The Python exceptions the engine can raise. *)
Inductive exn : Type := IndexError | TypeError | ValueError.

Inductive result (A : Type) : Type :=
| Ok (a : A)
| Raise (e : exn).
Arguments Ok {A} a.
Arguments Raise {A} e.

Definition rbind {A B} (x : result A) (k : A -> result B) : result B :=
  match x with
  | Ok a => k a
  | Raise e => Raise e
  end.

Declare Scope result_scope.
Delimit Scope result_scope with R.
Notation "x <- e ;; k" := (rbind e (fun x => k))
  (at level 100, e at next level, right associativity) : result_scope.

(** ** Pieces and boards *)

(** WHITE, BLACK = 'w', 'b' *)
Inductive Color : Type := WHITE | BLACK.

(** The piece letters 'p', 'n', 'b', 'r', 'q', 'k'. *)
Inductive Kind : Type := Pawn | Knight | Bishop | Rook | Queen | King.

(** Piece = Tuple[str, str]  # (color, type) *)
Abbreviation Piece := (Color * Kind)%type (only parsing).
Abbreviation Cell := (option Piece) (only parsing).
Abbreviation Row := (list Cell) (only parsing).
(** The content of a board: the rows, top (rank 8) first. *)
Abbreviation Grid := (list Row) (only parsing).

Definition color_eqb (a b : Color) : bool :=
  match a, b with
  | WHITE, WHITE | BLACK, BLACK => true
  | _, _ => false
  end.

Definition kind_eqb (a b : Kind) : bool :=
  match a, b with
  | Pawn, Pawn | Knight, Knight | Bishop, Bishop
  | Rook, Rook | Queen, Queen | King, King => true
  | _, _ => false
  end.

(** [WHITE if color == BLACK else BLACK] *)
Definition enemy_of (color : Color) : Color :=
  match color with BLACK => WHITE | WHITE => BLACK end.

(** ** Python sequences *)

(** The position a Python index denotes in a sequence of length [n]: a
    negative index counts from the end, an index outside [-n, n) raises
    IndexError. *)
Definition norm_index (n : nat) (i : Z) : result nat :=
  let j := if i <? 0 then i + Z.of_nat n else i in
  if (j <? 0) || (Z.of_nat n <=? j) then Raise IndexError
  else Ok (Z.to_nat j).

(** [l[i]] *)
Definition py_index {A} (l : list A) (i : Z) : result A :=
  (j <- norm_index (length l) i ;;
   match l !! j with
   | Some x => Ok x
   | None => Raise IndexError
   end)%R.

(** [l[i] = v], as the list it leaves behind. *)
Definition py_setitem {A} (l : list A) (i : Z) (v : A) : result (list A) :=
  (j <- norm_index (length l) i ;; Ok (<[j := v]> l))%R.

(** [board[r][c]] on the content of a board. *)
Definition getcell (g : Grid) (r c : Z) : result Cell :=
  (row <- py_index g r ;; py_index row c)%R.

(** [board[r][c] = v] on the content of a board whose rows are distinct
    objects. *)
Definition grid_set (g : Grid) (r c : Z) (v : Cell) : result Grid :=
  (row <- py_index g r ;;
   row' <- py_setitem row c v ;;
   py_setitem g r row')%R.

(** ** Coordinates *)

(** def in_bounds(r, c): return 0 <= r < 8 and 0 <= c < 8 *)
Definition in_bounds (r c : Z) : bool :=
  (0 <=? r) && (r <? 8) && (0 <=? c) && (c <? 8).

(** Strings are sequences of code points below 256. *)
Definition ord (ch : ascii) : Z := Z.of_N (N_of_ascii ch).

(** [chr(n)]; Python raises ValueError outside range(0x110000), the code
    points from 256 on are not characters of this string model. *)
Definition chr (n : Z) : result ascii :=
  if (0 <=? n) && (n <? 256) then Ok (ascii_of_N (Z.to_N n))
  else Raise ValueError.

(** [ch.lower()] on the Latin-1 code points: A-Z, and the accented capitals
    192-222 but the multiplication sign 215, move up by 32. *)
Definition lower (ch : ascii) : ascii :=
  let n := ord ch in
  if ((65 <=? n) && (n <=? 90)) || ((192 <=? n) && (n <=? 222) && negb (n =? 215))
  then ascii_of_N (Z.to_N (n + 32))
  else ch.

(** [int(ch)] for a one-character string: the decimal digits convert, every
    other character raises ValueError. *)
Definition int_of_char (ch : ascii) : result Z :=
  let n := ord ch in
  if (48 <=? n) && (n <=? 57) then Ok (n - 48) else Raise ValueError.

(** [str(n)] for an integer. *)
Definition str_of_int (n : Z) : string := NilZero.string_of_int (Z.to_int n).

(** [s[i]] for a literal index [i >= 0]. *)
Definition str_index (s : string) (i : nat) : result ascii :=
  match String.get i s with
  | Some ch => Ok ch
  | None => Raise IndexError
  end.

(** def algebraic_to_rc(s):
        file = ord(s[0].lower()) - ord('a')
        rank = int(s[1]) - 1
        return (7 - rank, file) *)
Definition algebraic_to_rc (s : string) : result (Z * Z) :=
  (ch0 <- str_index s 0 ;;
   let file := ord (lower ch0) - ord "a" in
   ch1 <- str_index s 1 ;;
   d <- int_of_char ch1 ;;
   let rank := d - 1 in
   Ok (7 - rank, file))%R.

(** def rc_to_algebraic(r, c):
        file = chr(c + ord('a'))
        rank = str(8 - r)
        return file + rank *)
Definition rc_to_algebraic (r c : Z) : result string :=
  (file <- chr (c + ord "a") ;;
   let rank := str_of_int (8 - r) in
   Ok (String file rank))%R.

(** ** The store of row objects *)

(** A row object is named by its index in the store; a fresh row is put at
    the end.  The outer list of a board is never written after it is built,
    so a board is the list of its row references. *)
Abbreviation loc := nat (only parsing).
Abbreviation Heap := (list Row) (only parsing).
Abbreviation Board := (list loc) (only parsing).

(** Computations that read and write the store and may raise. *)
Definition M (A : Type) : Type := Heap -> Heap * result A.

Definition ret {A} (a : A) : M A := fun h => (h, Ok a).
Definition raise {A} (e : exn) : M A := fun h => (h, Raise e).
Definition mbind {A B} (m : M A) (k : A -> M B) : M B :=
  fun h => match m h with
           | (h', Ok a) => k a h'
           | (h', Raise e) => (h', Raise e)
           end.
Definition lift {A} (x : result A) : M A := fun h => (h, x).

Declare Scope store_scope.
Delimit Scope store_scope with M.
Notation "x <- e ;; k" := (mbind e (fun x => k))
  (at level 100, e at next level, right associativity) : store_scope.
Notation "e ;;; k" := (mbind e (fun _ => k))
  (at level 100, right associativity) : store_scope.

Definition load (l : loc) : M Row := fun h => (h, Ok (h !!! l)).
Definition alloc (row : Row) : M loc := fun h => (h ++ [row], Ok (length h)).
Definition store (l : loc) (row : Row) : M unit := fun h => (<[l := row]> h, Ok tt).

(** The grid a board denotes in a store. *)
Definition deref (h : Heap) (board : Board) : Grid := (fun l => h !!! l) <$> board.

(** A call of a function that only reads its board. *)
Definition reading {A} (f : Grid -> result A) (board : Board) : M A :=
  fun h => (h, f (deref h board)).

(** [board[r][c]] *)
Definition getitem2 (board : Board) (r c : Z) : M Cell :=
  (l <- lift (py_index board r) ;;
   row <- load l ;;
   lift (py_index row c))%M.

(** [board[r][c] = v] *)
Definition setitem2 (board : Board) (r c : Z) (v : Cell) : M unit :=
  (l <- lift (py_index board r) ;;
   row <- load l ;;
   row' <- lift (py_setitem row c v) ;;
   store l row')%M.

(** [for x in xs: s = body(x, s)] *)
Fixpoint for_each {A S} (xs : list A) (body : A -> S -> M S) (s : S) : M S :=
  match xs with
  | [] => ret s
  | x :: xs' => (s' <- body x s ;; for_each xs' body s')%M
  end.

(** [for x in xs: if f(x): return True], then [False]. *)
Fixpoint any_m {A} (f : A -> result bool) (xs : list A) : result bool :=
  match xs with
  | [] => Ok false
  | x :: xs' => (b <- f x ;; if b : bool then Ok true else any_m f xs')%R
  end.

(** [for x in xs: if f(x) is not None: return it], then [None]. *)
Fixpoint find_first {A B} (f : A -> result (option B)) (xs : list A)
  : result (option B) :=
  match xs with
  | [] => Ok None
  | x :: xs' => (o <- f x ;;
                 match o with
                 | Some b => Ok (Some b)
                 | None => find_first f xs'
                 end)%R
  end.

(** [x or_else y]: a section of a function that returns True as soon as one
    of its loops finds something. *)
Definition or_else (x y : result bool) : result bool :=
  (b <- x ;; if b : bool then Ok true else y)%R.

Definition range8 : list Z := [0; 1; 2; 3; 4; 5; 6; 7].

(** ** The engine *)

Definition back : list Kind :=
  [Rook; Knight; Bishop; Queen; King; Bishop; Knight; Rook].

(** [for _ in range(n): board.append([None for _ in range(8)])] *)
Fixpoint append_empty_rows (n : nat) (board : Board) : M Board :=
  match n with
  | O => ret board
  | S n' => (l <- alloc (replicate 8 None) ;; append_empty_rows n' (board ++ [l]))%M
  end.

(** def initial_board() *)
Definition initial_board : M Board :=
  (let board := [] in
   l <- alloc ((fun p => Some (BLACK, p)) <$> back) ;;
   let board := board ++ [l] in
   l <- alloc (replicate 8 (Some (BLACK, Pawn))) ;;
   let board := board ++ [l] in
   board <- append_empty_rows 4 board ;;
   l <- alloc (replicate 8 (Some (WHITE, Pawn))) ;;
   let board := board ++ [l] in
   l <- alloc ((fun p => Some (WHITE, p)) <$> back) ;;
   let board := board ++ [l] in
   ret board)%M.

(** [p and p[0] == color and p[1] == kind] *)
Definition is_piece (p : Cell) (color : Color) (kind : Kind) : bool :=
  match p with
  | Some (col, k) => color_eqb col color && kind_eqb k kind
  | None => false
  end.

(** def find_king(board, color) *)
Definition find_king (g : Grid) (color : Color) : result (option (Z * Z)) :=
  find_first (fun r =>
    find_first (fun c =>
      (p <- getcell g r c ;;
       if is_piece p color King then Ok (Some (r, c)) else Ok None)%R)
      range8)
    range8.

(** def copy_board(board): return [row.copy() for row in board] *)
Fixpoint copy_board (board : Board) : M Board :=
  match board with
  | [] => ret []
  | l :: rest => (row <- load l ;;
                  l' <- alloc row ;;
                  rest' <- copy_board rest ;;
                  ret (l' :: rest'))%M
  end.

Definition knight_offsets : list (Z * Z) :=
  [(2,1); (1,2); (-1,2); (-2,1); (-2,-1); (-1,-2); (1,-2); (2,-1)].
Definition diagonal_dirs : list (Z * Z) := [(1,1); (1,-1); (-1,1); (-1,-1)].
Definition orthogonal_dirs : list (Z * Z) := [(1,0); (-1,0); (0,1); (0,-1)].

(** The number of iterations allowed to a [while in_bounds(rr, cc)] loop
    that steps along a ray; no ray has more than eight squares on the
    board (lemmas [ray_attacked_fuel] and [slide_fuel]). *)
Definition ray_fuel : nat := 8.

(** One [while in_bounds(rr, cc)] loop of is_square_attacked: [Ok true] is
    its [return True], [Ok false] the [break] or the end of the ray. *)
Fixpoint ray_attacked (fuel : nat) (g : Grid) (rr cc dr dc : Z)
    (by_color : Color) (kinds : Kind -> bool) : result bool :=
  match fuel with
  | O => Ok false
  | S n =>
      if in_bounds rr cc then
        (p <- getcell g rr cc ;;
         match p with
         | Some (col, k) => Ok (color_eqb col by_color && kinds k)
         | None => ray_attacked n g (rr + dr) (cc + dc) dr dc by_color kinds
         end)%R
      else Ok false
  end.

(** [if in_bounds(rr, cc): p = board[rr][cc]; if p and p[0] == by_color
    and p[1] == kind: return True] *)
Definition piece_at (g : Grid) (rr cc : Z) (by_color : Color) (kind : Kind)
  : result bool :=
  if in_bounds rr cc
  then (p <- getcell g rr cc ;; Ok (is_piece p by_color kind))%R
  else Ok false.

(** The five sections of is_square_attacked, as its comments name them. *)

(** # Pawn attacks *)
Definition pawn_attack (g : Grid) (r c : Z) (by_color : Color) : result bool :=
  let dir := match by_color with WHITE => -1 | BLACK => 1 end in
  any_m (fun dc => piece_at g (r - dir) (c + dc) by_color Pawn) [-1; 1].

(** # Knights *)
Definition knight_attack (g : Grid) (r c : Z) (by_color : Color) : result bool :=
  any_m (fun '(dr, dc) => piece_at g (r + dr) (c + dc) by_color Knight)
    knight_offsets.

(** # Bishops/Queens diagonals *)
Definition diagonal_attack (g : Grid) (r c : Z) (by_color : Color) : result bool :=
  any_m (fun '(dr, dc) =>
           ray_attacked ray_fuel g (r + dr) (c + dc) dr dc by_color
             (fun k => kind_eqb k Bishop || kind_eqb k Queen))
    diagonal_dirs.

(** # Rooks/Queens orthogonal *)
Definition orthogonal_attack (g : Grid) (r c : Z) (by_color : Color) : result bool :=
  any_m (fun '(dr, dc) =>
           ray_attacked ray_fuel g (r + dr) (c + dc) dr dc by_color
             (fun k => kind_eqb k Rook || kind_eqb k Queen))
    orthogonal_dirs.

(** # King *)
Definition king_attack (g : Grid) (r c : Z) (by_color : Color) : result bool :=
  any_m (fun dr =>
    any_m (fun dc =>
      if (dr =? 0) && (dc =? 0) then Ok false
      else piece_at g (r + dr) (c + dc) by_color King)
      [-1; 0; 1])
    [-1; 0; 1].

(** def is_square_attacked(board, r, c, by_color) *)
Definition is_square_attacked (g : Grid) (r c : Z) (by_color : Color) : result bool :=
  or_else (pawn_attack g r c by_color)
  (or_else (knight_attack g r c by_color)
  (or_else (diagonal_attack g r c by_color)
  (or_else (orthogonal_attack g r c by_color)
  (or_else (king_attack g r c by_color)
     (Ok false))))).

(** The closure add_move(rr, cc) of legal_moves_from; [moves] is the list it
    appends to.

        b2 = copy_board(board)
        b2[rr][cc] = b2[r][c]
        b2[r][c] = None
        kr, kc = find_king(b2, color)
        enemy = WHITE if color == BLACK else BLACK
        if not is_square_attacked(b2, kr, kc, enemy):
            moves.append((rr, cc)) *)
Definition add_move (board : Board) (r c : Z) (color : Color) (rr cc : Z)
    (moves : list (Z * Z)) : M (list (Z * Z)) :=
  (b2 <- copy_board board ;;
   v <- getitem2 b2 r c ;;
   setitem2 b2 rr cc v ;;;
   setitem2 b2 r c None ;;;
   k <- reading (fun g => find_king g color) b2 ;;
   match k with
   | None => raise TypeError
   | Some (kr, kc) =>
       let enemy := enemy_of color in
       a <- reading (fun g => is_square_attacked g kr kc enemy) b2 ;;
       if negb a then ret (moves ++ [(rr, cc)]) else ret moves
   end)%M.

(** [in_bounds(rr, cc) and (board[rr][cc] is None or board[rr][cc][0] != color)] *)
Definition free_or_enemy (board : Board) (color : Color) (rr cc : Z) : M bool :=
  if in_bounds rr cc
  then (p <- getitem2 board rr cc ;;
        match p with
        | None => ret true
        | Some (col, _) => ret (negb (color_eqb col color))
        end)%M
  else ret false.

(** The pawn branch of legal_moves_from. *)
Definition pawn_moves (board : Board) (r c : Z) (color : Color)
    (moves : list (Z * Z)) : M (list (Z * Z)) :=
  (let dir := match color with WHITE => -1 | BLACK => 1 end in
   let start_row := match color with WHITE => 6 | BLACK => 1 end in
   let rr := r + dir in
   let cc := c in
   single <- (if in_bounds rr cc
              then p <- getitem2 board rr cc ;; ret (bool_decide (p = None))
              else ret false) ;;
   moves <- (if single : bool
             then
               moves <- add_move board r c color rr cc moves ;;
               let rr2 := r + 2 * dir in
               double <- (if r =? start_row
                          then p <- getitem2 board rr2 cc ;; ret (bool_decide (p = None))
                          else ret false) ;;
               if double : bool then add_move board r c color rr2 cc moves
               else ret moves
             else ret moves) ;;
   for_each [-1; 1] (fun dc moves =>
     let rr := r + dir in
     let cc := c + dc in
     capture <- (if in_bounds rr cc
                 then p <- getitem2 board rr cc ;;
                      match p with
                      | Some (col, _) => ret (negb (color_eqb col color))
                      | None => ret false
                      end
                 else ret false) ;;
     if capture : bool then add_move board r c color rr cc moves else ret moves)
     moves)%M.

(** One [while in_bounds(rr, cc)] loop of the bishop, rook and queen
    branch. *)
Fixpoint slide (fuel : nat) (board : Board) (r c : Z) (color : Color)
    (rr cc dr dc : Z) (moves : list (Z * Z)) : M (list (Z * Z)) :=
  match fuel with
  | O => ret moves
  | S n =>
      if in_bounds rr cc then
        (p <- getitem2 board rr cc ;;
         match p with
         | None =>
             moves <- add_move board r c color rr cc moves ;;
             slide n board r c color (rr + dr) (cc + dc) dr dc moves
         | Some (col, _) =>
             if negb (color_eqb col color)
             then add_move board r c color rr cc moves
             else ret moves
         end)%M
      else ret moves
  end.

(** def legal_moves_from(board, r, c, color, last_move=None) *)
Definition legal_moves_from (board : Board) (r c : Z) (color : Color)
  : M (list (Z * Z)) :=
  (p <- getitem2 board r c ;;
   match p with
   | None => ret []
   | Some (col, typ) =>
       if negb (color_eqb col color) then ret []
       else
         let moves := [] in
         match typ with
         | Pawn => pawn_moves board r c color moves
         | Knight =>
             for_each knight_offsets (fun '(dr, dc) moves =>
               let rr := r + dr in
               let cc := c + dc in
               ok <- free_or_enemy board color rr cc ;;
               if ok : bool then add_move board r c color rr cc moves else ret moves)
               moves
         | Bishop | Rook | Queen =>
             let dirs := [] in
             let dirs := if kind_eqb typ Bishop || kind_eqb typ Queen
                         then dirs ++ diagonal_dirs else dirs in
             let dirs := if kind_eqb typ Rook || kind_eqb typ Queen
                         then dirs ++ orthogonal_dirs else dirs in
             for_each dirs (fun '(dr, dc) moves =>
               slide ray_fuel board r c color (r + dr) (c + dc) dr dc moves)
               moves
         | King =>
             for_each [-1; 0; 1] (fun dr moves =>
               for_each [-1; 0; 1] (fun dc moves =>
                 if (dr =? 0) && (dc =? 0) then ret moves
                 else
                   let rr := r + dr in
                   let cc := c + dc in
                   ok <- free_or_enemy board color rr cc ;;
                   if ok : bool then add_move board r c color rr cc moves
                   else ret moves)
                 moves)
               moves
         end
   end)%M.

(** def all_legal_moves(board, color) *)
Definition all_legal_moves (board : Board) (color : Color)
  : M (list ((Z * Z) * (Z * Z))) :=
  for_each range8 (fun r res =>
    for_each range8 (fun c res =>
      (p <- getitem2 board r c ;;
       match p with
       | Some (col, _) =>
           if color_eqb col color then
             ms <- legal_moves_from board r c color ;;
             ret (res ++ ((fun d => ((r, c), d)) <$> ms))
           else ret res
       | None => ret res
       end)%M)
      res)
    [].

(** [(r2, c2) in ms] *)
Definition mem_square (x : Z * Z) (ms : list (Z * Z)) : bool :=
  existsb (fun y => (fst x =? fst y) && (snd x =? snd y)) ms.

(** def move(board, src, dst, color) -> Tuple[bool, str] *)
Definition move (board : Board) (src dst : string) (color : Color)
  : M (bool * string) :=
  (rc1 <- lift (algebraic_to_rc src) ;;
   let '(r1, c1) := rc1 in
   rc2 <- lift (algebraic_to_rc dst) ;;
   let '(r2, c2) := rc2 in
   if negb (in_bounds r1 c1) || negb (in_bounds r2 c2)
   then ret (false, "Out of bounds."%string)
   else
     p <- getitem2 board r1 c1 ;;
     match p with
     | None => ret (false, "No piece of yours on source."%string)
     | Some (col, _) =>
         if negb (color_eqb col color)
         then ret (false, "No piece of yours on source."%string)
         else
           ms <- legal_moves_from board r1 c1 color ;;
           if negb (mem_square (r2, c2) ms)
           then ret (false, "Illegal move."%string)
           else
             piece <- getitem2 board r1 c1 ;;
             setitem2 board r1 c1 None ;;;
             match piece with
             | None => raise TypeError
             | Some (_, typ) =>
                 (if kind_eqb typ Pawn && ((r2 =? 0) || (r2 =? 7))
                  then setitem2 board r2 c2 (Some (color, Queen))
                  else setitem2 board r2 c2 piece) ;;;
                 ret (true, "OK"%string)
             end
     end)%M.

(** def in_check(board, color) *)
Definition in_check (g : Grid) (color : Color) : result bool :=
  (k <- find_king g color ;;
   match k with
   | None => Raise TypeError
   | Some (kr, kc) =>
       let enemy := enemy_of color in
       is_square_attacked g kr kc enemy
   end)%R.

(** def is_checkmate(board, color) *)
Definition is_checkmate (board : Board) (color : Color) : M bool :=
  (chk <- reading (fun g => in_check g color) board ;;
   if negb chk then ret false
   else ms <- all_legal_moves board color ;;
        ret (Nat.eqb (length ms) 0))%M.

(** def is_stalemate(board, color) *)
Definition is_stalemate (board : Board) (color : Color) : M bool :=
  (chk <- reading (fun g => in_check g color) board ;;
   if chk : bool then ret false
   else ms <- all_legal_moves board color ;;
        ret (Nat.eqb (length ms) 0))%M.

(** ** The engine over the content of a board

    What each call computes from the grid its board denotes, with the store
    left out: the simulation of add_move becomes two updates of a grid
    value.  The lemmas named [*_refines] show that the functions above
    compute exactly this and leave the rows of the caller's board alone. *)

Fixpoint for_each_r {A S} (xs : list A) (body : A -> S -> result S) (s : S)
  : result S :=
  match xs with
  | [] => Ok s
  | x :: xs' => (s' <- body x s ;; for_each_r xs' body s')%R
  end.

(** The test of add_move: [Ok true] when the move is kept. *)
Definition safe (g : Grid) (r c : Z) (color : Color) (rr cc : Z) : result bool :=
  (v <- getcell g r c ;;
   g1 <- grid_set g rr cc v ;;
   g2 <- grid_set g1 r c None ;;
   k <- find_king g2 color ;;
   match k with
   | None => Raise TypeError
   | Some (kr, kc) =>
       a <- is_square_attacked g2 kr kc (enemy_of color) ;;
       Ok (negb a)
   end)%R.

Definition add_move_on (g : Grid) (r c : Z) (color : Color) (rr cc : Z)
    (moves : list (Z * Z)) : result (list (Z * Z)) :=
  (ok <- safe g r c color rr cc ;;
   Ok (if ok : bool then moves ++ [(rr, cc)] else moves))%R.

Definition free_or_enemy_on (g : Grid) (color : Color) (rr cc : Z) : result bool :=
  if in_bounds rr cc
  then (p <- getcell g rr cc ;;
        match p with
        | None => Ok true
        | Some (col, _) => Ok (negb (color_eqb col color))
        end)%R
  else Ok false.

Definition pawn_moves_on (g : Grid) (r c : Z) (color : Color)
    (moves : list (Z * Z)) : result (list (Z * Z)) :=
  (let dir := match color with WHITE => -1 | BLACK => 1 end in
   let start_row := match color with WHITE => 6 | BLACK => 1 end in
   let rr := r + dir in
   let cc := c in
   single <- (if in_bounds rr cc
              then p <- getcell g rr cc ;; Ok (bool_decide (p = None))
              else Ok false) ;;
   moves <- (if single : bool
             then
               moves <- add_move_on g r c color rr cc moves ;;
               let rr2 := r + 2 * dir in
               double <- (if r =? start_row
                          then p <- getcell g rr2 cc ;; Ok (bool_decide (p = None))
                          else Ok false) ;;
               if double : bool then add_move_on g r c color rr2 cc moves
               else Ok moves
             else Ok moves) ;;
   for_each_r [-1; 1] (fun dc moves =>
     let rr := r + dir in
     let cc := c + dc in
     capture <- (if in_bounds rr cc
                 then p <- getcell g rr cc ;;
                      match p with
                      | Some (col, _) => Ok (negb (color_eqb col color))
                      | None => Ok false
                      end
                 else Ok false) ;;
     if capture : bool then add_move_on g r c color rr cc moves else Ok moves)
     moves)%R.

Fixpoint slide_on (fuel : nat) (g : Grid) (r c : Z) (color : Color)
    (rr cc dr dc : Z) (moves : list (Z * Z)) : result (list (Z * Z)) :=
  match fuel with
  | O => Ok moves
  | S n =>
      if in_bounds rr cc then
        (p <- getcell g rr cc ;;
         match p with
         | None =>
             moves <- add_move_on g r c color rr cc moves ;;
             slide_on n g r c color (rr + dr) (cc + dc) dr dc moves
         | Some (col, _) =>
             if negb (color_eqb col color)
             then add_move_on g r c color rr cc moves
             else Ok moves
         end)%R
      else Ok moves
  end.

Definition legal_moves_on (g : Grid) (r c : Z) (color : Color)
  : result (list (Z * Z)) :=
  (p <- getcell g r c ;;
   match p with
   | None => Ok []
   | Some (col, typ) =>
       if negb (color_eqb col color) then Ok []
       else
         let moves := [] in
         match typ with
         | Pawn => pawn_moves_on g r c color moves
         | Knight =>
             for_each_r knight_offsets (fun '(dr, dc) moves =>
               let rr := r + dr in
               let cc := c + dc in
               ok <- free_or_enemy_on g color rr cc ;;
               if ok : bool then add_move_on g r c color rr cc moves else Ok moves)
               moves
         | Bishop | Rook | Queen =>
             let dirs := [] in
             let dirs := if kind_eqb typ Bishop || kind_eqb typ Queen
                         then dirs ++ diagonal_dirs else dirs in
             let dirs := if kind_eqb typ Rook || kind_eqb typ Queen
                         then dirs ++ orthogonal_dirs else dirs in
             for_each_r dirs (fun '(dr, dc) moves =>
               slide_on ray_fuel g r c color (r + dr) (c + dc) dr dc moves)
               moves
         | King =>
             for_each_r [-1; 0; 1] (fun dr moves =>
               for_each_r [-1; 0; 1] (fun dc moves =>
                 if (dr =? 0) && (dc =? 0) then Ok moves
                 else
                   let rr := r + dr in
                   let cc := c + dc in
                   ok <- free_or_enemy_on g color rr cc ;;
                   if ok : bool then add_move_on g r c color rr cc moves
                   else Ok moves)
                 moves)
               moves
         end
   end)%R.

Definition all_legal_moves_on (g : Grid) (color : Color)
  : result (list ((Z * Z) * (Z * Z))) :=
  for_each_r range8 (fun r res =>
    for_each_r range8 (fun c res =>
      (p <- getcell g r c ;;
       match p with
       | Some (col, _) =>
           if color_eqb col color then
             ms <- legal_moves_on g r c color ;;
             Ok (res ++ ((fun d => ((r, c), d)) <$> ms))
           else Ok res
       | None => Ok res
       end)%R)
      res)
    [].

(** The grid [move] leaves in its board, and what it returns or raises. *)
Definition move_on (g : Grid) (src dst : string) (color : Color)
  : Grid * result (bool * string) :=
  match algebraic_to_rc src with
  | Raise e => (g, Raise e)
  | Ok (r1, c1) =>
  match algebraic_to_rc dst with
  | Raise e => (g, Raise e)
  | Ok (r2, c2) =>
  if negb (in_bounds r1 c1) || negb (in_bounds r2 c2)
  then (g, Ok (false, "Out of bounds."%string))
  else
    match getcell g r1 c1 with
    | Raise e => (g, Raise e)
    | Ok None => (g, Ok (false, "No piece of yours on source."%string))
    | Ok (Some (col, typ)) =>
        if negb (color_eqb col color)
        then (g, Ok (false, "No piece of yours on source."%string))
        else
          match legal_moves_on g r1 c1 color with
          | Raise e => (g, Raise e)
          | Ok ms =>
              if negb (mem_square (r2, c2) ms)
              then (g, Ok (false, "Illegal move."%string))
              else
                match grid_set g r1 c1 None with
                | Raise e => (g, Raise e)
                | Ok g1 =>
                    let placed :=
                      if kind_eqb typ Pawn && ((r2 =? 0) || (r2 =? 7))
                      then Some (color, Queen) else Some (col, typ) in
                    match grid_set g1 r2 c2 placed with
                    | Raise e => (g1, Raise e)
                    | Ok g2 => (g2, Ok (true, "OK"%string))
                    end
                end
          end
    end
  end end.

Definition is_checkmate_on (g : Grid) (color : Color) : result bool :=
  (chk <- in_check g color ;;
   if negb chk then Ok false
   else ms <- all_legal_moves_on g color ;; Ok (Nat.eqb (length ms) 0))%R.

Definition is_stalemate_on (g : Grid) (color : Color) : result bool :=
  (chk <- in_check g color ;;
   if chk : bool then Ok false
   else ms <- all_legal_moves_on g color ;; Ok (Nat.eqb (length ms) 0))%R.

(** ** Well-formed boards *)

(** Eight rows of eight cells. *)
Definition wf_grid (g : Grid) : bool :=
  Nat.eqb (length g) 8 && forallb (fun row : Row => Nat.eqb (length row) 8) g.

(** Every row reference is in the store. *)
Definition valid (h : Heap) (board : Board) : bool :=
  forallb (fun l : loc => Nat.ltb l (length h)) board.

(** A board as initial_board builds it: eight distinct row objects of eight
    cells each. *)
Definition wf_board (h : Heap) (board : Board) : bool :=
  bool_decide (NoDup board) && valid h board && wf_grid (deref h board).

(** The cell of an in-bounds square. *)
Definition cell (g : Grid) (r c : Z) : Cell :=
  match g !! Z.to_nat r with
  | Some row => match row !! Z.to_nat c with Some p => p | None => None end
  | None => None
  end.

Definition has_king (g : Grid) (color : Color) : bool :=
  existsb (existsb (fun p => is_piece p color King)) g.

(** A computation on the store refines a function of the content of
    [board] when it returns what the function says and only adds rows to
    the store. *)
Definition refines {A} (board : Board) (m : M A) (p : Grid -> result A) : Prop :=
  forall h, valid h board = true ->
    exists h', m h = (h', p (deref h board)) /\ h `prefix_of` h'.

(** ** Pseudo-legal destinations *)

(** A cell that does not hold a piece of [color]. *)
Definition not_own (p : Cell) (color : Color) : Prop :=
  match p with
  | Some (col, _) => col <> color
  | None => True
  end.

(** What every square handed to add_move satisfies, for the piece of
    [color] and [kind] on [(r, c)]: it is on the board, it is another
    square, it holds no piece of [color], a piece it holds is attacked by
    [color], and a pawn goes one row forward, or two from its start row. *)
Definition Cand (g : Grid) (r c : Z) (color : Color) (kind : Kind) (d : Z * Z) : Prop :=
  in_bounds (fst d) (snd d) = true /\
  d <> (r, c) /\
  not_own (cell g (fst d) (snd d)) color /\
  (cell g (fst d) (snd d) <> None ->
   is_square_attacked g (fst d) (snd d) color = Ok true) /\
  (kind = Pawn ->
   let dir := match color with WHITE => -1 | BLACK => 1 end in
   let start_row := match color with WHITE => 6 | BLACK => 1 end in
   fst d = r + dir \/ (fst d = r + 2 * dir /\ r = start_row)).

(** The moves collected so far are candidates that passed the test of
    add_move. *)
Definition Kept (g : Grid) (r c : Z) (color : Color) (kind : Kind)
    (moves : list (Z * Z)) : Prop :=
  Forall (fun d => Cand g r c color kind d /\
                   safe g r c color (fst d) (snd d) = Ok true) moves.

(** A step of the move generator, run on [moves] with outcome [res], keeps
    [Kept], and it returns when the mover has a king. *)
Definition keeps (g : Grid) (r c : Z) (color : Color) (kind : Kind)
    (moves : list (Z * Z)) (res : result (list (Z * Z))) : Prop :=
  (Kept g r c color kind moves ->
   forall moves', res = Ok moves' -> Kept g r c color kind moves') /\
  (has_king g color = true -> exists moves', res = Ok moves').

(** ** The move executor: what it places *)

(** The row farthest from a pawn's start: row 0 for white, row 7 for
    black. *)
Definition far_row (color : Color) : Z :=
  match color with WHITE => 0 | BLACK => 7 end.

(** The kind of piece [move] puts on row [r2]. *)
Definition placed_kind (kind : Kind) (r2 : Z) : Kind :=
  if kind_eqb kind Pawn && ((r2 =? 0) || (r2 =? 7)) then Queen else kind.

(** The content of the board after [move] took the piece of [kind] from
    [(r1, c1)] to [(r2, c2)]. *)
Definition moved (g g' : Grid) (r1 c1 r2 c2 : Z) (color : Color) (kind : Kind) : Prop :=
  wf_grid g' = true /\
  forall r c, in_bounds r c = true ->
    cell g' r c =
    if (r =? r2) && (c =? c2) then Some (color, placed_kind kind r2)
    else if (r =? r1) && (c =? c1) then None
    else cell g r c.

(** A move of [color] that legal_moves_from returns for a square of the
    board. *)
Definition legal_on (g : Grid) (color : Color) (m : (Z * Z) * (Z * Z)) : Prop :=
  in_bounds (fst (fst m)) (snd (fst m)) = true /\
  exists kind ds,
    cell g (fst (fst m)) (snd (fst m)) = Some (color, kind) /\
    legal_moves_on g (fst (fst m)) (snd (fst m)) color = Ok ds /\
    snd m ∈ ds.

(** ** The length of a ray *)

(** The number of squares left on a ray from [(rr, cc)]. *)
Definition ray_len (rr cc dr dc : Z) : nat :=
  if in_bounds rr cc then
    Z.to_nat (if dr =? 1 then 8 - rr
              else if dr =? -1 then rr + 1
              else if dc =? 1 then 8 - cc else cc + 1)
  else 0.

(** ** Games *)

(** [turn = BLACK if turn == WHITE else WHITE] *)
Definition next_turn (turn : Color) : Color :=
  match turn with WHITE => BLACK | BLACK => WHITE end.

(** The states of the loop of main: the store, the board and the side to
    move.  The board is made by initial_board, an accepted move passes the
    turn, and the queries of the loop (moves, is_checkmate, is_stalemate)
    only add rows to the store. *)
Inductive reachable : Heap -> Board -> Color -> Prop :=
| reach_start h0 h b :
    initial_board h0 = (h, Ok b) -> reachable h b WHITE
| reach_move h b turn src dst h' msg :
    reachable h b turn ->
    move b src dst turn h = (h', Ok (true, msg)) ->
    reachable h' b (next_turn turn)
| reach_query h b turn h' :
    reachable h b turn -> h `prefix_of` h' -> reachable h' b turn.

(** Exactly one king of a color on the board. *)
Definition one_king (g : Grid) (color : Color) : Prop :=
  exists kr kc,
    in_bounds kr kc = true /\ cell g kr kc = Some (color, King) /\
    forall r c, in_bounds r c = true -> cell g r c = Some (color, King) ->
                r = kr /\ c = kc.

(** What the loop of main keeps: the board is well formed, each side has
    one king, and the side that has just moved is not in check. *)
Definition game_inv (h : Heap) (b : Board) (turn : Color) : Prop :=
  wf_board h b = true /\
  one_king (deref h b) WHITE /\ one_king (deref h b) BLACK /\
  in_check (deref h b) (next_turn turn) = Ok false.

(** ** Positions *)

(** The rows initial_board builds. *)
Definition initial_grid : Grid := fst (initial_board []).

(** The board of initial_board in the store it builds from an empty one. *)
Definition start_board : Board := seq 0 8.

(** Scenario A: the four moves of the fool's mate, then is_checkmate for
    white. *)
Definition scenario_A : M (list (bool * string) * bool) :=
  (board <- initial_board ;;
   r1 <- move board "f2" "f3" WHITE ;;
   r2 <- move board "e7" "e5" BLACK ;;
   r3 <- move board "g2" "g4" WHITE ;;
   r4 <- move board "d8" "h4" BLACK ;;
   mate <- is_checkmate board WHITE ;;
   ret ([r1; r2; r3; r4], mate))%M.

(** The store after the four moves of scenario A. *)
Definition mate_store : Heap :=
  fst ((board <- initial_board ;;
        move board "f2" "f3" WHITE ;;;
        move board "e7" "e5" BLACK ;;;
        move board "g2" "g4" WHITE ;;;
        move board "d8" "h4" BLACK)%M []).

(** The store after 1. e4 f5 2. Qh5+, black to move. *)
Definition check_store : Heap :=
  fst ((board <- initial_board ;;
        move board "e2" "e4" WHITE ;;;
        move board "f7" "f5" BLACK ;;;
        move board "d1" "h5" WHITE)%M []).

(** A white pawn on h7 with the kings on e1 and a8. *)
Definition promotion_grid : Grid :=
  [ [Some (BLACK, King); None; None; None; None; None; None; None];
    [None; None; None; None; None; None; None; Some (WHITE, Pawn)];
    replicate 8 None; replicate 8 None; replicate 8 None; replicate 8 None;
    replicate 8 None;
    [None; None; None; None; Some (WHITE, King); None; None; None] ].

(** ** The squares handed to add_move

    The squares for which legal_moves_from calls add_move, in the order of
    the calls, read from the grid the board holds when it is called; the
    lemma [legal_moves_two_phase] shows that the loops of legal_moves_from
    visit exactly these. *)

(** [board[rr][cc] is None or board[rr][cc][0] != color] *)
Definition free_for (g : Grid) (color : Color) (rr cc : Z) : bool :=
  match cell g rr cc with
  | None => true
  | Some (col, _) => negb (color_eqb col color)
  end.

(** [board[rr][cc] and board[rr][cc][0] != color] *)
Definition enemy_at (g : Grid) (color : Color) (rr cc : Z) : bool :=
  match cell g rr cc with
  | None => false
  | Some (col, _) => negb (color_eqb col color)
  end.

Definition pawn_squares (g : Grid) (r c : Z) (color : Color) : list (Z * Z) :=
  let dir := match color with WHITE => -1 | BLACK => 1 end in
  let start_row := match color with WHITE => 6 | BLACK => 1 end in
  (if in_bounds (r + dir) c && bool_decide (cell g (r + dir) c = None)
   then (r + dir, c) ::
        (if (r =? start_row) && bool_decide (cell g (r + 2 * dir) c = None)
         then [(r + 2 * dir, c)] else [])
   else []) ++
  flat_map (fun dc =>
              if in_bounds (r + dir) (c + dc) && enemy_at g color (r + dir) (c + dc)
              then [(r + dir, c + dc)] else [])
    [-1; 1].

Definition step_squares (g : Grid) (r c : Z) (color : Color)
    (offsets : list (Z * Z)) : list (Z * Z) :=
  flat_map (fun '(dr, dc) =>
              if in_bounds (r + dr) (c + dc) && free_for g color (r + dr) (c + dc)
              then [(r + dr, c + dc)] else [])
    offsets.

(** The pairs [(dr, dc)] of the two nested loops of the king branch that
    are not skipped by [continue]. *)
Definition king_offsets : list (Z * Z) :=
  [(-1,-1); (-1,0); (-1,1); (0,-1); (0,1); (1,-1); (1,0); (1,1)].

Fixpoint ray_squares (fuel : nat) (g : Grid) (color : Color) (rr cc dr dc : Z)
  : list (Z * Z) :=
  match fuel with
  | O => []
  | S n =>
      if in_bounds rr cc then
        match cell g rr cc with
        | None => (rr, cc) :: ray_squares n g color (rr + dr) (cc + dc) dr dc
        | Some (col, _) => if negb (color_eqb col color) then [(rr, cc)] else []
        end
      else []
  end.

Definition slide_squares (g : Grid) (r c : Z) (color : Color)
    (dirs : list (Z * Z)) : list (Z * Z) :=
  flat_map (fun '(dr, dc) => ray_squares ray_fuel g color (r + dr) (c + dc) dr dc)
    dirs.

Definition pseudo_legal (g : Grid) (r c : Z) (color : Color) (kind : Kind)
  : list (Z * Z) :=
  match kind with
  | Pawn => pawn_squares g r c color
  | Knight => step_squares g r c color knight_offsets
  | Bishop => slide_squares g r c color diagonal_dirs
  | Rook => slide_squares g r c color orthogonal_dirs
  | Queen => slide_squares g r c color (diagonal_dirs ++ orthogonal_dirs)
  | King => step_squares g r c color king_offsets
  end.

(** The test of add_move as a boolean: true when the square is kept. *)
Definition safe_b (g : Grid) (r c : Z) (color : Color) (d : Z * Z) : bool :=
  match safe g r c color (fst d) (snd d) with
  | Ok true => true
  | _ => false
  end.

(** ** Attacks and the two phases of the move generator *)

(** add_move called for the squares [ds] in turn. *)
Definition keep_safe (g : Grid) (r c : Z) (color : Color) (ds : list (Z * Z))
    (moves : list (Z * Z)) : result (list (Z * Z)) :=
  for_each_r ds (fun d moves => add_move_on g r c color (fst d) (snd d) moves) moves.

(** The rays of a bishop, rook or queen, as legal_moves_from collects them:
    [if typ in ('b','q'): dirs += diagonals], then
    [if typ in ('r','q'): dirs += orthogonals]. *)
Definition slider_dirs (typ : Kind) : list (Z * Z) :=
  (if kind_eqb typ Bishop || kind_eqb typ Queen then diagonal_dirs else []) ++
  (if kind_eqb typ Rook || kind_eqb typ Queen then orthogonal_dirs else []).

(** A piece of [by_color] on [(r0, c0)] attacks [(r, c)]: a pawn from the
    row behind the target (seen from its own advance) and a neighbouring
    column, a knight by one of its offsets, a king from a neighbouring
    square, and a bishop, rook or queen along a ray of its kind over empty
    squares. *)
Inductive attacks (g : Grid) (by_color : Color) (r0 c0 r c : Z) : Prop :=
| attacks_pawn :
    cell g r0 c0 = Some (by_color, Pawn) ->
    r0 = r - match by_color with WHITE => -1 | BLACK => 1 end ->
    c0 = c - 1 \/ c0 = c + 1 ->
    attacks g by_color r0 c0 r c
| attacks_knight :
    cell g r0 c0 = Some (by_color, Knight) ->
    (r0 - r, c0 - c) ∈ knight_offsets ->
    attacks g by_color r0 c0 r c
| attacks_king :
    cell g r0 c0 = Some (by_color, King) ->
    -1 <= r0 - r <= 1 -> -1 <= c0 - c <= 1 -> (r0, c0) <> (r, c) ->
    attacks g by_color r0 c0 r c
| attacks_ray kd dr dc (k : nat) :
    cell g r0 c0 = Some (by_color, kd) ->
    ((dr, dc) ∈ diagonal_dirs /\ (kd = Bishop \/ kd = Queen)) \/
    ((dr, dc) ∈ orthogonal_dirs /\ (kd = Rook \/ kd = Queen)) ->
    (1 <= k)%nat ->
    r0 = r + Z.of_nat k * dr -> c0 = c + Z.of_nat k * dc ->
    (forall i : nat, (1 <= i < k)%nat ->
       cell g (r + Z.of_nat i * dr) (c + Z.of_nat i * dc) = None) ->
    attacks g by_color r0 c0 r c.

(** A white pawn on h7 and the black king on a8: white has no king. *)
Definition kingless_grid : Grid := <[7%nat := replicate 8 None]> promotion_grid.

(** The list a call returned, the empty list if it raised. *)
Definition returned {A} (x : result (list A)) : list A :=
  match x with
  | Ok l => l
  | Raise _ => []
  end.

(** ** The text of a board *)

(** The type letter of a piece, the second component of its tuple. *)
Definition kind_letter (typ : Kind) : ascii :=
  match typ with
  | Pawn => "p" | Knight => "n" | Bishop => "b"
  | Rook => "r" | Queen => "q" | King => "k"
  end.

(** [ch.upper()] on the letters a-z, the ones board_str applies it to. *)
Definition upper (ch : ascii) : ascii :=
  let n := ord ch in
  if (97 <=? n) && (n <=? 122) then ascii_of_N (Z.to_N (n - 32)) else ch.

(** The line feed. *)
Definition nl : string := String "010" EmptyString.

(** def board_str(board):
        s = "  +-----------------+\n"
        for r in range(8):
            s += str(8 - r) + " |"
            for c in range(8):
                p = board[r][c]
                if not p:
                    s += " ."
                else:
                    ch = p[1].upper() if p[0] == WHITE else p[1]
                    s += " " + ch
            s += " |\n"
        s += "  +-----------------+\n"
        s += "    a b c d e f g h\n"
        return s *)
Definition board_str (g : Grid) : result string :=
  (let s := "  +-----------------+" ++ nl in
   s <- for_each_r range8 (fun r s =>
          let s := s ++ (str_of_int (8 - r) ++ " |") in
          s <- for_each_r range8 (fun c s =>
                 p <- getcell g r c ;;
                 match p with
                 | None => Ok (s ++ " .")
                 | Some (col, typ) =>
                     let ch := if color_eqb col WHITE
                               then upper (kind_letter typ) else kind_letter typ in
                     Ok (s ++ (" " ++ String ch EmptyString))
                 end)%string s ;;
          Ok (s ++ (" |" ++ nl)))%string s ;;
   let s := s ++ ("  +-----------------+" ++ nl) in
   let s := s ++ ("    a b c d e f g h" ++ nl) in
   Ok s)%string%R.

(** The character board_str writes for a cell: a dot for an empty square,
    the type letter of a piece, in upper case when it is white. *)
Definition cell_char (p : Cell) : ascii :=
  match p with
  | None => "."
  | Some (col, typ) =>
      if color_eqb col WHITE then upper (kind_letter typ) else kind_letter typ
  end.

(** board_str with the character of each cell written by [cell_char]. *)
Definition board_str_chars (g : Grid) : result string :=
  (let s := "  +-----------------+" ++ nl in
   s <- for_each_r range8 (fun r s =>
          let s := s ++ (str_of_int (8 - r) ++ " |") in
          s <- for_each_r range8 (fun c s =>
                 p <- getcell g r c ;;
                 Ok (s ++ String " " (String (cell_char p) EmptyString)))%string s ;;
          Ok (s ++ (" |" ++ nl)))%string s ;;
   let s := s ++ ("  +-----------------+" ++ nl) in
   let s := s ++ ("    a b c d e f g h" ++ nl) in
   Ok s)%string%R.

(** ** Text of the console *)

(** [ch.isspace()] on the code points below 256: tab to carriage return,
    the four separators 28-31, the space, NEL and the no-break space. *)
Definition isspace (ch : ascii) : bool :=
  let n := ord ch in
  ((9 <=? n) && (n <=? 13)) || ((28 <=? n) && (n <=? 32)) ||
  (n =? 133) || (n =? 160).

Fixpoint lstrip (s : string) : string :=
  match s with
  | EmptyString => EmptyString
  | String ch s' => if isspace ch then lstrip s' else s
  end.

Fixpoint rstrip (s : string) : string :=
  match s with
  | EmptyString => EmptyString
  | String ch s' =>
      match rstrip s' with
      | EmptyString => if isspace ch then EmptyString else String ch EmptyString
      | t => String ch t
      end
  end.

(** [s.strip()] *)
Definition strip (s : string) : string := rstrip (lstrip s).

(** [s.split()]: the maximal runs of characters that are not white space;
    [word] is the run being read. *)
Fixpoint split_from (s : string) (word : string) : list string :=
  match s with
  | EmptyString =>
      match word with EmptyString => [] | _ => [word] end
  | String ch s' =>
      if isspace ch
      then match word with
           | EmptyString => split_from s' EmptyString
           | _ => word :: split_from s' EmptyString
           end
      else split_from s' (word ++ String ch EmptyString)%string
  end.

Definition split (s : string) : list string := split_from s EmptyString.

(** [s.lower()] *)
Fixpoint lower_str (s : string) : string :=
  match s with
  | EmptyString => EmptyString
  | String ch s' => String (lower ch) (lower_str s')
  end.

(** [s.startswith(p)] *)
Definition startswith (s p : string) : bool := String.prefix p s.

(** [sep.join(l)] *)
Fixpoint join (sep : string) (l : list string) : string :=
  match l with
  | [] => EmptyString
  | [x] => x
  | x :: rest => (x ++ sep ++ join sep rest)%string
  end.

(** The elements of a generator expression, evaluated in turn. *)
Fixpoint map_r {A B} (f : A -> result B) (l : list A) : result (list B) :=
  match l with
  | [] => Ok []
  | x :: rest => (y <- f x ;; ys <- map_r f rest ;; Ok (y :: ys))%R
  end.

(** ** The console

    What main writes, one constructor for each call of print and one for
    the prompt of input. *)
Inductive event : Type :=
| Banner                        (* the two lines printed before the loop *)
| ShowBoard (s : string)        (* print(board_str(board)) *)
| Checkmated (loser : Color)    (* print(X, "is checkmated.", Y, "wins!") *)
| Drawn                         (* print("Stalemate. Draw.") *)
| ToMove (turn : Color) (check : bool)
                                (* print(X, "to move.") and its CHECK variant *)
| Prompt                        (* the prompt of input("> ") *)
| Usage                         (* print("Usage: moves <square>") *)
| BadSquare                     (* print("Bad square.") *)
| NoLegalMoves (sq : string)    (* print("No legal moves for", sq) *)
| LegalMoves (text : string)    (* print("Legal moves:", text) *)
| EnterMove                     (* print("Enter a move like: e2 e4") *)
| Error (msg : string).         (* print("Error:", msg) *)

(** What ends a call that does not return: an exception of the engine, or
    the EOFError of input() when the input has no further line. *)
Inductive failure : Type :=
| Exn (e : exn)
| EOFError.

Inductive answer (A : Type) : Type :=
| Done (a : A)
| Failed (f : failure).
Arguments Done {A} a.
Arguments Failed {A} f.

(** A computation of main: it adds to what has been written, works on the
    store, and returns or fails. *)
Definition IO (A : Type) : Type :=
  list event -> Heap -> list event * Heap * answer A.

Definition io_ret {A} (a : A) : IO A := fun out h => (out, h, Done a).
Definition io_fail {A} (f : failure) : IO A := fun out h => (out, h, Failed f).
Definition io_bind {A B} (m : IO A) (k : A -> IO B) : IO B :=
  fun out h => match m out h with
               | (out', h', Done a) => k a out' h'
               | (out', h', Failed f) => (out', h', Failed f)
               end.
Definition print (e : event) : IO unit := fun out h => (out ++ [e], h, Done tt).
(** A call of the engine; an exception it raises leaves main. *)
Definition run {A} (m : M A) : IO A :=
  fun out h => match m h with
               | (h', Ok a) => (out, h', Done a)
               | (h', Raise e) => (out, h', Failed (Exn e))
               end.

Declare Scope io_scope.
Delimit Scope io_scope with IO.
Notation "x <- e ;; k" := (io_bind e (fun x => k))
  (at level 100, e at next level, right associativity) : io_scope.
Notation "e ;;; k" := (io_bind e (fun _ => k))
  (at level 100, right associativity) : io_scope.

(** The loop of main, [inputs] being the lines input() will return:

    while True:
        print(board_str(board))
        if is_checkmate(board, turn):
            print(..., "is checkmated.", ..., "wins!")
            break
        if is_stalemate(board, turn):
            print("Stalemate. Draw.")
            break
        if in_check(board, turn): print(..., "to move - CHECK.")
        else: print(..., "to move.")
        cmd = input("> ").strip()
        if cmd.lower() in ("quit", "exit"):
            break
        if cmd.lower().startswith("moves "):
            parts = cmd.split()
            if len(parts) != 2:
                print("Usage: moves <square>")
                continue
            sq = parts[1]
            try:
                r, c = algebraic_to_rc(sq)
            except Exception:
                print("Bad square.")
                continue
            ms = legal_moves_from(board, r, c, turn)
            if not ms:
                print("No legal moves for", sq)
            else:
                print("Legal moves:", ", ".join(rc_to_algebraic(rr, cc) for rr, cc in ms))
            continue
        parts = cmd.split()
        if len(parts) != 2:
            print("Enter a move like: e2 e4")
            continue
        src, dst = parts
        ok, msg = move(board, src, dst, turn)
        if not ok:
            print("Error:", msg)
            continue
        turn = BLACK if turn == WHITE else WHITE

    Every pass that does not leave the loop reads one line, so the loop is
    a recursion on the lines that are left. *)
Fixpoint main_loop (inputs : list string) (board : Board) (turn : Color)
    {struct inputs} : IO unit :=
  (s <- run (reading board_str board) ;;
   print (ShowBoard s) ;;;
   mate <- run (is_checkmate board turn) ;;
   if mate : bool then print (Checkmated turn)
   else
   stale <- run (is_stalemate board turn) ;;
   if stale : bool then print Drawn
   else
   chk <- run (reading (fun g => in_check g turn) board) ;;
   print (ToMove turn chk) ;;;
   print Prompt ;;;
   match inputs with
   | [] => io_fail EOFError
   | line :: inputs =>
       let cmd := strip line in
       if existsb (String.eqb (lower_str cmd)) ["quit"; "exit"]%string
       then io_ret tt
       else if startswith (lower_str cmd) "moves "
       then
         match split cmd with
         | [_; sq] =>
             match algebraic_to_rc sq with
             | Raise _ => print BadSquare ;;; main_loop inputs board turn
             | Ok (r, c) =>
                 ms <- run (legal_moves_from board r c turn) ;;
                 match ms with
                 | [] => print (NoLegalMoves sq)
                 | _ :: _ =>
                     texts <- run (lift (map_r (fun '(rr, cc) => rc_to_algebraic rr cc) ms)) ;;
                     print (LegalMoves (join ", " texts))
                 end ;;;
                 main_loop inputs board turn
             end
         | _ => print Usage ;;; main_loop inputs board turn
         end
       else
         match split cmd with
         | [src; dst] =>
             res <- run (move board src dst turn) ;;
             let '(ok, msg) := res in
             if negb ok
             then print (Error msg) ;;; main_loop inputs board turn
             else main_loop inputs board (next_turn turn)
         | _ => print EnterMove ;;; main_loop inputs board turn
         end
   end)%IO.

(** def main():
        board = initial_board()
        turn = WHITE
        print(...); print(...)
        while True: ...

    What main has written and how it ended, for the lines of its input. *)
Definition main (inputs : list string) : list event * answer unit :=
  let '(out, _, a) :=
    (board <- run initial_board ;;
     print Banner ;;;
     main_loop inputs board WHITE)%IO [] [] in
  (out, a).

(** A board shown by main has one king of each color. *)
Definition shows_kings (e : event) : Prop :=
  match e with
  | ShowBoard s =>
      exists g, wf_grid g = true /\ board_str g = Ok s /\
                one_king g WHITE /\ one_king g BLACK
  | _ => True
  end.

(** The lines main takes without handing the engine a square it does not
    guard: quit and exit, a moves command that is not of two words, names
    text algebraic_to_rc cannot read (caught by the try) or names a square
    of the board, and a move that is not of two words or names two squares
    algebraic_to_rc can read. *)
Definition command_ok (line : string) : bool :=
  let cmd := strip line in
  if existsb (String.eqb (lower_str cmd)) ["quit"; "exit"]%string then true
  else if startswith (lower_str cmd) "moves "
  then match split cmd with
       | [_; sq] =>
           match algebraic_to_rc sq with
           | Raise _ => true
           | Ok (r, c) => in_bounds r c
           end
       | _ => true
       end
  else match split cmd with
       | [src; dst] =>
           match algebraic_to_rc src, algebraic_to_rc dst with
           | Ok _, Ok _ => true
           | _, _ => false
           end
       | _ => true
       end.

(** What main_loop has added to the output, and how it ended. *)
Definition good (ok : Prop) (out : list event)
    (res : list event * Heap * answer unit) : Prop :=
  exists evs, res.1.1 = out ++ evs /\ Forall shows_kings evs /\
              (ok -> forall e, res.2 <> Failed (Exn e)).

(** * Properties *)

(** ** Results and Python indexing *)

Lemma norm_index_lt n i j : norm_index n i = Ok j -> (j < n)%nat.
Proof.
  unfold norm_index. destruct (i <? 0) eqn:Hi;
    destruct (_ || _) eqn:Hb; intros [= <-];
    apply orb_false_iff in Hb as [H1 H2]; lia.
Qed.

Lemma norm_index_nonneg n i :
  0 <= i < Z.of_nat n -> norm_index n i = Ok (Z.to_nat i).
Proof.
  intros H. unfold norm_index.
  destruct (i <? 0) eqn:Hi; [lia|].
  destruct (_ || _) eqn:Hb; [|done].
  apply orb_true_iff in Hb as [Hb|Hb]; lia.
Qed.

Lemma py_index_fmap {A B} (f : A -> B) (l : list A) i :
  py_index (f <$> l) i = (x <- py_index l i ;; Ok (f x))%R.
Proof.
  unfold py_index. rewrite length_fmap.
  destruct (norm_index (length l) i) as [j|e]; simpl; [|done].
  rewrite list_lookup_fmap. destruct (l !! j); reflexivity.
Qed.

Lemma py_index_Ok {A} (l : list A) i x :
  py_index l i = Ok x ->
  exists j, norm_index (length l) i = Ok j /\ l !! j = Some x.
Proof.
  unfold py_index. destruct (norm_index (length l) i) as [j|e]; simpl; [|done].
  destruct (l !! j) eqn:E; [|done]. intros [= <-]. eauto.
Qed.

Lemma py_index_nonneg {A} (l : list A) i x :
  0 <= i -> l !! Z.to_nat i = Some x -> py_index l i = Ok x.
Proof.
  intros Hi Hl. unfold py_index.
  rewrite norm_index_nonneg; simpl.
  - by rewrite Hl.
  - apply lookup_lt_Some in Hl. lia.
Qed.

Lemma py_setitem_length {A} (l l' : list A) i v :
  py_setitem l i v = Ok l' -> length l' = length l.
Proof.
  unfold py_setitem. destruct (norm_index _ _); simpl; [|done].
  intros [= <-]. apply length_insert.
Qed.

(** ** The store *)

Lemma valid_lookup h (b : Board) j l :
  valid h b = true -> b !! j = Some l -> (l < length h)%nat.
Proof.
  unfold valid. rewrite forallb_forall. intros Hv Hl.
  apply Nat.ltb_lt, Hv, list_elem_of_In, list_elem_of_lookup. eauto.
Qed.

Lemma valid_prefix h h' b :
  valid h b = true -> h `prefix_of` h' ->
  valid h' b = true /\ deref h' b = deref h b.
Proof.
  intros Hv [k ->]. split.
  - unfold valid in *. rewrite forallb_forall in *. intros l Hl.
    specialize (Hv l Hl). apply Nat.ltb_lt in Hv. apply Nat.ltb_lt.
    rewrite length_app. lia.
  - unfold deref. apply list_eq. intros j. rewrite !list_lookup_fmap.
    destruct (b !! j) as [l|] eqn:E; simpl; [|done].
    f_equal. pose proof (valid_lookup _ _ _ _ Hv E) as Hlt.
    rewrite !list_lookup_total_alt, lookup_app_l by done. done.
Qed.

Lemma refines_ret {A} b (a : A) : refines b (ret a) (fun _ => Ok a).
Proof. intros h _. exists h. done. Qed.

Lemma refines_lift {A} b (x : result A) : refines b (lift x) (fun _ => x).
Proof. intros h _. exists h. done. Qed.

Lemma refines_bind {A B} b (m : M A) (k : A -> M B) p q :
  refines b m p -> (forall a, refines b (k a) (q a)) ->
  refines b (mbind m k) (fun g => rbind (p g) (fun a => q a g)).
Proof.
  intros Hm Hk h Hv. destruct (Hm h Hv) as (h1 & E & Hp).
  unfold mbind. rewrite E.
  destruct (p (deref h b)) as [a|e]; simpl.
  - destruct (valid_prefix _ _ _ Hv Hp) as [Hv1 Hd].
    destruct (Hk a h1 Hv1) as (h2 & E2 & Hp2).
    exists h2. rewrite E2, Hd. split; [done|]. by etrans.
  - exists h1. done.
Qed.

Lemma refines_ext {A} b (m : M A) p p' :
  (forall g, p g = p' g) -> refines b m p -> refines b m p'.
Proof.
  intros He Hm h Hv. destruct (Hm h Hv) as (h' & E & Hp).
  exists h'. by rewrite <- He.
Qed.

Lemma refines_reading {A} b (f : Grid -> result A) : refines b (reading f b) f.
Proof. intros h _. exists h. done. Qed.

Lemma getitem2_refines b r c :
  refines b (getitem2 b r c) (fun g => getcell g r c).
Proof.
  intros h _. exists h. split; [|done].
  unfold getitem2, getcell, deref, mbind, lift, load.
  rewrite py_index_fmap. destruct (py_index b r); done.
Qed.

Lemma getitem2_eq b r c h : getitem2 b r c h = (h, getcell (deref h b) r c).
Proof.
  unfold getitem2, getcell, deref, mbind, lift, load.
  rewrite py_index_fmap. destruct (py_index b r); done.
Qed.

Lemma grid_set_length (g g' : Grid) r c v :
  grid_set g r c v = Ok g' -> length g' = length g.
Proof.
  unfold grid_set. destruct (py_index g r) as [row|]; simpl; [|done].
  destruct (py_setitem row c v) as [row'|]; simpl; [|done].
  apply py_setitem_length.
Qed.

(** *** The copy made by add_move is a fresh board *)

Lemma copy_board_spec (b : Board) : forall h : Heap,
  valid h b = true ->
  copy_board b h = (h ++ deref h b, Ok (seq (length h) (length b))).
Proof.
  induction b as [|l rest IH]; intros h Hv; simpl.
  - unfold ret. by rewrite app_nil_r.
  - simpl in Hv. apply andb_true_iff in Hv as [_ Hv].
    unfold mbind, load, alloc at 1.
    assert (Hp : h `prefix_of` h ++ [h !!! l]) by (by eexists).
    destruct (valid_prefix _ _ _ Hv Hp) as [Hv' Hd].
    rewrite (IH _ Hv'). unfold ret. rewrite Hd, length_app. simpl.
    rewrite <- app_assoc. simpl.
    by replace (length h + 1)%nat with (S (length h)) by lia.
Qed.

Lemma deref_fresh (h : Heap) (g : Grid) :
  deref (h ++ g) (seq (length h) (length g)) = g.
Proof.
  unfold deref. apply list_eq. intros j. rewrite list_lookup_fmap.
  destruct (decide (j < length g)%nat) as [Hj|Hj].
  - rewrite lookup_seq_lt by done. simpl.
    destruct (lookup_lt_is_Some_2 g j Hj) as [row Hrow].
    rewrite Hrow. f_equal.
    rewrite list_lookup_total_alt, lookup_app_r by lia.
    replace (length h + j - length h)%nat with j by lia. by rewrite Hrow.
  - rewrite lookup_seq_ge by lia. simpl. symmetry. apply lookup_ge_None. lia.
Qed.

Lemma setitem2_fresh (h : Heap) (g : Grid) r c v :
  setitem2 (seq (length h) (length g)) r c v (h ++ g) =
  match grid_set g r c v with
  | Ok g' => (h ++ g', Ok tt)
  | Raise e => (h ++ g, Raise e)
  end.
Proof.
  unfold setitem2, grid_set, mbind, lift, load, store, py_index at 1 2.
  rewrite length_seq.
  destruct (norm_index (length g) r) as [j|e] eqn:Hn; simpl; [|done].
  pose proof (norm_index_lt _ _ _ Hn) as Hj.
  rewrite lookup_seq_lt by done.
  destruct (lookup_lt_is_Some_2 g j Hj) as [row Hrow]. rewrite Hrow. simpl.
  rewrite list_lookup_total_alt, lookup_app_r by lia.
  replace (length h + j - length h)%nat with j by lia. rewrite Hrow. simpl.
  destruct (py_setitem row c v) as [row'|e]; simpl; [|done].
  unfold py_setitem. rewrite Hn. simpl.
  rewrite insert_app_r_alt by lia.
  replace (length h + j - length h)%nat with j by lia. done.
Qed.

Lemma add_move_refines b r c color rr cc moves :
  refines b (add_move b r c color rr cc moves)
    (fun g => add_move_on g r c color rr cc moves).
Proof.
  intros h Hv. unfold add_move, add_move_on, safe, mbind at 1.
  rewrite (copy_board_spec b h Hv).
  assert (Hlen : length b = length (deref h b)) by (unfold deref; by rewrite length_fmap).
  rewrite Hlen. generalize (deref h b). intros g.
  unfold mbind at 1. rewrite getitem2_eq, deref_fresh.
  destruct (getcell g r c) as [v|e]; simpl; [|eexists; split; [done|by eexists]].
  unfold mbind at 1. rewrite setitem2_fresh.
  destruct (grid_set g rr cc v) as [g1|e] eqn:E1; simpl;
    [|eexists; split; [done|by eexists]].
  rewrite <- (grid_set_length _ _ _ _ _ E1).
  unfold mbind at 1. rewrite setitem2_fresh.
  destruct (grid_set g1 r c None) as [g2|e] eqn:E2; simpl;
    [|eexists; split; [done|by eexists]].
  rewrite <- (grid_set_length _ _ _ _ _ E2).
  unfold mbind at 1, reading at 1. rewrite deref_fresh.
  destruct (find_king g2 color) as [[[kr kc]|]|e]; simpl;
    try (eexists; split; [done|by eexists]).
  unfold mbind, reading. rewrite deref_fresh.
  destruct (is_square_attacked g2 kr kc (enemy_of color)) as [a|e]; simpl;
    [|eexists; split; [done|by eexists]].
  destruct a; simpl; eexists; (split; [done|by eexists]).
Qed.

(** *** The move generator reads its board and writes only to copies *)

Lemma for_each_refines {A S} b (xs : list A) (body : A -> S -> M S) body' :
  (forall x s, refines b (body x s) (body' x s)) ->
  forall s, refines b (for_each xs body s)
              (fun g => for_each_r xs (fun x s => body' x s g) s).
Proof.
  intros Hb. induction xs as [|x xs IH]; intros s; simpl.
  - apply refines_ret.
  - apply (refines_bind b _ _ (body' x s)
             (fun s' g => for_each_r xs (fun x s => body' x s g) s')).
    + apply Hb.
    + apply IH.
Qed.

Ltac refines_step :=
  match goal with
  | |- refines _ (ret _) _ => apply refines_ret
  | |- refines _ (lift _) _ => apply refines_lift
  | |- refines _ (getitem2 _ _ _) _ => apply getitem2_refines
  | |- refines _ (add_move _ _ _ _ _ _ _) _ => apply add_move_refines
  | |- refines _ (mbind _ _) _ => eapply refines_bind; [|intros ?]
  | |- refines _ (if ?x then _ else _) _ => destruct x
  | |- refines _ (match ?x with _ => _ end) _ => destruct x
  end.

Lemma free_or_enemy_refines b color rr cc :
  refines b (free_or_enemy b color rr cc) (fun g => free_or_enemy_on g color rr cc).
Proof. unfold free_or_enemy, free_or_enemy_on. repeat refines_step. Qed.

Lemma pawn_moves_refines b r c color moves :
  refines b (pawn_moves b r c color moves) (fun g => pawn_moves_on g r c color moves).
Proof.
  unfold pawn_moves, pawn_moves_on. cbv zeta.
  refines_step; [repeat refines_step|].
  refines_step; [repeat refines_step|].
  apply (for_each_refines b [-1; 1] _
    (fun dc moves g =>
       (capture <- (if in_bounds (r + match color with WHITE => -1 | BLACK => 1 end) (c + dc)
                    then p <- getcell g (r + match color with WHITE => -1 | BLACK => 1 end) (c + dc) ;;
                         match p with
                         | Some (col, _) => Ok (negb (color_eqb col color))
                         | None => Ok false
                         end
                    else Ok false) ;;
        if capture : bool
        then add_move_on g r c color (r + match color with WHITE => -1 | BLACK => 1 end) (c + dc) moves
        else Ok moves)%R)).
  intros dc ms. repeat refines_step.
Qed.

Lemma slide_refines b r c color dr dc : forall fuel rr cc moves,
  refines b (slide fuel b r c color rr cc dr dc moves)
    (fun g => slide_on fuel g r c color rr cc dr dc moves).
Proof.
  induction fuel as [|n IH]; intros rr cc moves; simpl.
  - apply refines_ret.
  - destruct (in_bounds rr cc); [|apply refines_ret].
    refines_step; [refines_step|].
    destruct a as [[col k]|].
    + repeat refines_step.
    + refines_step; [refines_step|]. apply IH.
Qed.

Lemma legal_moves_from_refines b r c color :
  refines b (legal_moves_from b r c color) (fun g => legal_moves_on g r c color).
Proof.
  unfold legal_moves_from, legal_moves_on.
  refines_step; [refines_step|].
  destruct a as [[col typ]|]; [|apply refines_ret].
  destruct (negb (color_eqb col color)); [apply refines_ret|].
  destruct typ.
  - apply pawn_moves_refines.
  - eapply for_each_refines. intros [dr dc] ms.
    refines_step; [apply free_or_enemy_refines|]. repeat refines_step.
  - eapply for_each_refines. intros [dr dc] ms. apply slide_refines.
  - eapply for_each_refines. intros [dr dc] ms. apply slide_refines.
  - eapply for_each_refines. intros [dr dc] ms. apply slide_refines.
  - eapply for_each_refines. intros dr ms.
    eapply for_each_refines. intros dc ms'.
    destruct ((dr =? 0) && (dc =? 0)); [apply refines_ret|].
    refines_step; [apply free_or_enemy_refines|]. repeat refines_step.
Qed.

Lemma all_legal_moves_refines b color :
  refines b (all_legal_moves b color) (fun g => all_legal_moves_on g color).
Proof.
  unfold all_legal_moves, all_legal_moves_on.
  eapply for_each_refines. intros r res.
  eapply for_each_refines. intros c res'.
  refines_step; [refines_step|].
  destruct a as [[col typ]|]; [|apply refines_ret].
  destruct (color_eqb col color); [|apply refines_ret].
  refines_step; [apply legal_moves_from_refines|]. apply refines_ret.
Qed.

Lemma is_checkmate_refines b color :
  refines b (is_checkmate b color) (fun g => is_checkmate_on g color).
Proof.
  unfold is_checkmate, is_checkmate_on.
  refines_step; [apply refines_reading|].
  destruct (negb a); [apply refines_ret|].
  refines_step; [apply all_legal_moves_refines|]. apply refines_ret.
Qed.

Lemma is_stalemate_refines b color :
  refines b (is_stalemate b color) (fun g => is_stalemate_on g color).
Proof.
  unfold is_stalemate, is_stalemate_on.
  refines_step; [apply refines_reading|].
  destruct a; [apply refines_ret|].
  refines_step; [apply all_legal_moves_refines|]. apply refines_ret.
Qed.

(** *** Writing into the caller's board *)

Lemma deref_lookup h (b : Board) j l :
  b !! j = Some l -> deref h b !! j = Some (h !!! l).
Proof. intros E. unfold deref. by rewrite list_lookup_fmap, E. Qed.

Lemma grid_set_deref h (b : Board) r c v :
  grid_set (deref h b) r c v =
  (l <- py_index b r ;;
   row' <- py_setitem (h !!! l) c v ;;
   j <- norm_index (length b) r ;;
   Ok (<[j := row']> (deref h b)))%R.
Proof.
  unfold grid_set. unfold deref at 1. rewrite py_index_fmap.
  destruct (py_index b r) as [l|e]; simpl; [|done].
  destruct (py_setitem (h !!! l) c v) as [row'|e]; simpl; [|done].
  unfold py_setitem, deref. by rewrite length_fmap.
Qed.

Lemma setitem2_spec h (b : Board) r c v :
  NoDup b -> valid h b = true ->
  exists h',
    setitem2 b r c v h = (h', (g' <- grid_set (deref h b) r c v ;; Ok tt)%R) /\
    length h' = length h /\
    (forall l, l ∉ b -> h' !! l = h !! l) /\
    match grid_set (deref h b) r c v with
    | Ok g' => deref h' b = g'
    | Raise _ => h' = h
    end.
Proof.
  intros Hnd Hv. rewrite grid_set_deref.
  unfold setitem2, mbind, lift, load, store, py_index.
  destruct (norm_index (length b) r) as [j|e] eqn:Hn; simpl; [|by exists h].
  pose proof (norm_index_lt _ _ _ Hn) as Hj.
  destruct (lookup_lt_is_Some_2 b j Hj) as [l Hl]. rewrite Hl. simpl.
  destruct (py_setitem (h !!! l) c v) as [row'|e]; simpl; [|by exists h].
  exists (<[l := row']> h).
  split; [done|]. split; [apply length_insert|]. split.
  - intros l' Hl'. apply list_lookup_insert_ne. intros ->.
    apply Hl', list_elem_of_lookup. eauto.
  - pose proof (valid_lookup _ _ _ _ Hv Hl) as Hlt.
    apply list_eq. intros i.
    destruct (decide (i = j)) as [->|Hij].
    + rewrite list_lookup_insert_eq
        by (unfold deref; rewrite length_fmap; done).
      rewrite (deref_lookup _ _ _ _ Hl). f_equal.
      rewrite list_lookup_total_alt, list_lookup_insert_eq by done. done.
    + rewrite list_lookup_insert_ne by done.
      unfold deref. rewrite !list_lookup_fmap.
      destruct (b !! i) as [l'|] eqn:Hl'; simpl; [|done]. f_equal.
      assert (l <> l').
      { intros ->. apply Hij. eapply NoDup_lookup; eauto. }
      rewrite !list_lookup_total_alt, list_lookup_insert_ne by done. done.
Qed.

Lemma setitem2_valid h h' (b : Board) :
  length h' = length h -> valid h b = true -> valid h' b = true.
Proof. unfold valid. by intros ->. Qed.

Lemma move_refines h (b : Board) src dst color :
  NoDup b -> valid h b = true ->
  exists h',
    move b src dst color h = (h', snd (move_on (deref h b) src dst color)) /\
    deref h' b = fst (move_on (deref h b) src dst color) /\
    valid h' b = true /\
    (forall l, (l < length h)%nat -> l ∉ b -> h' !! l = h !! l).
Proof.
  intros Hnd Hv. unfold move, move_on, mbind at 1, lift at 1.
  destruct (algebraic_to_rc src) as [[r1 c1]|e]; [|by exists h].
  unfold mbind at 1, lift at 1.
  destruct (algebraic_to_rc dst) as [[r2 c2]|e]; [|by exists h].
  destruct (negb (in_bounds r1 c1) || negb (in_bounds r2 c2)); [by exists h|].
  unfold mbind at 1. rewrite getitem2_eq.
  destruct (getcell (deref h b) r1 c1) as [[[col typ]|]|e] eqn:Hp;
    [|by exists h|by exists h].
  destruct (negb (color_eqb col color)); [by exists h|].
  destruct (legal_moves_from_refines b r1 c1 color h Hv) as (h1 & E & Hpre).
  destruct (valid_prefix _ _ _ Hv Hpre) as [Hv1 Hd1].
  assert (Hfr1 : forall l, (l < length h)%nat -> h1 !! l = h !! l).
  { intros l Hl. destruct Hpre as [k ->]. by apply lookup_app_l. }
  unfold mbind at 1. rewrite E.
  destruct (legal_moves_on (deref h b) r1 c1 color) as [ms|e];
    [|exists h1; simpl; auto].
  destruct (negb (mem_square (r2, c2) ms)); [exists h1; simpl; auto|].
  unfold mbind at 1. rewrite getitem2_eq, Hd1, Hp.
  destruct (setitem2_spec h1 b r1 c1 None Hnd Hv1) as (h2 & E2 & Hl2 & Hfr2 & Hg2).
  unfold mbind at 1. rewrite E2, Hd1. rewrite Hd1 in Hg2.
  destruct (grid_set (deref h b) r1 c1 None) as [g1|e]; simpl.
  2:{ subst h2. exists h1. auto. }
  pose proof (setitem2_valid _ _ _ Hl2 Hv1) as Hv2.
  set (placed := if kind_eqb typ Pawn && ((r2 =? 0) || (r2 =? 7))
                 then Some (color, Queen) else Some (col, typ)).
  destruct (setitem2_spec h2 b r2 c2 placed Hnd Hv2) as (h3 & E3 & Hl3 & Hfr3 & Hg3).
  assert (E3' : (if kind_eqb typ Pawn && ((r2 =? 0) || (r2 =? 7))
                 then setitem2 b r2 c2 (Some (color, Queen))
                 else setitem2 b r2 c2 (Some (col, typ))) h2
                = (h3, (g' <- grid_set (deref h2 b) r2 c2 placed ;; Ok tt)%R)).
  { rewrite <- E3. unfold placed. by destruct (kind_eqb typ Pawn && _). }
  unfold mbind at 1. rewrite E3'. rewrite Hg2 in *.
  assert (Hfr : forall l, (l < length h)%nat -> l ∉ b -> h3 !! l = h !! l).
  { intros l Hl Hnb. rewrite Hfr3, Hfr2 by done. by apply Hfr1. }
  destruct (grid_set g1 r2 c2 placed) as [g2|e]; simpl.
  - exists h3. unfold ret. split; [done|]. split; [done|]. split; [|done].
    by apply (setitem2_valid h2).
  - subst h3. exists h2. split; [done|]. split; [done|]. split; [done|].
    intros l Hl Hnb. rewrite Hfr2 by done. by apply Hfr1.
Qed.

(** ** Well-formed grids *)

Lemma in_bounds_iff r c : in_bounds r c = true <-> 0 <= r < 8 /\ 0 <= c < 8.
Proof. unfold in_bounds. rewrite !andb_true_iff. lia. Qed.

Lemma wf_grid_iff (g : Grid) :
  wf_grid g = true <->
  length g = 8%nat /\ forall j row, g !! j = Some row -> length row = 8%nat.
Proof.
  unfold wf_grid. rewrite andb_true_iff, Nat.eqb_eq, forallb_forall.
  split; intros [H1 H2]; (split; [done|]).
  - intros j row Hj. apply Nat.eqb_eq, H2, list_elem_of_In, list_elem_of_lookup. eauto.
  - intros row Hin. apply list_elem_of_In, list_elem_of_lookup in Hin as [j Hj].
    apply Nat.eqb_eq. eauto.
Qed.

Lemma wf_cell (g : Grid) r c :
  wf_grid g = true -> in_bounds r c = true ->
  exists row, g !! Z.to_nat r = Some row /\ length row = 8%nat /\
              row !! Z.to_nat c = Some (cell g r c).
Proof.
  intros [Hl Hr]%wf_grid_iff [Hr' Hc']%in_bounds_iff.
  destruct (lookup_lt_is_Some_2 g (Z.to_nat r)) as [row Hrow]; [lia|].
  pose proof (Hr _ _ Hrow) as Hlen.
  destruct (lookup_lt_is_Some_2 row (Z.to_nat c)) as [p Hp]; [lia|].
  exists row. unfold cell. by rewrite Hrow, Hp.
Qed.

Lemma getcell_wf (g : Grid) r c :
  wf_grid g = true -> in_bounds r c = true -> getcell g r c = Ok (cell g r c).
Proof.
  intros Hwf Hb. destruct (wf_cell g r c Hwf Hb) as (row & Hrow & Hlen & Hp).
  apply in_bounds_iff in Hb as [Hr Hc].
  unfold getcell. rewrite (py_index_nonneg g r row) by (done || lia). simpl.
  apply py_index_nonneg; [lia|done].
Qed.

Lemma grid_set_wf (g : Grid) r c v :
  wf_grid g = true -> in_bounds r c = true ->
  exists g', grid_set g r c v = Ok g' /\ wf_grid g' = true /\
    forall r' c', in_bounds r' c' = true ->
      cell g' r' c' = if (r' =? r) && (c' =? c) then v else cell g r' c'.
Proof.
  intros Hwf Hb. destruct (wf_cell g r c Hwf Hb) as (row & Hrow & Hlen & Hp).
  pose proof Hwf as [Hl Hrows]%wf_grid_iff.
  apply in_bounds_iff in Hb as [Hr Hc].
  exists (<[Z.to_nat r := <[Z.to_nat c := v]> row]> g).
  split; [|split].
  - unfold grid_set. rewrite (py_index_nonneg g r row) by (done || lia). simpl.
    unfold py_setitem. rewrite !norm_index_nonneg by lia. done.
  - apply wf_grid_iff. rewrite length_insert. split; [done|].
    intros j row' Hj. destruct (decide (j = Z.to_nat r)) as [->|Hne].
    + rewrite list_lookup_insert_eq in Hj by lia.
      injection Hj as <-. by rewrite length_insert.
    + rewrite list_lookup_insert_ne in Hj by done. eauto.
  - intros r' c' [Hr' Hc']%in_bounds_iff. unfold cell.
    destruct (Z.eqb_spec r' r) as [->|Hne]; simpl.
    + rewrite list_lookup_insert_eq, Hrow by lia.
      destruct (Z.eqb_spec c' c) as [->|Hne].
      * rewrite list_lookup_insert_eq by lia. done.
      * rewrite list_lookup_insert_ne by lia. done.
    + rewrite list_lookup_insert_ne by lia. done.
Qed.

(** ** The loops that return early *)

Lemma any_m_ext {A} (f f' : A -> result bool) xs :
  (forall x, x ∈ xs -> f x = f' x) -> any_m f xs = any_m f' xs.
Proof.
  induction xs as [|x xs IH]; intros H; simpl; [done|].
  rewrite (H x) by left. rewrite IH; [done|]. intros y Hy. apply H. by right.
Qed.

Lemma any_m_total {A} (f : A -> result bool) xs :
  (forall x, x ∈ xs -> exists b, f x = Ok b) -> exists b, any_m f xs = Ok b.
Proof.
  induction xs as [|x xs IH]; intros H; simpl; [eauto|].
  destruct (H x) as [b ->]; [left|]. simpl. destruct b; [eauto|].
  apply IH. intros y Hy. apply H. by right.
Qed.

Lemma any_m_true {A} (f : A -> result bool) xs x0 :
  (forall x, x ∈ xs -> exists b, f x = Ok b) ->
  x0 ∈ xs -> f x0 = Ok true -> any_m f xs = Ok true.
Proof.
  induction xs as [|x xs IH]; intros H Hin Hx0; simpl.
  - by apply elem_of_nil in Hin.
  - destruct (H x) as [b Hb]; [left|]. rewrite Hb. simpl.
    destruct b; [done|]. apply IH.
    + intros y Hy. apply H. by right.
    + apply elem_of_cons in Hin as [->|Hin]; [congruence|done].
    + done.
Qed.

Lemma or_else_true_l x y : x = Ok true -> or_else x y = Ok true.
Proof. by intros ->. Qed.

Lemma or_else_true_r x y :
  (exists b, x = Ok b) -> y = Ok true -> or_else x y = Ok true.
Proof. intros [b ->] ->. by destruct b. Qed.

Lemma or_else_total x y :
  (exists b, x = Ok b) -> (exists b, y = Ok b) -> exists b, or_else x y = Ok b.
Proof. intros [b ->] [b' ->]. destruct b; simpl; eauto. Qed.

Lemma find_first_ext {A B} (f f' : A -> result (option B)) xs :
  (forall x, x ∈ xs -> f x = f' x) -> find_first f xs = find_first f' xs.
Proof.
  induction xs as [|x xs IH]; intros H; simpl; [done|].
  rewrite (H x) by left. rewrite IH; [done|]. intros y Hy. apply H. by right.
Qed.

Lemma find_first_total {A B} (f : A -> result (option B)) xs :
  (forall x, x ∈ xs -> exists o, f x = Ok o) -> exists o, find_first f xs = Ok o.
Proof.
  induction xs as [|x xs IH]; intros H; simpl; [eauto|].
  destruct (H x) as [o ->]; [left|]. simpl. destruct o; [eauto|].
  apply IH. intros y Hy. apply H. by right.
Qed.

Lemma find_first_Some {A B} (f : A -> result (option B)) xs b :
  find_first f xs = Ok (Some b) -> exists x, x ∈ xs /\ f x = Ok (Some b).
Proof.
  induction xs as [|x xs IH]; simpl; [done|].
  destruct (f x) as [[b'|]|e] eqn:E; simpl; [| |done].
  - intros [= ->]. exists x. split; [left|done].
  - intros H. destruct (IH H) as (y & Hy & Hf). exists y. split; [by right|done].
Qed.

Lemma find_first_None {A B} (f : A -> result (option B)) xs :
  find_first f xs = Ok None -> forall x, x ∈ xs -> f x = Ok None.
Proof.
  induction xs as [|x xs IH]; simpl; intros H y Hy.
  - by apply elem_of_nil in Hy.
  - destruct (f x) as [[b'|]|e] eqn:E; simpl in H; [done| |done].
    apply elem_of_cons in Hy as [->|Hy]; [done|]. by apply IH.
Qed.

Lemma range8_iff x : x ∈ range8 <-> 0 <= x < 8.
Proof.
  unfold range8. rewrite !elem_of_cons, elem_of_nil. lia.
Qed.

(** ** find_king *)

Lemma find_king_ext (g g' : Grid) color :
  wf_grid g = true -> wf_grid g' = true ->
  (forall r c, in_bounds r c = true ->
     is_piece (cell g r c) color King = is_piece (cell g' r c) color King) ->
  find_king g color = find_king g' color.
Proof.
  intros Hg Hg' H. unfold find_king.
  apply find_first_ext. intros r Hr%range8_iff.
  apply find_first_ext. intros c Hc%range8_iff.
  assert (Hb : in_bounds r c = true) by (apply in_bounds_iff; lia).
  rewrite !getcell_wf by done. simpl. by rewrite H.
Qed.

Lemma find_king_total (g : Grid) color :
  wf_grid g = true -> exists k, find_king g color = Ok k.
Proof.
  intros Hg. unfold find_king.
  apply find_first_total. intros r Hr%range8_iff.
  apply find_first_total. intros c Hc%range8_iff.
  rewrite getcell_wf by (done || apply in_bounds_iff; lia). simpl.
  destruct (is_piece _ _ _); eauto.
Qed.

Lemma find_king_Some (g : Grid) color kr kc :
  wf_grid g = true -> find_king g color = Ok (Some (kr, kc)) ->
  in_bounds kr kc = true /\ is_piece (cell g kr kc) color King = true.
Proof.
  intros Hg H. unfold find_king in H.
  apply find_first_Some in H as (r & Hr%range8_iff & H).
  apply find_first_Some in H as (c & Hc%range8_iff & H).
  assert (Hb : in_bounds r c = true) by (apply in_bounds_iff; lia).
  rewrite getcell_wf in H by done. simpl in H.
  destruct (is_piece (cell g r c) color King) eqn:E; [|done].
  injection H as <- <-. done.
Qed.

Lemma find_king_None (g : Grid) color r c :
  wf_grid g = true -> find_king g color = Ok None ->
  in_bounds r c = true -> is_piece (cell g r c) color King = false.
Proof.
  intros Hg H Hb. unfold find_king in H.
  pose proof Hb as [Hr Hc]%in_bounds_iff.
  pose proof (find_first_None _ _ H r (proj2 (range8_iff r) Hr)) as H1.
  pose proof (find_first_None _ _ H1 c (proj2 (range8_iff c) Hc)) as H2.
  cbv beta in H2. rewrite getcell_wf in H2 by done. simpl in H2.
  by destruct (is_piece (cell g r c) color King).
Qed.

Lemma has_king_iff (g : Grid) color :
  wf_grid g = true ->
  has_king g color = true <->
  exists r c, in_bounds r c = true /\ is_piece (cell g r c) color King = true.
Proof.
  intros Hg. unfold has_king. rewrite existsb_exists. split.
  - intros (row & Hin & Hrow). apply existsb_exists in Hrow as (p & Hp & Hk).
    apply list_elem_of_In, list_elem_of_lookup in Hin as [i Hi].
    apply list_elem_of_In, list_elem_of_lookup in Hp as [j Hj].
    pose proof Hg as [Hl Hrows]%wf_grid_iff.
    pose proof (lookup_lt_Some _ _ _ Hi). pose proof (lookup_lt_Some _ _ _ Hj).
    rewrite (Hrows _ _ Hi) in *.
    exists (Z.of_nat i), (Z.of_nat j). split; [apply in_bounds_iff; lia|].
    unfold cell. by rewrite !Nat2Z.id, Hi, Hj.
  - intros (r & c & Hb & Hk).
    destruct (wf_cell g r c Hg Hb) as (row & Hrow & _ & Hp).
    exists row. split.
    + apply list_elem_of_In, list_elem_of_lookup. eauto.
    + apply existsb_exists. exists (cell g r c). split; [|done].
      apply list_elem_of_In, list_elem_of_lookup. eauto.
Qed.

Lemma has_king_find (g : Grid) color :
  wf_grid g = true -> has_king g color = true ->
  exists kr kc, find_king g color = Ok (Some (kr, kc)).
Proof.
  intros Hg Hk. destruct (find_king_total g color Hg) as [[[kr kc]|] E]; [eauto|].
  apply has_king_iff in Hk as (r & c & Hb & Hp); [|done].
  by rewrite (find_king_None g color r c Hg E Hb) in Hp.
Qed.

(** ** is_square_attacked on a well-formed grid *)

Lemma piece_at_wf (g : Grid) rr cc by_color kind :
  wf_grid g = true ->
  piece_at g rr cc by_color kind =
  Ok (in_bounds rr cc && is_piece (cell g rr cc) by_color kind).
Proof.
  intros Hg. unfold piece_at. destruct (in_bounds rr cc) eqn:Hb; [|done].
  by rewrite getcell_wf.
Qed.

Lemma ray_attacked_total (g : Grid) dr dc by_color kinds :
  wf_grid g = true ->
  forall fuel rr cc,
    exists b, ray_attacked fuel g rr cc dr dc by_color kinds = Ok b.
Proof.
  intros Hg. induction fuel as [|n IH]; intros rr cc; simpl; [eauto|].
  destruct (in_bounds rr cc) eqn:Hb; [|eauto].
  rewrite getcell_wf by done. simpl.
  destruct (cell g rr cc) as [[col k]|]; [eauto|apply IH].
Qed.

(** A ray sees the first piece on it. *)
Lemma ray_attacked_reach (g : Grid) dr dc by_color kinds :
  wf_grid g = true ->
  forall (k fuel : nat) rr cc kd,
    (k < fuel)%nat ->
    (forall i : nat, (i < k)%nat ->
       in_bounds (rr + Z.of_nat i * dr) (cc + Z.of_nat i * dc) = true /\
       cell g (rr + Z.of_nat i * dr) (cc + Z.of_nat i * dc) = None) ->
    in_bounds (rr + Z.of_nat k * dr) (cc + Z.of_nat k * dc) = true ->
    cell g (rr + Z.of_nat k * dr) (cc + Z.of_nat k * dc) = Some (by_color, kd) ->
    kinds kd = true ->
    ray_attacked fuel g rr cc dr dc by_color kinds = Ok true.
Proof.
  intros Hg. induction k as [|k IH]; intros fuel rr cc kd Hf Hclear Hb Hc Hk;
    (destruct fuel as [|n]; [lia|]); simpl.
  - replace (rr + Z.of_nat 0 * dr) with rr in * by lia.
    replace (cc + Z.of_nat 0 * dc) with cc in * by lia.
    rewrite Hb, getcell_wf, Hc by done. simpl.
    rewrite Hk. by destruct by_color.
  - destruct (Hclear 0%nat) as [Hb0 Hc0]; [lia|].
    replace (rr + Z.of_nat 0 * dr) with rr in * by lia.
    replace (cc + Z.of_nat 0 * dc) with cc in * by lia.
    rewrite Hb0, getcell_wf, Hc0 by done. simpl.
    apply (IH n _ _ kd); [lia| | | |done].
    + intros i Hi. specialize (Hclear (S i) ltac:(lia)).
      replace (rr + dr + Z.of_nat i * dr) with (rr + Z.of_nat (S i) * dr) by lia.
      replace (cc + dc + Z.of_nat i * dc) with (cc + Z.of_nat (S i) * dc) by lia.
      done.
    + replace (rr + dr + Z.of_nat k * dr) with (rr + Z.of_nat (S k) * dr) by lia.
      replace (cc + dc + Z.of_nat k * dc) with (cc + Z.of_nat (S k) * dc) by lia.
      done.
    + replace (rr + dr + Z.of_nat k * dr) with (rr + Z.of_nat (S k) * dr) by lia.
      replace (cc + dc + Z.of_nat k * dc) with (cc + Z.of_nat (S k) * dc) by lia.
      done.
Qed.

Lemma pawn_attack_total (g : Grid) r c by_color :
  wf_grid g = true -> exists b, pawn_attack g r c by_color = Ok b.
Proof.
  intros Hg. apply any_m_total. intros dc _. rewrite piece_at_wf by done. eauto.
Qed.

Lemma knight_attack_total (g : Grid) r c by_color :
  wf_grid g = true -> exists b, knight_attack g r c by_color = Ok b.
Proof.
  intros Hg. apply any_m_total. intros [dr dc] _. rewrite piece_at_wf by done. eauto.
Qed.

Lemma diagonal_attack_total (g : Grid) r c by_color :
  wf_grid g = true -> exists b, diagonal_attack g r c by_color = Ok b.
Proof.
  intros Hg. apply any_m_total. intros [dr dc] _. by apply ray_attacked_total.
Qed.

Lemma orthogonal_attack_total (g : Grid) r c by_color :
  wf_grid g = true -> exists b, orthogonal_attack g r c by_color = Ok b.
Proof.
  intros Hg. apply any_m_total. intros [dr dc] _. by apply ray_attacked_total.
Qed.

Lemma king_attack_total (g : Grid) r c by_color :
  wf_grid g = true -> exists b, king_attack g r c by_color = Ok b.
Proof.
  intros Hg. apply any_m_total. intros dr _. apply any_m_total. intros dc _.
  destruct ((dr =? 0) && (dc =? 0)); [eauto|]. rewrite piece_at_wf by done. eauto.
Qed.

(** The attack detector returns a boolean for every square of a
    well-formed grid, and for every square off it. *)
Lemma is_square_attacked_total (g : Grid) r c by_color :
  wf_grid g = true -> exists b, is_square_attacked g r c by_color = Ok b.
Proof.
  intros Hg. unfold is_square_attacked.
  apply or_else_total; [by apply pawn_attack_total|].
  apply or_else_total; [by apply knight_attack_total|].
  apply or_else_total; [by apply diagonal_attack_total|].
  apply or_else_total; [by apply orthogonal_attack_total|].
  apply or_else_total; [by apply king_attack_total|eauto].
Qed.

(** *** Own pieces only block *)

(** Two cells that look the same to an attack scan by [by_color]: equal, or
    holding pieces of one color that is not [by_color]. *)
Lemma is_piece_same by_color (p q : Cell) kind :
  match p, q with
  | None, None => True
  | Some (c1, k1), Some (c2, k2) => c1 = c2 /\ (k1 = k2 \/ c1 <> by_color)
  | _, _ => False
  end ->
  is_piece p by_color kind = is_piece q by_color kind.
Proof.
  destruct p as [[c1 k1]|], q as [[c2 k2]|]; try done.
  intros [<- [<-|Hne]]; [done|]. simpl. by destruct c1, by_color.
Qed.

Section same_view.
Variables (g g' : Grid) (by_color : Color).
Hypothesis Hg : wf_grid g = true.
Hypothesis Hg' : wf_grid g' = true.
Hypothesis Hsame : forall r c, in_bounds r c = true ->
  match cell g r c, cell g' r c with
  | None, None => True
  | Some (c1, k1), Some (c2, k2) => c1 = c2 /\ (k1 = k2 \/ c1 <> by_color)
  | _, _ => False
  end.

Lemma piece_at_same rr cc kind :
  piece_at g rr cc by_color kind = piece_at g' rr cc by_color kind.
Proof using Hg Hg' Hsame.
  rewrite !piece_at_wf by done. destruct (in_bounds rr cc) eqn:Hb; [|done].
  simpl. f_equal. apply is_piece_same. by apply Hsame.
Qed.

Lemma ray_attacked_same dr dc kinds : forall fuel rr cc,
  ray_attacked fuel g rr cc dr dc by_color kinds =
  ray_attacked fuel g' rr cc dr dc by_color kinds.
Proof using Hg Hg' Hsame.
  induction fuel as [|n IH]; intros rr cc; simpl; [done|].
  destruct (in_bounds rr cc) eqn:Hb; [|done].
  rewrite !getcell_wf by done. simpl.
  pose proof (Hsame rr cc Hb) as H.
  destruct (cell g rr cc) as [[c1 k1]|], (cell g' rr cc) as [[c2 k2]|];
    try done.
  destruct H as [<- [<-|Hne]]; [done|].
  f_equal. by destruct c1, by_color.
Qed.

Lemma pawn_attack_same r c :
  pawn_attack g r c by_color = pawn_attack g' r c by_color.
Proof using Hg Hg' Hsame.
  apply any_m_ext. intros dc _. apply piece_at_same.
Qed.

Lemma knight_attack_same r c :
  knight_attack g r c by_color = knight_attack g' r c by_color.
Proof using Hg Hg' Hsame.
  apply any_m_ext. intros [dr dc] _. apply piece_at_same.
Qed.

Lemma diagonal_attack_same r c :
  diagonal_attack g r c by_color = diagonal_attack g' r c by_color.
Proof using Hg Hg' Hsame.
  apply any_m_ext. intros [dr dc] _. apply ray_attacked_same.
Qed.

Lemma orthogonal_attack_same r c :
  orthogonal_attack g r c by_color = orthogonal_attack g' r c by_color.
Proof using Hg Hg' Hsame.
  apply any_m_ext. intros [dr dc] _. apply ray_attacked_same.
Qed.

Lemma king_attack_same r c :
  king_attack g r c by_color = king_attack g' r c by_color.
Proof using Hg Hg' Hsame.
  apply any_m_ext. intros dr _. apply any_m_ext. intros dc _.
  destruct ((dr =? 0) && (dc =? 0)); [done|]. apply piece_at_same.
Qed.

Lemma is_square_attacked_same r c :
  is_square_attacked g r c by_color = is_square_attacked g' r c by_color.
Proof using Hg Hg' Hsame.
  unfold is_square_attacked.
  rewrite pawn_attack_same, knight_attack_same, diagonal_attack_same,
    orthogonal_attack_same, king_attack_same.
  reflexivity.
Qed.
End same_view.

(** *** A capture is an attack *)

Lemma color_eqb_refl col : color_eqb col col = true.
Proof. by destruct col. Qed.

Lemma color_eqb_eq a b : color_eqb a b = true <-> a = b.
Proof. destruct a, b; simpl; split; congruence. Qed.

Lemma attacked_by_pawn (g : Grid) r c by_color :
  pawn_attack g r c by_color = Ok true ->
  is_square_attacked g r c by_color = Ok true.
Proof. intros H. by apply or_else_true_l. Qed.

Lemma attacked_by_knight (g : Grid) r c by_color :
  wf_grid g = true -> knight_attack g r c by_color = Ok true ->
  is_square_attacked g r c by_color = Ok true.
Proof.
  intros Hg H. apply or_else_true_r; [by apply pawn_attack_total|].
  by apply or_else_true_l.
Qed.

Lemma attacked_by_diagonal (g : Grid) r c by_color :
  wf_grid g = true -> diagonal_attack g r c by_color = Ok true ->
  is_square_attacked g r c by_color = Ok true.
Proof.
  intros Hg H. apply or_else_true_r; [by apply pawn_attack_total|].
  apply or_else_true_r; [by apply knight_attack_total|].
  by apply or_else_true_l.
Qed.

Lemma attacked_by_orthogonal (g : Grid) r c by_color :
  wf_grid g = true -> orthogonal_attack g r c by_color = Ok true ->
  is_square_attacked g r c by_color = Ok true.
Proof.
  intros Hg H. apply or_else_true_r; [by apply pawn_attack_total|].
  apply or_else_true_r; [by apply knight_attack_total|].
  apply or_else_true_r; [by apply diagonal_attack_total|].
  by apply or_else_true_l.
Qed.

Lemma attacked_by_king (g : Grid) r c by_color :
  wf_grid g = true -> king_attack g r c by_color = Ok true ->
  is_square_attacked g r c by_color = Ok true.
Proof.
  intros Hg H. apply or_else_true_r; [by apply pawn_attack_total|].
  apply or_else_true_r; [by apply knight_attack_total|].
  apply or_else_true_r; [by apply diagonal_attack_total|].
  apply or_else_true_r; [by apply orthogonal_attack_total|].
  by apply or_else_true_l.
Qed.

Section capture_attacks.
Variables (g : Grid) (r c : Z) (color : Color).
Hypothesis Hg : wf_grid g = true.
Hypothesis Hb : in_bounds r c = true.

Lemma piece_at_here kind rr cc :
  cell g r c = Some (color, kind) -> rr = r -> cc = c ->
  piece_at g rr cc color kind = Ok true.
Proof using Hg Hb.
  intros Hc -> ->. rewrite piece_at_wf, Hb, Hc by done. simpl.
  rewrite color_eqb_refl. by destruct kind.
Qed.

Lemma pawn_capture_attacks dc :
  cell g r c = Some (color, Pawn) -> dc = -1 \/ dc = 1 ->
  is_square_attacked g (r + match color with WHITE => -1 | BLACK => 1 end)
    (c + dc) color = Ok true.
Proof using Hg Hb.
  intros Hc Hdc. apply attacked_by_pawn. unfold pawn_attack.
  apply (any_m_true _ _ (- dc)).
  - intros x _. rewrite piece_at_wf by done. eauto.
  - rewrite !elem_of_cons. lia.
  - apply piece_at_here; [done|lia|lia].
Qed.

Lemma knight_move_attacks dr dc :
  cell g r c = Some (color, Knight) -> (dr, dc) ∈ knight_offsets ->
  is_square_attacked g (r + dr) (c + dc) color = Ok true.
Proof using Hg Hb.
  intros Hc Hd. apply attacked_by_knight; [done|]. unfold knight_attack.
  apply (any_m_true _ _ (- dr, - dc)).
  - intros [x y] _. rewrite piece_at_wf by done. eauto.
  - unfold knight_offsets in *. rewrite !elem_of_cons, elem_of_nil in Hd.
    rewrite !elem_of_cons.
    repeat (destruct Hd as [[= -> ->]|Hd]; [simpl; tauto|]). done.
  - apply piece_at_here; [done|lia|lia].
Qed.

Lemma king_move_attacks dr dc :
  cell g r c = Some (color, King) ->
  dr ∈ [-1; 0; 1] -> dc ∈ [-1; 0; 1] -> (dr =? 0) && (dc =? 0) = false ->
  is_square_attacked g (r + dr) (c + dc) color = Ok true.
Proof using Hg Hb.
  intros Hc Hdr Hdc Hnz. apply attacked_by_king; [done|]. unfold king_attack.
  assert (Htot : forall x y, exists b,
    (if (x =? 0) && (y =? 0) then Ok false
     else piece_at g (r + dr + x) (c + dc + y) color King) = Ok b).
  { intros x y. destruct ((x =? 0) && (y =? 0)); [eauto|].
    rewrite piece_at_wf by done. eauto. }
  rewrite !elem_of_cons, elem_of_nil in Hdr, Hdc.
  apply (any_m_true _ _ (- dr)).
  - intros x _. apply any_m_total. intros y _. apply Htot.
  - rewrite !elem_of_cons. lia.
  - apply (any_m_true _ _ (- dc)).
    + intros y _. apply Htot.
    + rewrite !elem_of_cons. lia.
    + replace ((- dr =? 0) && (- dc =? 0)) with false
        by (symmetry; apply andb_false_iff; apply andb_false_iff in Hnz; lia).
      apply piece_at_here; [done|lia|lia].
Qed.

(** A slider: [n] empty squares from [(r, c)] along [(dr, dc)], then the
    target. *)
Lemma slider_move_attacks kind dr dc (n : nat) kinds :
  cell g r c = Some (color, kind) -> kinds kind = true ->
  (dr, dc) ∈ diagonal_dirs ++ orthogonal_dirs ->
  (forall i : nat, (1 <= i <= n)%nat ->
     in_bounds (r + Z.of_nat i * dr) (c + Z.of_nat i * dc) = true /\
     cell g (r + Z.of_nat i * dr) (c + Z.of_nat i * dc) = None) ->
  in_bounds (r + Z.of_nat (S n) * dr) (c + Z.of_nat (S n) * dc) = true ->
  ray_attacked ray_fuel g
    (r + Z.of_nat (S n) * dr + - dr) (c + Z.of_nat (S n) * dc + - dc)
    (- dr) (- dc) color kinds = Ok true.
Proof using Hg Hb.
  intros Hc Hk Hd Hclear Hend.
  apply (ray_attacked_reach g (- dr) (- dc) color kinds Hg n ray_fuel _ _ kind).
  - apply in_bounds_iff in Hb, Hend. unfold ray_fuel.
    unfold diagonal_dirs, orthogonal_dirs in Hd. simpl in Hd.
    rewrite !elem_of_cons, elem_of_nil in Hd.
    repeat (destruct Hd as [[= -> ->]|Hd]; [lia|]). done.
  - intros i Hi. specialize (Hclear (n - i)%nat ltac:(lia)).
    replace (r + Z.of_nat (S n) * dr + - dr + Z.of_nat i * - dr)
      with (r + Z.of_nat (n - i) * dr) by lia.
    replace (c + Z.of_nat (S n) * dc + - dc + Z.of_nat i * - dc)
      with (c + Z.of_nat (n - i) * dc) by lia.
    done.
  - replace (r + Z.of_nat (S n) * dr + - dr + Z.of_nat n * - dr) with r by lia.
    by replace (c + Z.of_nat (S n) * dc + - dc + Z.of_nat n * - dc) with c by lia.
  - replace (r + Z.of_nat (S n) * dr + - dr + Z.of_nat n * - dr) with r by lia.
    by replace (c + Z.of_nat (S n) * dc + - dc + Z.of_nat n * - dc) with c by lia.
  - done.
Qed.
End capture_attacks.

(** ** The simulation of add_move *)

Lemma safe_wf (g : Grid) r c color rr cc :
  wf_grid g = true -> in_bounds r c = true -> in_bounds rr cc = true ->
  exists g2,
    wf_grid g2 = true /\
    (forall r' c', in_bounds r' c' = true ->
       cell g2 r' c' =
       if (r' =? r) && (c' =? c) then None
       else if (r' =? rr) && (c' =? cc) then cell g r c
       else cell g r' c') /\
    safe g r c color rr cc =
    (k <- find_king g2 color ;;
     match k with
     | None => Raise TypeError
     | Some (kr, kc) =>
         a <- is_square_attacked g2 kr kc (enemy_of color) ;; Ok (negb a)
     end)%R.
Proof.
  intros Hg Hb Hb'.
  destruct (grid_set_wf g rr cc (cell g r c) Hg Hb') as (g1 & E1 & Hg1 & Hc1).
  destruct (grid_set_wf g1 r c None Hg1 Hb) as (g2 & E2 & Hg2 & Hc2).
  exists g2. split; [done|]. split.
  - intros r' c' Hb''. rewrite Hc2, Hc1 by done. done.
  - unfold safe. rewrite getcell_wf by done. simpl. rewrite E1. simpl.
    rewrite E2. done.
Qed.

Section keeping.
Variables (g : Grid) (r c : Z) (color : Color) (kind : Kind).
Hypothesis Hg : wf_grid g = true.
Hypothesis Hb : in_bounds r c = true.
Hypothesis Hc : cell g r c = Some (color, kind).

Lemma keeps_ok moves : keeps g r c color kind moves (Ok moves).
Proof. split; [by intros H ms' [= <-]|eauto]. Qed.

Lemma keeps_bind moves x f :
  keeps g r c color kind moves x ->
  (forall ms, keeps g r c color kind ms (f ms)) ->
  keeps g r c color kind moves (rbind x f).
Proof.
  intros [Hk Ht] Hf. split.
  - intros HK ms' E. destruct x as [ms|e]; simpl in E; [|done].
    apply (Hf ms) in E; [done|]. by apply Hk.
  - intros HK. destruct (Ht HK) as [ms ->]. simpl. by apply Hf.
Qed.

Lemma keeps_for_each {A} (xs : list A) body :
  (forall x ms, x ∈ xs -> keeps g r c color kind ms (body x ms)) ->
  forall ms, keeps g r c color kind ms (for_each_r xs body ms).
Proof.
  induction xs as [|x xs IH]; intros H ms; simpl.
  - apply keeps_ok.
  - apply keeps_bind; [apply H; left|].
    intros ms'. apply IH. intros y ms'' Hy. apply H. by right.
Qed.

(** The mover's king is still on the simulated board. *)
Lemma keeps_add_move rr cc moves :
  Cand g r c color kind (rr, cc) ->
  keeps g r c color kind moves (add_move_on g r c color rr cc moves).
Proof using Hg Hb Hc.
  intros HC. pose proof HC as (Hb' & Hne & Hno & _). simpl in Hb', Hno.
  unfold add_move_on. split.
  - intros HK ms'. destruct (safe g r c color rr cc) as [[|]|e] eqn:E;
      simpl; intros [= <-]; [|done].
    apply Forall_app. split; [done|]. by apply Forall_singleton.
  - intros Hking.
    destruct (safe_wf g r c color rr cc Hg Hb Hb') as (g2 & Hg2 & Hc2 & ->).
    assert (Hk2 : has_king g2 color = true).
    { apply has_king_iff in Hking as (kr & kc & Hkb & Hkp); [|done].
      apply has_king_iff; [done|].
      destruct ((kr =? r) && (kc =? c)) eqn:Esrc.
      - apply andb_true_iff in Esrc as [->%Z.eqb_eq ->%Z.eqb_eq].
        exists rr, cc. split; [done|]. rewrite Hc2 by done.
        destruct ((rr =? r) && (cc =? c)) eqn:E.
        + apply andb_true_iff in E as [->%Z.eqb_eq ->%Z.eqb_eq]. done.
        + by rewrite !Z.eqb_refl.
      - exists kr, kc. split; [done|]. rewrite Hc2, Esrc by done.
        destruct ((kr =? rr) && (kc =? cc)) eqn:E; [|done].
        apply andb_true_iff in E as [->%Z.eqb_eq ->%Z.eqb_eq].
        destruct (cell g rr cc) as [[col k]|]; [|done]. simpl in *.
        apply andb_true_iff in Hkp as [->%color_eqb_eq _]. done. }
    destruct (has_king_find g2 color Hg2 Hk2) as (kr & kc & ->). simpl.
    destruct (is_square_attacked_total g2 kr kc (enemy_of color) Hg2) as [a ->].
    simpl. eauto.
Qed.
End keeping.

Ltac pair_neq :=
  let H := fresh in intros H; injection H; intros; lia.

Section generator.
Variables (g : Grid) (r c : Z) (color : Color) (kind : Kind).
Hypothesis Hg : wf_grid g = true.
Hypothesis Hb : in_bounds r c = true.
Hypothesis Hc : cell g r c = Some (color, kind).

Lemma pawn_moves_keeps moves :
  kind = Pawn ->
  keeps g r c color kind moves (pawn_moves_on g r c color moves).
Proof using Hg Hb Hc.
  intros ->. unfold pawn_moves_on. cbv zeta.
  set (dir := match color with WHITE => -1 | BLACK => 1 end).
  set (start_row := match color with WHITE => 6 | BLACK => 1 end).
  assert (Hdir : dir = -1 \/ dir = 1) by (destruct color; auto).
  pose proof Hb as Hb0%in_bounds_iff.
  match goal with
  | |- context [for_each_r ?xs ?body] =>
      assert (Hcap : forall ms,
                keeps g r c color Pawn ms (for_each_r xs body ms))
  end.
  { apply keeps_for_each. intros dc ms' Hdc.
    rewrite !elem_of_cons, elem_of_nil in Hdc.
    destruct (in_bounds (r + dir) (c + dc)) eqn:Hb1; simpl; [|apply keeps_ok].
    rewrite getcell_wf by done. simpl.
    destruct (cell g (r + dir) (c + dc)) as [[col k]|] eqn:Hc1; simpl;
      [|apply keeps_ok].
    destruct (color_eqb col color) eqn:Hcol; simpl; [apply keeps_ok|].
    apply keeps_add_move; try done.
    unfold Cand; simpl; rewrite Hc1. repeat split; try done.
    - pair_neq.
    - intros ->. by rewrite color_eqb_refl in Hcol.
    - intros _. apply pawn_capture_attacks; [done|done|done|lia].
    - by left. }
  destruct (in_bounds (r + dir) c) eqn:Hb1; simpl; [|apply Hcap].
  rewrite getcell_wf by done. simpl.
  destruct (bool_decide (cell g (r + dir) c = None)) eqn:Hc1; simpl;
    [|apply Hcap].
  apply bool_decide_eq_true in Hc1.
  apply keeps_bind; [|apply Hcap].
  apply keeps_bind.
  - apply keeps_add_move; try done.
    unfold Cand; simpl; rewrite Hc1. repeat split; try done.
    + pair_neq.
    + by left.
  - intros ms. destruct (r =? start_row) eqn:Hs; simpl; [|apply keeps_ok].
    apply Z.eqb_eq in Hs.
    assert (Hb2 : in_bounds (r + 2 * dir) c = true).
    { apply in_bounds_iff. subst start_row dir. destruct color; lia. }
    rewrite getcell_wf by done. simpl.
    destruct (bool_decide (cell g (r + 2 * dir) c = None)) eqn:Hc2; simpl;
      [|apply keeps_ok].
    apply bool_decide_eq_true in Hc2.
    apply keeps_add_move; try done.
    unfold Cand; simpl; rewrite Hc2. repeat split; try done.
    + pair_neq.
    + by right.
Qed.

Lemma free_or_enemy_keeps rr cc moves :
  (rr, cc) <> (r, c) ->
  (in_bounds rr cc = true -> cell g rr cc <> None ->
   is_square_attacked g rr cc color = Ok true) ->
  kind <> Pawn ->
  keeps g r c color kind moves
    (ok <- free_or_enemy_on g color rr cc ;;
     if ok : bool then add_move_on g r c color rr cc moves else Ok moves)%R.
Proof using Hg Hb Hc.
  intros Hne Hatt Hk. unfold free_or_enemy_on.
  destruct (in_bounds rr cc) eqn:Hb1; simpl; [|apply keeps_ok].
  rewrite getcell_wf by done. simpl.
  destruct (cell g rr cc) as [[col k]|] eqn:Hc1; simpl.
  - destruct (color_eqb col color) eqn:Hcol; simpl; [apply keeps_ok|].
    apply keeps_add_move; try done.
    unfold Cand; simpl; rewrite Hc1. repeat split; try done.
    + intros ->. by rewrite color_eqb_refl in Hcol.
    + intros _. by apply Hatt.
  - apply keeps_add_move; try done.
    unfold Cand; simpl; rewrite Hc1. repeat split; try done.
Qed.

Lemma slide_keeps dr dc kinds :
  kinds kind = true -> kind <> Pawn ->
  (dr, dc) ∈ diagonal_dirs ++ orthogonal_dirs ->
  (forall tr tc,
     ray_attacked ray_fuel g (tr + - dr) (tc + - dc) (- dr) (- dc) color kinds
       = Ok true ->
     is_square_attacked g tr tc color = Ok true) ->
  forall fuel (n : nat) moves,
    (forall i : nat, (1 <= i <= n)%nat ->
       in_bounds (r + Z.of_nat i * dr) (c + Z.of_nat i * dc) = true /\
       cell g (r + Z.of_nat i * dr) (c + Z.of_nat i * dc) = None) ->
    keeps g r c color kind moves
      (slide_on fuel g r c color
         (r + Z.of_nat (S n) * dr) (c + Z.of_nat (S n) * dc) dr dc moves).
Proof using Hg Hb Hc.
  intros Hk Hnp Hd Hray.
  assert (Hnz : forall n : nat,
    (r + Z.of_nat (S n) * dr, c + Z.of_nat (S n) * dc) <> (r, c)).
  { intros n [= H1 H2]. unfold diagonal_dirs, orthogonal_dirs in Hd.
    simpl in Hd. rewrite !elem_of_cons, elem_of_nil in Hd.
    repeat (destruct Hd as [[= -> ->]|Hd]; [lia|]). done. }
  induction fuel as [|fuel IH]; intros n moves Hclear; [apply keeps_ok|].
  specialize (Hnz n).
  pose proof (slider_move_attacks g r c color Hg Hb kind dr dc n kinds
                Hc Hk Hd Hclear) as Hatt.
  remember (r + Z.of_nat (S n) * dr) as tr eqn:Etr.
  remember (c + Z.of_nat (S n) * dc) as tc eqn:Etc.
  simpl.
  destruct (in_bounds tr tc) eqn:Hb1; [|apply keeps_ok].
  rewrite getcell_wf by done. simpl.
  destruct (cell g tr tc) as [[col k]|] eqn:Hc1.
  - destruct (color_eqb col color) eqn:Hcol; simpl; [apply keeps_ok|].
    apply keeps_add_move; try done.
    unfold Cand; simpl; rewrite Hc1. repeat split; try done.
    + intros ->. by rewrite color_eqb_refl in Hcol.
    + intros _. apply Hray. by apply Hatt.
  - apply keeps_bind.
    + apply keeps_add_move; try done.
      unfold Cand; simpl; rewrite Hc1. repeat split; try done.
    + intros ms.
      replace (tr + dr) with (r + Z.of_nat (S (S n)) * dr) by lia.
      replace (tc + dc) with (c + Z.of_nat (S (S n)) * dc) by lia.
      apply IH. intros i Hi.
      destruct (decide (i = S n)) as [->|Hne]; [by subst tr tc|].
      apply Hclear. lia.
Qed.
End generator.

Lemma diagonal_ray_attacks (g : Grid) tr tc dr dc color :
  wf_grid g = true -> (dr, dc) ∈ diagonal_dirs ->
  ray_attacked ray_fuel g (tr + - dr) (tc + - dc) (- dr) (- dc) color
    (fun k => kind_eqb k Bishop || kind_eqb k Queen) = Ok true ->
  is_square_attacked g tr tc color = Ok true.
Proof.
  intros Hg Hd H. apply attacked_by_diagonal; [done|].
  apply (any_m_true _ _ (- dr, - dc)).
  - intros [x y] _. by apply ray_attacked_total.
  - unfold diagonal_dirs in *. rewrite !elem_of_cons, elem_of_nil in Hd.
    rewrite !elem_of_cons.
    repeat (destruct Hd as [[= -> ->]|Hd]; [simpl; tauto|]). done.
  - done.
Qed.

Lemma orthogonal_ray_attacks (g : Grid) tr tc dr dc color :
  wf_grid g = true -> (dr, dc) ∈ orthogonal_dirs ->
  ray_attacked ray_fuel g (tr + - dr) (tc + - dc) (- dr) (- dc) color
    (fun k => kind_eqb k Rook || kind_eqb k Queen) = Ok true ->
  is_square_attacked g tr tc color = Ok true.
Proof.
  intros Hg Hd H. apply attacked_by_orthogonal; [done|].
  apply (any_m_true _ _ (- dr, - dc)).
  - intros [x y] _. by apply ray_attacked_total.
  - unfold orthogonal_dirs in *. rewrite !elem_of_cons, elem_of_nil in Hd.
    rewrite !elem_of_cons.
    repeat (destruct Hd as [[= -> ->]|Hd]; [simpl; tauto|]). done.
  - done.
Qed.

Section legal_moves.
Variables (g : Grid) (r c : Z) (color : Color) (kind : Kind).
Hypothesis Hg : wf_grid g = true.
Hypothesis Hb : in_bounds r c = true.
Hypothesis Hc : cell g r c = Some (color, kind).

Lemma diagonal_slides_keep ms :
  kind = Bishop \/ kind = Queen ->
  keeps g r c color kind ms
    (for_each_r diagonal_dirs (fun '(dr, dc) moves =>
       slide_on ray_fuel g r c color (r + dr) (c + dc) dr dc moves) ms).
Proof using Hg Hb Hc.
  intros Hk. apply keeps_for_each; try done. intros [dr dc] ms' Hd.
  replace (r + dr) with (r + Z.of_nat 1 * dr) by lia.
  replace (c + dc) with (c + Z.of_nat 1 * dc) by lia.
  apply (slide_keeps g r c color kind Hg Hb Hc dr dc
           (fun k => kind_eqb k Bishop || kind_eqb k Queen)).
  - by destruct Hk as [-> | ->].
  - by destruct Hk as [-> | ->].
  - apply elem_of_app. by left.
  - intros tr tc. by apply diagonal_ray_attacks.
  - intros i Hi. lia.
Qed.

Lemma orthogonal_slides_keep ms :
  kind = Rook \/ kind = Queen ->
  keeps g r c color kind ms
    (for_each_r orthogonal_dirs (fun '(dr, dc) moves =>
       slide_on ray_fuel g r c color (r + dr) (c + dc) dr dc moves) ms).
Proof using Hg Hb Hc.
  intros Hk. apply keeps_for_each; try done. intros [dr dc] ms' Hd.
  replace (r + dr) with (r + Z.of_nat 1 * dr) by lia.
  replace (c + dc) with (c + Z.of_nat 1 * dc) by lia.
  apply (slide_keeps g r c color kind Hg Hb Hc dr dc
           (fun k => kind_eqb k Rook || kind_eqb k Queen)).
  - by destruct Hk as [-> | ->].
  - by destruct Hk as [-> | ->].
  - apply elem_of_app. by right.
  - intros tr tc. by apply orthogonal_ray_attacks.
  - intros i Hi. lia.
Qed.

End legal_moves.

Lemma for_each_r_app {A S} (xs ys : list A) (body : A -> S -> result S) s :
  for_each_r (xs ++ ys) body s =
  (s' <- for_each_r xs body s ;; for_each_r ys body s')%R.
Proof.
  revert s. induction xs as [|x xs IH]; intros s; simpl; [done|].
  destruct (body x s); simpl; [apply IH|done].
Qed.

(** Every move legal_moves_from returns is a candidate that passed the test
    of add_move; the call returns when the mover has a king. *)
Lemma legal_moves_on_keeps (g : Grid) r c color kind :
  wf_grid g = true -> in_bounds r c = true ->
  cell g r c = Some (color, kind) ->
  keeps g r c color kind [] (legal_moves_on g r c color).
Proof.
  intros Hg Hb Hc.
  unfold legal_moves_on. rewrite getcell_wf, Hc by done. cbn [rbind].
  rewrite color_eqb_refl. cbn [negb]. destruct kind; cbv zeta.
  - by apply pawn_moves_keeps.
  - apply keeps_for_each; try done. intros [dr dc] ms Hd.
    apply free_or_enemy_keeps; try done.
    + unfold knight_offsets in Hd. rewrite !elem_of_cons, elem_of_nil in Hd.
      repeat (destruct Hd as [[= -> ->]|Hd]; [pair_neq|]). done.
    + intros _ _. by apply knight_move_attacks.
  - apply (diagonal_slides_keep g r c color Bishop); auto.
  - apply (orthogonal_slides_keep g r c color Rook); auto.
  - change (keeps g r c color Queen []
      (for_each_r (diagonal_dirs ++ orthogonal_dirs) (fun '(dr, dc) moves =>
         slide_on ray_fuel g r c color (r + dr) (c + dc) dr dc moves) [])).
    rewrite for_each_r_app. apply keeps_bind.
    + apply (diagonal_slides_keep g r c color Queen); auto.
    + intros ms. apply (orthogonal_slides_keep g r c color Queen); auto.
  - apply keeps_for_each; try done. intros dr ms Hdr.
    apply keeps_for_each; try done. intros dc ms' Hdc.
    destruct ((dr =? 0) && (dc =? 0)) eqn:Hz; [apply keeps_ok|].
    apply free_or_enemy_keeps; try done.
    + apply andb_false_iff in Hz. pair_neq.
    + intros _ _. by apply king_move_attacks.
Qed.

(** ** Coordinates *)

Lemma small_cases (x : Z) :
  0 <= x < 8 -> x = 0 \/ x = 1 \/ x = 2 \/ x = 3 \/ x = 4 \/ x = 5 \/ x = 6 \/ x = 7.
Proof. lia. Qed.

Lemma algebraic_roundtrip r c :
  in_bounds r c = true ->
  exists s, rc_to_algebraic r c = Ok s /\ algebraic_to_rc s = Ok (r, c).
Proof.
  intros [Hr Hc]%in_bounds_iff.
  apply small_cases in Hr. apply small_cases in Hc.
  repeat (destruct Hr as [->|Hr]); repeat (destruct Hc as [->|Hc]); subst;
    eexists; (split; [reflexivity|reflexivity]).
Qed.

(** C9. Conversion between algebraic text and squares: a file letter a-h,
    in either case, is mapped to its column 0-7 and a rank digit n to row
    8 - n, whatever follows the two characters; and rc_to_algebraic followed
    by algebraic_to_rc gives back every in-bounds square. *)
Theorem coordinate_conversion :
  (forall col n lo up dg rest,
     0 <= col < 8 -> 1 <= n <= 8 ->
     chr (ord "a" + col) = Ok lo -> chr (ord "A" + col) = Ok up ->
     chr (ord "0" + n) = Ok dg ->
     algebraic_to_rc (String lo (String dg rest)) = Ok (8 - n, col) /\
     algebraic_to_rc (String up (String dg rest)) = Ok (8 - n, col)) /\
  (forall r c,
     in_bounds r c = true ->
     exists s, rc_to_algebraic r c = Ok s /\ algebraic_to_rc s = Ok (r, c)).
Proof.
  split; [|apply algebraic_roundtrip].
  intros col n lo up dg rest Hcol Hn Hlo Hup Hdg.
  apply small_cases in Hcol.
  assert (Hn' : n = 1 \/ n = 2 \/ n = 3 \/ n = 4 \/ n = 5 \/ n = 6 \/ n = 7 \/ n = 8)
    by lia.
  repeat (destruct Hcol as [->|Hcol]); subst;
    injection Hlo as <-; injection Hup as <-;
    repeat (destruct Hn' as [->|Hn']); subst;
    injection Hdg as <-; split; reflexivity.
Qed.

Lemma coordinate_conversion_witness :
  (algebraic_to_rc "e2" = Ok (6, 4) /\ algebraic_to_rc "E2" = Ok (6, 4)) /\
  (exists s, rc_to_algebraic 6 4 = Ok s /\ algebraic_to_rc s = Ok (6, 4)).
Proof.
  split.
  - apply (proj1 coordinate_conversion 4 2 "e"%char "E"%char "2"%char ""%string);
      (lia || reflexivity).
  - apply (proj2 coordinate_conversion 6 4). reflexivity.
Defined.

(** ** The move executor over the content of its board *)

Lemma mem_square_iff x ms : mem_square x ms = true <-> x ∈ ms.
Proof.
  unfold mem_square. rewrite existsb_exists. split.
  - intros ([a b] & Hin & H). apply andb_true_iff in H as [H1 H2].
    apply Z.eqb_eq in H1, H2. destruct x as [x1 x2]. simpl in *. subst.
    by apply list_elem_of_In.
  - intros Hin. exists x. split; [by apply list_elem_of_In|].
    by rewrite !Z.eqb_refl.
Qed.

Lemma legal_moves_on_sound (g : Grid) r c color kind ms :
  wf_grid g = true -> in_bounds r c = true ->
  cell g r c = Some (color, kind) ->
  legal_moves_on g r c color = Ok ms ->
  forall d, d ∈ ms ->
    Cand g r c color kind d /\ safe g r c color (fst d) (snd d) = Ok true.
Proof.
  intros Hg Hb Hc E d Hd.
  destruct (legal_moves_on_keeps g r c color kind Hg Hb Hc) as [Hk _].
  assert (HK : Kept g r c color kind ms) by (apply Hk; [apply Forall_nil_2|done]).
  unfold Kept in HK. rewrite Forall_forall in HK. by apply HK.
Qed.

Lemma move_on_writes (g : Grid) r1 c1 r2 c2 color kind :
  wf_grid g = true -> in_bounds r1 c1 = true -> in_bounds r2 c2 = true ->
  exists g1 g2,
    grid_set g r1 c1 None = Ok g1 /\
    grid_set g1 r2 c2 (Some (color, placed_kind kind r2)) = Ok g2 /\
    moved g g2 r1 c1 r2 c2 color kind.
Proof.
  intros Hg Hb1 Hb2.
  destruct (grid_set_wf g r1 c1 None Hg Hb1) as (g1 & E1 & Hg1 & Hc1).
  destruct (grid_set_wf g1 r2 c2 (Some (color, placed_kind kind r2)) Hg1 Hb2)
    as (g2 & E2 & Hg2 & Hc2).
  exists g1, g2. repeat split; try done.
  intros r c Hb. rewrite Hc2, Hc1 by done. done.
Qed.

(** What an accepted move was, and what it left on the board. *)
Lemma move_on_success (g g' : Grid) src dst color msg :
  wf_grid g = true ->
  move_on g src dst color = (g', Ok (true, msg)) ->
  exists r1 c1 r2 c2 kind,
    algebraic_to_rc src = Ok (r1, c1) /\ algebraic_to_rc dst = Ok (r2, c2) /\
    in_bounds r1 c1 = true /\ cell g r1 c1 = Some (color, kind) /\
    Cand g r1 c1 color kind (r2, c2) /\ safe g r1 c1 color r2 c2 = Ok true /\
    moved g g' r1 c1 r2 c2 color kind.
Proof.
  intros Hg. unfold move_on.
  destruct (algebraic_to_rc src) as [[r1 c1]|e]; [|done].
  destruct (algebraic_to_rc dst) as [[r2 c2]|e]; [|done].
  destruct (in_bounds r1 c1) eqn:Hb1; [|done].
  destruct (in_bounds r2 c2) eqn:Hb2; [|done]. simpl.
  rewrite getcell_wf by done.
  destruct (cell g r1 c1) as [[col kind]|] eqn:Hc; [|done].
  destruct (color_eqb col color) eqn:Hcol; [|done]. simpl.
  apply color_eqb_eq in Hcol as ->.
  destruct (legal_moves_on g r1 c1 color) as [ms|e] eqn:Hms; [|done].
  destruct (mem_square (r2, c2) ms) eqn:Hin; [|done]. simpl.
  apply mem_square_iff in Hin.
  destruct (legal_moves_on_sound g r1 c1 color kind ms Hg Hb1 Hc Hms _ Hin)
    as [HC Hs].
  destruct (move_on_writes g r1 c1 r2 c2 color kind Hg Hb1 Hb2)
    as (g1 & g2 & E1 & E2 & Hm).
  rewrite E1. fold (placed_kind kind r2).
  replace (if kind_eqb kind Pawn && ((r2 =? 0) || (r2 =? 7))
           then Some (color, Queen) else Some (color, kind))
    with (Some (color, placed_kind kind r2))
    by (unfold placed_kind; by destruct (kind_eqb kind Pawn && _)).
  rewrite E2. intros [= <- <-].
  exists r1, c1, r2, c2, kind. done.
Qed.

(** A move the generator returned is accepted. *)
Lemma move_on_accepts (g : Grid) src dst r1 c1 r2 c2 color kind ms :
  wf_grid g = true ->
  algebraic_to_rc src = Ok (r1, c1) -> algebraic_to_rc dst = Ok (r2, c2) ->
  in_bounds r1 c1 = true -> cell g r1 c1 = Some (color, kind) ->
  legal_moves_on g r1 c1 color = Ok ms -> (r2, c2) ∈ ms ->
  exists g', move_on g src dst color = (g', Ok (true, "OK"%string)).
Proof.
  intros Hg Es Ed Hb1 Hc Hms Hin.
  destruct (legal_moves_on_sound g r1 c1 color kind ms Hg Hb1 Hc Hms _ Hin)
    as [(Hb2 & _) _]. simpl in Hb2.
  destruct (move_on_writes g r1 c1 r2 c2 color kind Hg Hb1 Hb2)
    as (g1 & g2 & E1 & E2 & Hm).
  unfold move_on. rewrite Es, Ed, Hb1, Hb2. simpl.
  rewrite getcell_wf, Hc, color_eqb_refl, Hms by done. simpl.
  apply mem_square_iff in Hin. rewrite Hin. simpl. rewrite E1.
  replace (if kind_eqb kind Pawn && ((r2 =? 0) || (r2 =? 7))
           then Some (color, Queen) else Some (color, kind))
    with (Some (color, placed_kind kind r2))
    by (unfold placed_kind; by destruct (kind_eqb kind Pawn && _)).
  rewrite E2. eauto.
Qed.

Lemma enemy_of_ne color : color <> enemy_of color.
Proof. by destruct color. Qed.

Lemma placed_kind_king kind r2 :
  kind_eqb (placed_kind kind r2) King = kind_eqb kind King.
Proof. unfold placed_kind. by destruct kind, ((r2 =? 0) || (r2 =? 7)). Qed.

(** The board after the move looks to the enemy like the board add_move
    tested, so the mover is not in check on it. *)
Lemma king_safe_after (g g' : Grid) r1 c1 r2 c2 color kind :
  wf_grid g = true -> in_bounds r1 c1 = true ->
  cell g r1 c1 = Some (color, kind) ->
  Cand g r1 c1 color kind (r2, c2) ->
  safe g r1 c1 color r2 c2 = Ok true ->
  moved g g' r1 c1 r2 c2 color kind ->
  in_check g' color = Ok false.
Proof.
  intros Hg Hb1 Hc (Hb2 & Hne & _) Hs [Hg' Hc']. simpl in Hb2.
  destruct (safe_wf g r1 c1 color r2 c2 Hg Hb1 Hb2) as (g2 & Hg2 & Hc2 & E).
  rewrite E in Hs. clear E.
  assert (Hview : forall r c, in_bounds r c = true ->
    match cell g' r c, cell g2 r c with
    | None, None => True
    | Some (a1, k1), Some (a2, k2) => a1 = a2 /\ (k1 = k2 \/ a1 <> enemy_of color)
    | _, _ => False
    end).
  { intros r c Hb. rewrite Hc', Hc2 by done.
    destruct ((r =? r2) && (c =? c2)) eqn:E2.
    - apply andb_true_iff in E2 as [->%Z.eqb_eq ->%Z.eqb_eq].
      destruct ((r2 =? r1) && (c2 =? c1)) eqn:E1.
      + apply andb_true_iff in E1 as [->%Z.eqb_eq ->%Z.eqb_eq]. done.
      + rewrite Hc. split; [done|]. right. apply enemy_of_ne.
    - destruct ((r =? r1) && (c =? c1)); [done|].
      destruct (cell g r c) as [[a k]|]; [|done]. auto. }
  assert (Hking : find_king g' color = find_king g2 color).
  { apply find_king_ext; try done. intros r c Hb.
    specialize (Hview r c Hb). rewrite Hc', Hc2 in * by done.
    destruct ((r =? r2) && (c =? c2)) eqn:E2.
    - apply andb_true_iff in E2 as [->%Z.eqb_eq ->%Z.eqb_eq].
      destruct ((r2 =? r1) && (c2 =? c1)) eqn:E1; [done|].
      rewrite Hc. simpl. by rewrite placed_kind_king.
    - done. }
  unfold in_check. rewrite Hking.
  destruct (find_king g2 color) as [[[kr kc]|]|e]; simpl in *; try done.
  rewrite (is_square_attacked_same g' g2 (enemy_of color) Hg' Hg2 Hview).
  destruct (is_square_attacked g2 kr kc (enemy_of color)) as [[|]|e];
    simpl in *; congruence.
Qed.

(** ** all_legal_moves *)

Lemma for_each_r_inv {A S} (P : S -> Prop) (xs : list A) body :
  (forall x s s', x ∈ xs -> P s -> body x s = Ok s' -> P s') ->
  forall s s', P s -> for_each_r xs body s = Ok s' -> P s'.
Proof.
  induction xs as [|x xs IH]; intros H s s' Hs E; simpl in E.
  - by injection E as <-.
  - destruct (body x s) as [s1|e] eqn:E1; simpl in E; [|done].
    apply (IH (fun y t t' Hy => H y t t' (list_elem_of_further _ _ _ Hy)) s1 s');
      [|done].
    apply (H x s s1); [left|done|done].
Qed.

Lemma for_each_r_total {A S} (xs : list A) (body : A -> S -> result S) :
  (forall x s, x ∈ xs -> exists s', body x s = Ok s') ->
  forall s, exists s', for_each_r xs body s = Ok s'.
Proof.
  induction xs as [|x xs IH]; intros H s; simpl; [eauto|].
  destruct (H x s) as [s1 ->]; [left|]. simpl.
  apply IH. intros y t Hy. apply H. by right.
Qed.

Lemma all_legal_moves_on_sound (g : Grid) color ms :
  wf_grid g = true ->
  all_legal_moves_on g color = Ok ms -> Forall (legal_on g color) ms.
Proof.
  intros Hg. unfold all_legal_moves_on.
  apply (for_each_r_inv (Forall (legal_on g color))); [|apply Forall_nil_2].
  intros r res res' Hr%range8_iff HP.
  apply (for_each_r_inv (Forall (legal_on g color))); [|done].
  clear res res' HP. intros c res res' Hc%range8_iff HP.
  assert (Hb : in_bounds r c = true) by (apply in_bounds_iff; lia).
  rewrite getcell_wf by done. simpl.
  destruct (cell g r c) as [[col kind]|] eqn:Hcell; [|by intros [= <-]].
  destruct (color_eqb col color) eqn:Hcol; [|by intros [= <-]].
  apply color_eqb_eq in Hcol as ->.
  destruct (legal_moves_on g r c color) as [ds|e] eqn:Hds; simpl; [|done].
  intros [= <-]. apply Forall_app. split; [done|].
  apply Forall_fmap, Forall_forall. intros d Hd.
  split; [done|]. exists kind, ds. done.
Qed.

Lemma all_legal_moves_on_total (g : Grid) color :
  wf_grid g = true -> has_king g color = true ->
  exists ms, all_legal_moves_on g color = Ok ms.
Proof.
  intros Hg Hk. unfold all_legal_moves_on.
  apply for_each_r_total. intros r res Hr%range8_iff.
  apply for_each_r_total. intros c res' Hc%range8_iff.
  assert (Hb : in_bounds r c = true) by (apply in_bounds_iff; lia).
  rewrite getcell_wf by done. simpl.
  destruct (cell g r c) as [[col kind]|] eqn:Hcell; [|eauto].
  destruct (color_eqb col color) eqn:Hcol; [|eauto].
  apply color_eqb_eq in Hcol as ->.
  destruct (legal_moves_on_keeps g r c color kind Hg Hb Hcell) as [_ Ht].
  destruct (Ht Hk) as [ds ->]. simpl. eauto.
Qed.

(** ** Well-formed boards in the store *)

Lemma wf_board_iff h (b : Board) :
  wf_board h b = true <->
  NoDup b /\ valid h b = true /\ wf_grid (deref h b) = true.
Proof.
  unfold wf_board. rewrite !andb_true_iff, bool_decide_eq_true. tauto.
Qed.

(** C1. On a well-formed board with a king of the mover, all_legal_moves
    returns, and every move it returns is accepted by [move] (given as
    algebraic text) and leaves a board on which the mover is not in check;
    this covers the moves that promote, where [move] places a queen and the
    test of add_move had placed the pawn. *)
Theorem legal_move_leaves_king_safe h (b : Board) color :
  wf_board h b = true -> has_king (deref h b) color = true ->
  exists h1 ms,
    all_legal_moves b color h = (h1, Ok ms) /\
    forall r c rr cc, ((r, c), (rr, cc)) ∈ ms ->
      exists src dst h2,
        rc_to_algebraic r c = Ok src /\ rc_to_algebraic rr cc = Ok dst /\
        move b src dst color h1 = (h2, Ok (true, "OK"%string)) /\
        in_check (deref h2 b) color = Ok false.
Proof.
  intros (Hnd & Hv & Hg)%wf_board_iff Hk.
  destruct (all_legal_moves_refines b color h Hv) as (h1 & E & Hpre).
  destruct (all_legal_moves_on_total _ color Hg Hk) as [ms Hms].
  rewrite Hms in E. exists h1, ms. split; [done|].
  intros r c rr cc Hin.
  pose proof (all_legal_moves_on_sound _ color ms Hg Hms) as Hall.
  rewrite Forall_forall in Hall.
  destruct (Hall _ Hin) as (Hb1 & kind & ds & Hc & Hds & Hd). simpl in *.
  destruct (legal_moves_on_sound _ r c color kind ds Hg Hb1 Hc Hds _ Hd)
    as [HC Hs]. simpl in Hs.
  pose proof HC as (Hb2 & _). simpl in Hb2.
  destruct (algebraic_roundtrip r c Hb1) as (src & Es & Ps).
  destruct (algebraic_roundtrip rr cc Hb2) as (dst & Ed & Pd).
  destruct (valid_prefix _ _ _ Hv Hpre) as [Hv1 Hd1].
  destruct (move_refines h1 b src dst color Hnd Hv1) as (h2 & Em & Hg2 & _).
  rewrite Hd1 in Em, Hg2.
  destruct (move_on_accepts _ src dst r c rr cc color kind ds Hg Ps Pd Hb1 Hc Hds Hd)
    as [g' Eon].
  rewrite Eon in Em, Hg2. simpl in Em, Hg2.
  exists src, dst, h2. repeat split; try done.
  destruct (move_on_success _ g' src dst color _ Hg Eon)
    as (r1 & c1 & r2 & c2 & kind' & Ps' & Pd' & Hb1' & Hc' & HC' & Hs' & Hm).
  rewrite Hg2. by eapply king_safe_after.
Qed.

(** ** The move executor *)

Lemma move_success h (b : Board) src dst color h' msg :
  wf_board h b = true ->
  move b src dst color h = (h', Ok (true, msg)) ->
  wf_board h' b = true /\
  (forall l, (l < length h)%nat -> l ∉ b -> h' !! l = h !! l) /\
  exists r1 c1 r2 c2 kind,
    algebraic_to_rc src = Ok (r1, c1) /\ algebraic_to_rc dst = Ok (r2, c2) /\
    in_bounds r1 c1 = true /\ cell (deref h b) r1 c1 = Some (color, kind) /\
    Cand (deref h b) r1 c1 color kind (r2, c2) /\
    safe (deref h b) r1 c1 color r2 c2 = Ok true /\
    moved (deref h b) (deref h' b) r1 c1 r2 c2 color kind.
Proof.
  intros (Hnd & Hv & Hg)%wf_board_iff E.
  destruct (move_refines h b src dst color Hnd Hv) as (h2 & Em & Hg2 & Hv2 & Hfr).
  rewrite E in Em. injection Em as <- Eres.
  destruct (move_on (deref h b) src dst color) as [g' res] eqn:Eon.
  simpl in *. subst res g'.
  destruct (move_on_success _ _ src dst color msg Hg Eon)
    as (r1 & c1 & r2 & c2 & kind & Ps & Pd & Hb1 & Hc & HC & Hs & Hm).
  split; [|split; [done|]].
  - apply wf_board_iff. repeat split; try done. apply Hm.
  - exists r1, c1, r2, c2, kind. done.
Qed.

(** C2, as the code has it.  [move] returns a success flag and a message
    and writes the move into the board object it is given: after an
    accepted move that object holds the position after the move (the source
    square empty, the destination holding the moved piece or the queen it
    was promoted to, every other square as before), which is not the
    position before the move; the row objects of other boards are left as
    they were. *)
Theorem move_updates_board_in_place h (b : Board) src dst color h' msg :
  wf_board h b = true ->
  move b src dst color h = (h', Ok (true, msg)) ->
  deref h' b <> deref h b /\
  wf_board h' b = true /\
  (forall l, (l < length h)%nat -> l ∉ b -> h' !! l = h !! l) /\
  exists r1 c1 r2 c2 kind,
    algebraic_to_rc src = Ok (r1, c1) /\ algebraic_to_rc dst = Ok (r2, c2) /\
    cell (deref h b) r1 c1 = Some (color, kind) /\
    forall r c, in_bounds r c = true ->
      cell (deref h' b) r c =
      if (r =? r2) && (c =? c2) then Some (color, placed_kind kind r2)
      else if (r =? r1) && (c =? c1) then None
      else cell (deref h b) r c.
Proof.
  intros Hwf E.
  destruct (move_success h b src dst color h' msg Hwf E)
    as (Hwf' & Hfr & r1 & c1 & r2 & c2 & kind & Ps & Pd & Hb1 & Hc & HC & _ & Hm).
  destruct Hm as [_ Hcells]. destruct HC as (Hb2 & Hne & _). simpl in Hb2.
  assert (Hsrc : cell (deref h' b) r1 c1 = None).
  { rewrite Hcells by done.
    destruct ((r1 =? r2) && (c1 =? c2)) eqn:E12.
    - apply andb_true_iff in E12 as [->%Z.eqb_eq ->%Z.eqb_eq]. done.
    - by rewrite !Z.eqb_refl. }
  split; [|split; [done|split; [done|]]].
  - intros Heq. rewrite Heq in Hsrc. congruence.
  - exists r1, c1, r2, c2, kind. done.
Qed.

(** C10. A call of [move] that returns a failure leaves every row object
    that was in the store as it was (the store only grew by the copies the
    move generator made), so the board it was given holds the same
    position; the failure is one of the three rejections. *)
Theorem rejected_move_leaves_board h (b : Board) src dst color h' msg :
  valid h b = true ->
  move b src dst color h = (h', Ok (false, msg)) ->
  h `prefix_of` h' /\ deref h' b = deref h b /\
  (msg = "Out of bounds." \/ msg = "No piece of yours on source." \/
   msg = "Illegal move.")%string.
Proof.
  intros Hv E.
  assert (H : h `prefix_of` h' /\
    (msg = "Out of bounds." \/ msg = "No piece of yours on source." \/
     msg = "Illegal move.")%string).
  { revert E. unfold move, mbind at 1, lift at 1.
    destruct (algebraic_to_rc src) as [[r1 c1]|e]; [|done].
    unfold mbind at 1, lift at 1.
    destruct (algebraic_to_rc dst) as [[r2 c2]|e]; [|done].
    destruct (negb (in_bounds r1 c1) || negb (in_bounds r2 c2)).
    { intros [= <- <-]. auto. }
    unfold mbind at 1. rewrite getitem2_eq.
    destruct (getcell (deref h b) r1 c1) as [[[col typ]|]|e] eqn:Hp; [| |done].
    2:{ intros [= <- <-]. auto. }
    destruct (negb (color_eqb col color)).
    { intros [= <- <-]. auto. }
    destruct (legal_moves_from_refines b r1 c1 color h Hv) as (h1 & E1 & Hpre).
    unfold mbind at 1. rewrite E1.
    destruct (legal_moves_on (deref h b) r1 c1 color) as [ms|e]; [|done].
    destruct (negb (mem_square (r2, c2) ms)).
    { intros [= <- <-]. auto. }
    unfold mbind at 1. rewrite getitem2_eq.
    destruct (getcell (deref h1 b) r1 c1) as [piece|e]; [|done].
    unfold mbind at 1.
    destruct (setitem2 b r1 c1 None h1) as [h2 [[]|e]]; [|done].
    destruct piece as [[col' typ']|]; [|done].
    unfold mbind at 1.
    destruct ((if kind_eqb typ' Pawn && ((r2 =? 0) || (r2 =? 7))
               then setitem2 b r2 c2 (Some (color, Queen))
               else setitem2 b r2 c2 (Some (col', typ'))) h2) as [h3 [[]|e]];
      done. }
  destruct H as [Hpre Hmsg]. split; [done|]. split; [|done].
  by apply valid_prefix.
Qed.

(** A pawn never moves onto the row behind its start, so the test
    [r2 == 0 or r2 == 7] of [move] is a test for the far row. *)
Lemma placed_kind_far_row (g : Grid) r1 c1 r2 c2 color kind :
  in_bounds r1 c1 = true -> Cand g r1 c1 color kind (r2, c2) ->
  placed_kind kind r2 =
  if kind_eqb kind Pawn && (r2 =? far_row color) then Queen else kind.
Proof.
  intros [Hr Hc]%in_bounds_iff (_ & _ & _ & _ & Hrow). simpl in Hrow.
  unfold placed_kind. destruct kind; try done. specialize (Hrow eq_refl).
  simpl. destruct color; simpl.
  - replace (r2 =? 7) with false by lia. by rewrite orb_false_r.
  - by replace (r2 =? 0) with false by lia.
Qed.

(** C5. After an accepted move the source square is empty and the
    destination holds a queen of the mover's color when the piece was a pawn
    and the destination is on its far row (row 0 for white, row 7 for
    black), and the piece that moved in every other case. *)
Theorem promotion_on_far_row h (b : Board) src dst color h' msg :
  wf_board h b = true ->
  move b src dst color h = (h', Ok (true, msg)) ->
  exists r1 c1 r2 c2 kind,
    algebraic_to_rc src = Ok (r1, c1) /\ algebraic_to_rc dst = Ok (r2, c2) /\
    cell (deref h b) r1 c1 = Some (color, kind) /\
    cell (deref h' b) r1 c1 = None /\
    cell (deref h' b) r2 c2 =
      Some (color, if kind_eqb kind Pawn && (r2 =? far_row color)
                   then Queen else kind).
Proof.
  intros Hwf E.
  destruct (move_success h b src dst color h' msg Hwf E)
    as (_ & _ & r1 & c1 & r2 & c2 & kind & Ps & Pd & Hb1 & Hc & HC & _ & Hm).
  destruct Hm as [_ Hcells]. pose proof HC as (Hb2 & Hne & _). simpl in Hb2.
  exists r1, c1, r2, c2, kind. repeat split; try done.
  - rewrite Hcells by done.
    destruct ((r1 =? r2) && (c1 =? c2)) eqn:E12.
    + apply andb_true_iff in E12 as [->%Z.eqb_eq ->%Z.eqb_eq]. done.
    + by rewrite !Z.eqb_refl.
  - rewrite Hcells, !Z.eqb_refl by done. simpl.
    by rewrite (placed_kind_far_row _ r1 c1 r2 c2 color kind Hb1 HC).
Qed.

(** On coordinate text that algebraic_to_rc reads, [move] returns: it makes
    its three checks in the order bounds, own piece, legal destination, and
    accepts the move when all pass. *)
Lemma move_checks_in_order h (b : Board) src dst color r1 c1 r2 c2 :
  wf_board h b = true -> has_king (deref h b) color = true ->
  algebraic_to_rc src = Ok (r1, c1) -> algebraic_to_rc dst = Ok (r2, c2) ->
  snd (move b src dst color h) =
  (if negb (in_bounds r1 c1) || negb (in_bounds r2 c2)
   then Ok (false, "Out of bounds."%string)
   else match cell (deref h b) r1 c1 with
        | None => Ok (false, "No piece of yours on source."%string)
        | Some (col, _) =>
            if negb (color_eqb col color)
            then Ok (false, "No piece of yours on source."%string)
            else match legal_moves_on (deref h b) r1 c1 color with
                 | Ok ms => if negb (mem_square (r2, c2) ms)
                            then Ok (false, "Illegal move."%string)
                            else Ok (true, "OK"%string)
                 | Raise e => Raise e
                 end
        end) /\
  (in_bounds r1 c1 = true ->
   forall kind, cell (deref h b) r1 c1 = Some (color, kind) ->
   exists ms, legal_moves_on (deref h b) r1 c1 color = Ok ms).
Proof.
  intros (Hnd & Hv & Hg)%wf_board_iff Hk Ps Pd. split.
  - destruct (move_refines h b src dst color Hnd Hv) as (h' & E & _).
    rewrite E. simpl. unfold move_on. rewrite Ps, Pd.
    destruct (in_bounds r1 c1) eqn:Hb1; [|done].
    destruct (in_bounds r2 c2) eqn:Hb2; [|done]. simpl.
    rewrite getcell_wf by done.
    destruct (cell (deref h b) r1 c1) as [[col kind]|] eqn:Hc; [|done].
    destruct (color_eqb col color) eqn:Hcol; [|done]. simpl.
    apply color_eqb_eq in Hcol as ->.
    destruct (legal_moves_on_keeps _ r1 c1 color kind Hg Hb1 Hc) as [_ Ht].
    destruct (Ht Hk) as [ms ->].
    destruct (mem_square (r2, c2) ms); [|done]. simpl.
    destruct (move_on_writes (deref h b) r1 c1 r2 c2 color kind Hg Hb1 Hb2)
      as (g1 & g2 & E1 & E2 & _).
    rewrite E1.
    replace (if kind_eqb kind Pawn && ((r2 =? 0) || (r2 =? 7))
             then Some (color, Queen) else Some (color, kind))
      with (Some (color, placed_kind kind r2))
      by (unfold placed_kind; by destruct (kind_eqb kind Pawn && _)).
    by rewrite E2.
  - intros Hb1 kind Hc.
    destruct (legal_moves_on_keeps _ r1 c1 color kind Hg Hb1 Hc) as [_ Ht].
    by apply Ht.
Qed.

(** ** The game state evaluator *)

Lemma in_check_total (g : Grid) color :
  wf_grid g = true -> has_king g color = true ->
  exists chk, in_check g color = Ok chk.
Proof.
  intros Hg Hk. unfold in_check.
  destruct (has_king_find g color Hg Hk) as (kr & kc & ->). simpl.
  by apply is_square_attacked_total.
Qed.

(** C6, as the code has it.  On a well-formed board with a king of the
    color, in_check, all_legal_moves, is_checkmate and is_stalemate return,
    and: checkmate is check with no legal move and stalemate is no check
    with no legal move.  So is_checkmate and is_stalemate are never both
    true, is_stalemate and in_check are never both true, both are false
    when there is a legal move, and is_checkmate implies in_check (these two
    are not exclusive). *)
Theorem classification h (b : Board) color :
  wf_board h b = true -> has_king (deref h b) color = true ->
  exists chk ms mate stale h1 h2 h3,
    in_check (deref h b) color = Ok chk /\
    all_legal_moves b color h = (h1, Ok ms) /\
    is_checkmate b color h = (h2, Ok mate) /\
    is_stalemate b color h = (h3, Ok stale) /\
    mate = chk && Nat.eqb (length ms) 0 /\
    stale = negb chk && Nat.eqb (length ms) 0 /\
    (mate = true -> chk = true) /\
    (stale = true -> chk = false) /\
    ~ (mate = true /\ stale = true) /\
    (ms <> [] -> mate = false /\ stale = false).
Proof.
  intros (Hnd & Hv & Hg)%wf_board_iff Hk.
  destruct (in_check_total _ color Hg Hk) as [chk Hchk].
  destruct (all_legal_moves_on_total _ color Hg Hk) as [ms Hms].
  destruct (all_legal_moves_refines b color h Hv) as (h1 & E1 & _).
  destruct (is_checkmate_refines b color h Hv) as (h2 & E2 & _).
  destruct (is_stalemate_refines b color h Hv) as (h3 & E3 & _).
  unfold is_checkmate_on in E2. unfold is_stalemate_on in E3.
  rewrite Hms in E1. rewrite Hchk, Hms in E2, E3. simpl in E2, E3.
  exists chk, ms, (chk && Nat.eqb (length ms) 0),
    (negb chk && Nat.eqb (length ms) 0), h1, h2, h3.
  split; [done|]. split; [done|].
  split; [by destruct chk|]. split; [by destruct chk|].
  split; [done|]. split; [done|].
  destruct chk, ms; simpl; repeat split; try done; intros []; done.
Qed.

Lemma next_turn_enemy turn : next_turn turn = enemy_of turn.
Proof. by destruct turn. Qed.

Lemma enemy_of_involutive color : enemy_of (enemy_of color) = color.
Proof. by destruct color. Qed.

Lemma is_piece_true (p : Cell) color kind :
  is_piece p color kind = true <-> p = Some (color, kind).
Proof.
  destruct p as [[col k]|]; simpl; [|split; done].
  rewrite andb_true_iff, color_eqb_eq. split.
  - intros [-> H]. by destruct k, kind.
  - intros [= -> ->]. split; [done|]. by destruct kind.
Qed.

Lemma one_king_has_king (g : Grid) color :
  wf_grid g = true -> one_king g color -> has_king g color = true.
Proof.
  intros Hg (kr & kc & Hb & Hc & _). apply has_king_iff; [done|].
  exists kr, kc. split; [done|]. by apply is_piece_true.
Qed.

(** With one king and no check on it, no candidate move lands on it. *)
Lemma no_king_capture (g : Grid) r c color kind d :
  wf_grid g = true -> one_king g (enemy_of color) ->
  in_check g (enemy_of color) = Ok false ->
  Cand g r c color kind d ->
  cell g (fst d) (snd d) <> Some (enemy_of color, King).
Proof.
  destruct d as [tr tc]. simpl.
  intros Hg Hone Hchk (Hb & _ & _ & Hatt & _) Hd. simpl in *.
  rewrite Hd in Hatt. specialize (Hatt ltac:(done)).
  destruct Hone as (kr & kc & Hkb & Hkc & Huniq).
  destruct (Huniq _ _ Hb Hd) as [-> ->].
  unfold in_check in Hchk.
  destruct (find_king g (enemy_of color)) as [[[kr' kc']|]|e] eqn:Ek;
    simpl in Hchk; try done.
  destruct (find_king_Some g _ kr' kc' Hg Ek) as [Hb' Hp'].
  apply is_piece_true in Hp'. destruct (Huniq _ _ Hb' Hp') as [-> ->].
  rewrite enemy_of_involutive in Hchk. congruence.
Qed.

Lemma initial_board_spec (h0 : Heap) :
  initial_board h0 = (h0 ++ initial_grid, Ok (seq (length h0) 8)).
Proof.
  unfold initial_board, mbind, alloc, ret. simpl.
  unfold mbind, alloc, ret. rewrite !length_app. simpl.
  rewrite <- !app_assoc. simpl.
  rewrite !Nat.add_1_r. reflexivity.
Qed.

Lemma game_inv_start h0 h b :
  initial_board h0 = (h, Ok b) -> game_inv h b WHITE.
Proof.
  rewrite initial_board_spec. intros E.
  assert (Eh : h = h0 ++ initial_grid) by congruence.
  assert (Eb : b = seq (length h0) 8) by congruence.
  clear E. subst h b.
  assert (Hd : deref (h0 ++ initial_grid) (seq (length h0) 8) = initial_grid)
    by apply (deref_fresh h0 initial_grid).
  unfold game_inv. rewrite Hd. split; [|split; [|split]].
  - apply wf_board_iff. rewrite Hd. split; [apply NoDup_seq|]. split; [|done].
    unfold valid. apply forallb_forall. intros l Hl%list_elem_of_In%elem_of_seq.
    apply Nat.ltb_lt. rewrite length_app. simpl. lia.
  - exists 7, 4. split; [done|]. split; [done|].
    intros r c [Hr Hc]%in_bounds_iff.
    apply small_cases in Hr. apply small_cases in Hc.
    repeat (destruct Hr as [->|Hr]); repeat (destruct Hc as [->|Hc]); subst;
      vm_compute; (done || (intros [=])).
  - exists 0, 4. split; [done|]. split; [done|].
    intros r c [Hr Hc]%in_bounds_iff.
    apply small_cases in Hr. apply small_cases in Hc.
    repeat (destruct Hr as [->|Hr]); repeat (destruct Hc as [->|Hc]); subst;
      vm_compute; (done || (intros [=])).
  - by vm_compute.
Qed.

Lemma square_eqb_true r c r' c' :
  (r =? r') && (c =? c') = true <-> r = r' /\ c = c'.
Proof. rewrite andb_true_iff, !Z.eqb_eq. done. Qed.

Lemma square_eqb_false r c r' c' :
  (r =? r') && (c =? c') = false <-> (r, c) <> (r', c').
Proof.
  rewrite <- not_true_iff_false, square_eqb_true. split.
  - intros H [= -> ->]. by apply H.
  - intros H [-> ->]. by apply H.
Qed.

Section after_move.
Variables (g g' : Grid) (r1 c1 r2 c2 : Z) (color : Color) (kind : Kind).
Hypothesis Hg : wf_grid g = true.
Hypothesis Hb1 : in_bounds r1 c1 = true.
Hypothesis Hc : cell g r1 c1 = Some (color, kind).
Hypothesis HC : Cand g r1 c1 color kind (r2, c2).
Hypothesis Hm : moved g g' r1 c1 r2 c2 color kind.

Lemma one_king_enemy_after :
  cell g r2 c2 <> Some (enemy_of color, King) ->
  one_king g (enemy_of color) -> one_king g' (enemy_of color).
Proof using Hc Hm.
  intros Hnk (kr & kc & Hkb & Hkc & Huniq). destruct Hm as [_ Hcells].
  exists kr, kc. split; [done|]. split.
  - rewrite Hcells by done.
    destruct ((kr =? r2) && (kc =? c2)) eqn:E2.
    { apply square_eqb_true in E2 as [-> ->]. done. }
    destruct ((kr =? r1) && (kc =? c1)) eqn:E1; [|done].
    apply square_eqb_true in E1 as [-> ->].
    rewrite Hc in Hkc. injection Hkc as Hcol _.
    by destruct (enemy_of_ne color).
  - intros r c Hb. rewrite Hcells by done.
    destruct ((r =? r2) && (c =? c2)).
    { intros [= Hcol _]. by destruct (enemy_of_ne color). }
    destruct ((r =? r1) && (c =? c1)); [done|]. by apply Huniq.
Qed.

Lemma one_king_own_after : one_king g color -> one_king g' color.
Proof using Hb1 Hc HC Hm.
  intros (kr & kc & Hkb & Hkc & Huniq). destruct Hm as [_ Hcells].
  destruct HC as (Hb2 & Hne & Hno & _). simpl in Hb2, Hno.
  apply square_eqb_false in Hne.
  destruct ((kr =? r1) && (kc =? c1)) eqn:E1.
  - apply square_eqb_true in E1 as [-> ->].
    rewrite Hc in Hkc. injection Hkc as ->.
    exists r2, c2. split; [done|]. split.
    + rewrite Hcells by done. by rewrite !Z.eqb_refl.
    + intros r c Hb. rewrite Hcells by done.
      destruct ((r =? r2) && (c =? c2)) eqn:E2.
      { by apply square_eqb_true in E2. }
      destruct ((r =? r1) && (c =? c1)) eqn:E1'; [done|].
      intros Hk. destruct (Huniq r c Hb Hk) as [-> ->].
      by rewrite !Z.eqb_refl in E1'.
  - exists kr, kc. split; [done|]. split.
    + rewrite Hcells, E1 by done.
      destruct ((kr =? r2) && (kc =? c2)) eqn:E2; [|done].
      apply square_eqb_true in E2 as [-> ->]. by rewrite Hkc in Hno.
    + intros r c Hb. rewrite Hcells by done.
      destruct ((r =? r2) && (c =? c2)) eqn:E2.
      { intros [= Hk]. destruct kind; try done.
        - unfold placed_kind in Hk. simpl in Hk.
          by destruct ((r2 =? 0) || (r2 =? 7)).
        - destruct (Huniq r1 c1 Hb1 Hc) as [-> ->].
          by rewrite !Z.eqb_refl in E1. }
      destruct ((r =? r1) && (c =? c1)); [done|]. by apply Huniq.
Qed.
End after_move.

Lemma game_inv_move h (b : Board) turn src dst h' msg :
  game_inv h b turn ->
  move b src dst turn h = (h', Ok (true, msg)) ->
  game_inv h' b (next_turn turn).
Proof.
  intros (Hwf & HW & HB & Hchk) E.
  destruct (move_success h b src dst turn h' msg Hwf E)
    as (Hwf' & _ & r1 & c1 & r2 & c2 & kind & _ & _ & Hb1 & Hc & HC & Hs & Hm).
  pose proof Hwf as (_ & _ & Hg)%wf_board_iff.
  change (next_turn turn) with (enemy_of turn) in Hchk.
  assert (Hown : one_king (deref h b) turn) by (by destruct turn).
  assert (Hen : one_king (deref h b) (enemy_of turn)) by (by destruct turn).
  pose proof (no_king_capture _ r1 c1 turn kind (r2, c2) Hg Hen Hchk HC) as Hnk.
  simpl in Hnk.
  pose proof (one_king_own_after _ _ r1 c1 r2 c2 turn kind Hb1 Hc HC Hm Hown)
    as Hown'.
  pose proof (one_king_enemy_after _ _ r1 c1 r2 c2 turn kind Hc Hm Hnk Hen)
    as Hen'.
  split; [done|]. split; [by destruct turn|]. split; [by destruct turn|].
  replace (next_turn (next_turn turn)) with turn by (by destruct turn).
  by eapply king_safe_after.
Qed.

Lemma game_inv_query h (b : Board) turn h' :
  game_inv h b turn -> h `prefix_of` h' -> game_inv h' b turn.
Proof.
  intros (Hwf & HW & HB & Hchk) Hpre.
  apply wf_board_iff in Hwf as (Hnd & Hv & Hg).
  destruct (valid_prefix _ _ _ Hv Hpre) as [Hv' Hd].
  unfold game_inv. rewrite Hd. repeat split; try done.
  apply wf_board_iff. by rewrite Hd.
Qed.

Lemma reachable_game_inv h (b : Board) turn :
  reachable h b turn -> game_inv h b turn.
Proof.
  induction 1 as [h0 h b E|h b turn src dst h' msg _ IH E|h b turn h' _ IH Hpre].
  - by eapply game_inv_start.
  - by eapply game_inv_move.
  - by eapply game_inv_query.
Qed.

(** No legal move of [color] lands on the king of the other side, when
    that king is not in check. *)
Lemma legal_moves_spare_king h (b : Board) color :
  wf_board h b = true ->
  one_king (deref h b) WHITE -> one_king (deref h b) BLACK ->
  in_check (deref h b) (enemy_of color) = Ok false ->
  exists h1 ms,
    all_legal_moves b color h = (h1, Ok ms) /\
    forall src dst, (src, dst) ∈ ms ->
      cell (deref h b) (fst dst) (snd dst) <> Some (enemy_of color, King).
Proof.
  intros (Hnd & Hv & Hg)%wf_board_iff HW HB Hchk.
  assert (Hown : one_king (deref h b) color) by (by destruct color).
  assert (Hen : one_king (deref h b) (enemy_of color)) by (by destruct color).
  pose proof (one_king_has_king _ color Hg Hown) as Hk.
  destruct (all_legal_moves_refines b color h Hv) as (h1 & E & _).
  destruct (all_legal_moves_on_total _ color Hg Hk) as [ms Hms].
  rewrite Hms in E. exists h1, ms. split; [done|].
  intros src dst Hin.
  pose proof (all_legal_moves_on_sound _ color ms Hg Hms) as Hall.
  rewrite Forall_forall in Hall.
  destruct (Hall _ Hin) as (Hb1 & kind & ds & Hc & Hds & Hd). simpl in *.
  destruct (legal_moves_on_sound _ _ _ color kind ds Hg Hb1 Hc Hds _ Hd)
    as [HC _].
  by eapply no_king_capture.
Qed.

(** C7, as the code has it.  In every state the game can reach, each color
    has exactly one king and no legal move of the side to move has the
    enemy king's square as its destination; the same holds for the moves
    all_legal_moves lists for the side that has just moved whenever the
    side to move is not in check. *)
Theorem kings_are_never_captured h (b : Board) turn :
  reachable h b turn ->
  one_king (deref h b) WHITE /\ one_king (deref h b) BLACK /\
  (exists h1 ms,
     all_legal_moves b turn h = (h1, Ok ms) /\
     forall src dst, (src, dst) ∈ ms ->
       cell (deref h b) (fst dst) (snd dst) <> Some (enemy_of turn, King)) /\
  (in_check (deref h b) turn = Ok false ->
   exists h1 ms,
     all_legal_moves b (enemy_of turn) h = (h1, Ok ms) /\
     forall src dst, (src, dst) ∈ ms ->
       cell (deref h b) (fst dst) (snd dst) <> Some (turn, King)).
Proof.
  intros (Hwf & HW & HB & Hchk)%reachable_game_inv.
  change (next_turn turn) with (enemy_of turn) in Hchk.
  split; [done|]. split; [done|]. split.
  - by apply legal_moves_spare_king.
  - intros Hchk'.
    destruct (legal_moves_spare_king h b (enemy_of turn) Hwf HW HB) as (h1 & ms & E & H).
    { by rewrite enemy_of_involutive. }
    rewrite enemy_of_involutive in H. eauto.
Qed.

(** initial_board, run on an empty store, leaves the rows [initial_grid]
    and returns [start_board]. *)
Lemma initial_board_start : initial_board [] = (initial_grid, Ok start_board).
Proof. reflexivity. Qed.

(** C8. From the initial board the moves f2-f3, e7-e5, g2-g4 and d8-h4 are
    each accepted, and is_checkmate then returns True for white. *)
Theorem fools_mate_is_checkmate :
  snd (scenario_A []) =
  Ok ([(true, "OK"); (true, "OK"); (true, "OK"); (true, "OK")]%string, true).
Proof. vm_compute. reflexivity. Qed.

(** C3: [move] raises on coordinate text that algebraic_to_rc cannot read.
    On the initial board, move(board, "e", "e4", WHITE) raises IndexError
    (there is no s[1]), move(board, "ex", "e4", WHITE) raises ValueError
    (int("x")), and so does a bad destination; the board is not touched. *)
Theorem move_raises_on_malformed_text :
  move start_board "e" "e4" WHITE initial_grid = (initial_grid, Raise IndexError) /\
  move start_board "ex" "e4" WHITE initial_grid = (initial_grid, Raise ValueError) /\
  move start_board "e2" "" WHITE initial_grid = (initial_grid, Raise IndexError).
Proof. repeat split; vm_compute; reflexivity. Qed.

(** C4: legal_moves_from indexes the board before any bounds check.  On
    the initial board, legal_moves_from(board, 8, 0, WHITE) raises
    IndexError, and legal_moves_from(board, -1, 0, WHITE) reads the rook of
    row 7 through Python's negative index and returns a move for it. *)
Theorem legal_moves_from_out_of_range :
  snd (legal_moves_from start_board 8 0 WHITE initial_grid) = Raise IndexError /\
  snd (legal_moves_from start_board 0 8 WHITE initial_grid) = Raise IndexError /\
  snd (legal_moves_from start_board (-1) 0 WHITE initial_grid) = Ok [(0, 0)].
Proof. repeat split; vm_compute; reflexivity. Qed.

(** ** The rays end before the fuel does *)

Lemma ray_len_step rr cc dr dc :
  (dr, dc) ∈ diagonal_dirs ++ orthogonal_dirs ->
  in_bounds rr cc = true ->
  (ray_len (rr + dr) (cc + dc) dr dc < ray_len rr cc dr dc)%nat.
Proof.
  intros Hd Hb. unfold ray_len. rewrite Hb.
  destruct (in_bounds (rr + dr) (cc + dc)) eqn:Hb'.
  - apply in_bounds_iff in Hb, Hb'.
    unfold diagonal_dirs, orthogonal_dirs in Hd. simpl in Hd.
    rewrite !elem_of_cons, elem_of_nil in Hd.
    repeat (destruct Hd as [[= -> ->]|Hd]; [simpl; lia|]). done.
  - apply in_bounds_iff in Hb.
    unfold diagonal_dirs, orthogonal_dirs in Hd. simpl in Hd.
    rewrite !elem_of_cons, elem_of_nil in Hd.
    repeat (destruct Hd as [[= -> ->]|Hd]; [simpl; lia|]). done.
Qed.

Lemma ray_len_bound rr cc dr dc :
  (dr, dc) ∈ diagonal_dirs ++ orthogonal_dirs ->
  (ray_len rr cc dr dc <= ray_fuel)%nat.
Proof.
  intros Hd. unfold ray_len, ray_fuel.
  destruct (in_bounds rr cc) eqn:Hb; [|lia].
  apply in_bounds_iff in Hb.
  unfold diagonal_dirs, orthogonal_dirs in Hd. simpl in Hd.
  rewrite !elem_of_cons, elem_of_nil in Hd.
  repeat (destruct Hd as [[= -> ->]|Hd]; [simpl; lia|]). done.
Qed.

(** More fuel than the ray is long changes nothing: the loops of
    is_square_attacked are cut by in_bounds, not by the fuel. *)
Lemma ray_attacked_fuel (g : Grid) dr dc by_color kinds :
  (dr, dc) ∈ diagonal_dirs ++ orthogonal_dirs ->
  forall n rr cc,
    (ray_fuel <= n)%nat ->
    ray_attacked n g rr cc dr dc by_color kinds =
    ray_attacked ray_fuel g rr cc dr dc by_color kinds.
Proof.
  intros Hd.
  assert (H : forall n1 n2 rr cc,
    (ray_len rr cc dr dc <= n1)%nat -> (ray_len rr cc dr dc <= n2)%nat ->
    ray_attacked n1 g rr cc dr dc by_color kinds =
    ray_attacked n2 g rr cc dr dc by_color kinds).
  { induction n1 as [|n1 IH]; intros n2 rr cc H1 H2.
    - destruct n2 as [|n2]; simpl; [done|].
      destruct (in_bounds rr cc) eqn:Hb; [|done].
      pose proof (ray_len_step rr cc dr dc Hd Hb). lia.
    - destruct n2 as [|n2]; simpl.
      + destruct (in_bounds rr cc) eqn:Hb; [|done].
        pose proof (ray_len_step rr cc dr dc Hd Hb). lia.
      + destruct (in_bounds rr cc) eqn:Hb; [|done].
        pose proof (ray_len_step rr cc dr dc Hd Hb).
        destruct (getcell g rr cc) as [[[col k]|]|e]; simpl; try done.
        apply IH; lia. }
  intros n rr cc Hn. pose proof (ray_len_bound rr cc dr dc Hd).
  apply H; lia.
Qed.

(** The same for the loops of legal_moves_from. *)
Lemma slide_fuel (b : Board) r c color dr dc :
  (dr, dc) ∈ diagonal_dirs ++ orthogonal_dirs ->
  forall n rr cc moves h,
    (ray_fuel <= n)%nat ->
    slide n b r c color rr cc dr dc moves h =
    slide ray_fuel b r c color rr cc dr dc moves h.
Proof.
  intros Hd.
  assert (H : forall n1 n2 rr cc moves h,
    (ray_len rr cc dr dc <= n1)%nat -> (ray_len rr cc dr dc <= n2)%nat ->
    slide n1 b r c color rr cc dr dc moves h =
    slide n2 b r c color rr cc dr dc moves h).
  { induction n1 as [|n1 IH]; intros n2 rr cc moves h H1 H2.
    - destruct n2 as [|n2]; simpl; [done|].
      destruct (in_bounds rr cc) eqn:Hb; [|done].
      pose proof (ray_len_step rr cc dr dc Hd Hb). lia.
    - destruct n2 as [|n2]; simpl.
      + destruct (in_bounds rr cc) eqn:Hb; [|done].
        pose proof (ray_len_step rr cc dr dc Hd Hb). lia.
      + destruct (in_bounds rr cc) eqn:Hb; [|done].
        pose proof (ray_len_step rr cc dr dc Hd Hb).
        unfold mbind at 1 3.
        destruct (getitem2 b rr cc h) as [h1 [[[col k]|]|e]]; try done.
        unfold mbind.
        destruct (add_move b r c color rr cc moves h1) as [h2 [ms|e]]; [|done].
        apply IH; lia. }
  intros n rr cc moves h Hn. pose proof (ray_len_bound rr cc dr dc Hd).
  apply H; lia.
Qed.

(** ** Queries on squares without a piece of the mover *)

Lemma legal_moves_from_no_piece h (b : Board) r c color :
  wf_board h b = true -> in_bounds r c = true ->
  not_own (cell (deref h b) r c) color ->
  legal_moves_from b r c color h = (h, Ok []).
Proof.
  intros (_ & _ & Hg)%wf_board_iff Hb Hno.
  unfold legal_moves_from, mbind. rewrite getitem2_eq, getcell_wf by done.
  destruct (cell (deref h b) r c) as [[col k]|]; [|done].
  simpl in Hno. destruct (color_eqb col color) eqn:E; [|done].
  by apply color_eqb_eq in E.
Qed.

(** ** The theorems at concrete positions *)

Lemma legal_move_leaves_king_safe_witness :
  wf_board initial_grid start_board = true /\
  has_king (deref initial_grid start_board) WHITE = true /\
  exists h1 ms,
    all_legal_moves start_board WHITE initial_grid = (h1, Ok ms) /\
    forall r c rr cc, ((r, c), (rr, cc)) ∈ ms ->
      exists src dst h2,
        rc_to_algebraic r c = Ok src /\ rc_to_algebraic rr cc = Ok dst /\
        move start_board src dst WHITE h1 = (h2, Ok (true, "OK"%string)) /\
        in_check (deref h2 start_board) WHITE = Ok false.
Proof.
  split; [reflexivity|]. split; [reflexivity|].
  apply (legal_move_leaves_king_safe initial_grid start_board WHITE);
    reflexivity.
Defined.

(** C2, the claim as stated fails: after move(board, "e2", "e4", WHITE) on
    the initial board the call has returned (True, "OK"), not a board, and
    the board object it was given no longer holds the initial position: e2
    is empty and the pawn is on e4. *)
Lemma move_mutates_its_board :
  snd (move start_board "e2" "e4" WHITE initial_grid) = Ok (true, "OK"%string) /\
  cell (deref initial_grid start_board) 6 4 = Some (WHITE, Pawn) /\
  cell (deref (fst (move start_board "e2" "e4" WHITE initial_grid)) start_board) 6 4
    = None /\
  cell (deref (fst (move start_board "e2" "e4" WHITE initial_grid)) start_board) 4 4
    = Some (WHITE, Pawn) /\
  deref (fst (move start_board "e2" "e4" WHITE initial_grid)) start_board
    <> deref initial_grid start_board.
Proof.
  repeat split; try (vm_compute; reflexivity).
  vm_compute. intros [=].
Qed.

Lemma move_updates_board_in_place_witness :
  wf_board initial_grid start_board = true /\
  deref (fst (move start_board "e2" "e4" WHITE initial_grid)) start_board
    <> deref initial_grid start_board.
Proof.
  split; [reflexivity|].
  apply (move_updates_board_in_place initial_grid start_board "e2" "e4" WHITE
           (fst (move start_board "e2" "e4" WHITE initial_grid)) "OK");
    [reflexivity|vm_compute; reflexivity].
Defined.

Lemma promotion_on_far_row_witness :
  wf_board promotion_grid start_board = true /\
  exists r1 c1 r2 c2 kind,
    algebraic_to_rc "h7" = Ok (r1, c1) /\ algebraic_to_rc "h8" = Ok (r2, c2) /\
    cell (deref promotion_grid start_board) r1 c1 = Some (WHITE, kind) /\
    cell (deref (fst (move start_board "h7" "h8" WHITE promotion_grid)) start_board)
      r1 c1 = None /\
    cell (deref (fst (move start_board "h7" "h8" WHITE promotion_grid)) start_board)
      r2 c2 =
      Some (WHITE, if kind_eqb kind Pawn && (r2 =? far_row WHITE)
                   then Queen else kind).
Proof.
  split; [reflexivity|].
  apply (promotion_on_far_row promotion_grid start_board "h7" "h8" WHITE
           (fst (move start_board "h7" "h8" WHITE promotion_grid)) "OK");
    [reflexivity|vm_compute; reflexivity].
Defined.

(** C6, the claim as stated fails: on the board of scenario A, white to
    move, in_check and is_checkmate are both true. *)
Lemma check_and_checkmate_together :
  wf_board mate_store start_board = true /\
  has_king (deref mate_store start_board) WHITE = true /\
  in_check (deref mate_store start_board) WHITE = Ok true /\
  snd (is_checkmate start_board WHITE mate_store) = Ok true.
Proof. repeat split; vm_compute; reflexivity. Qed.

Lemma classification_witness :
  wf_board mate_store start_board = true /\
  has_king (deref mate_store start_board) WHITE = true /\
  exists chk ms mate stale h1 h2 h3,
    in_check (deref mate_store start_board) WHITE = Ok chk /\
    all_legal_moves start_board WHITE mate_store = (h1, Ok ms) /\
    is_checkmate start_board WHITE mate_store = (h2, Ok mate) /\
    is_stalemate start_board WHITE mate_store = (h3, Ok stale) /\
    mate = chk && Nat.eqb (length ms) 0 /\
    stale = negb chk && Nat.eqb (length ms) 0 /\
    (mate = true -> chk = true) /\
    (stale = true -> chk = false) /\
    ~ (mate = true /\ stale = true) /\
    (ms <> [] -> mate = false /\ stale = false).
Proof.
  split; [reflexivity|]. split; [reflexivity|].
  apply (classification mate_store start_board WHITE); reflexivity.
Defined.

Lemma rejected_move_leaves_board_witness :
  initial_grid `prefix_of` fst (move start_board "e2" "e5" WHITE initial_grid) /\
  deref (fst (move start_board "e2" "e5" WHITE initial_grid)) start_board
    = deref initial_grid start_board /\
  ("Illegal move." = "Out of bounds." \/
   "Illegal move." = "No piece of yours on source." \/
   "Illegal move." = "Illegal move.")%string.
Proof.
  apply (rejected_move_leaves_board initial_grid start_board "e2" "e5" WHITE);
    [reflexivity|vm_compute; reflexivity].
Defined.

Lemma check_store_reachable : reachable check_store start_board BLACK.
Proof.
  pose (h1 := fst (move start_board "e2" "e4" WHITE initial_grid)).
  pose (h2 := fst (move start_board "f7" "f5" BLACK h1)).
  apply (reach_move h2 start_board WHITE "d1" "h5" check_store "OK");
    [|vm_compute; reflexivity].
  apply (reach_move h1 start_board BLACK "f7" "f5" h2 "OK");
    [|vm_compute; reflexivity].
  apply (reach_move initial_grid start_board WHITE "e2" "e4" h1 "OK");
    [|vm_compute; reflexivity].
  apply (reach_start [] initial_grid start_board). reflexivity.
Qed.

(** C7, the claim as stated fails for the side that is not to move: after
    1. e4 f5 2. Qh5+ it is black's turn, black is in check, and the moves
    all_legal_moves lists for white include the queen from h5 to e8, the
    square of the black king. *)
Lemma king_capture_listed_for_checking_side :
  reachable check_store start_board BLACK /\
  cell (deref check_store start_board) 0 4 = Some (BLACK, King) /\
  exists ms,
    snd (all_legal_moves start_board WHITE check_store) = Ok ms /\
    ((3, 7), (0, 4)) ∈ ms.
Proof.
  split; [apply check_store_reachable|]. split; [reflexivity|].
  eexists. split; [vm_compute; reflexivity|].
  apply list_elem_of_In. vm_compute. tauto.
Qed.

Lemma kings_are_never_captured_witness :
  reachable check_store start_board BLACK /\
  one_king (deref check_store start_board) WHITE /\
  one_king (deref check_store start_board) BLACK /\
  (exists h1 ms,
     all_legal_moves start_board BLACK check_store = (h1, Ok ms) /\
     forall src dst, (src, dst) ∈ ms ->
       cell (deref check_store start_board) (fst dst) (snd dst)
       <> Some (enemy_of BLACK, King)) /\
  (in_check (deref check_store start_board) BLACK = Ok false ->
   exists h1 ms,
     all_legal_moves start_board (enemy_of BLACK) check_store = (h1, Ok ms) /\
     forall src dst, (src, dst) ∈ ms ->
       cell (deref check_store start_board) (fst dst) (snd dst)
       <> Some (BLACK, King)).
Proof.
  split; [apply check_store_reachable|].
  apply (kings_are_never_captured check_store start_board BLACK).
  apply check_store_reachable.
Defined.

(** * Further properties of the engine *)

(** ** legal_moves_from in two phases *)

Lemma keep_safe_app (g : Grid) r c color xs ys ms :
  keep_safe g r c color (xs ++ ys) ms =
  (ms' <- keep_safe g r c color xs ms ;; keep_safe g r c color ys ms')%R.
Proof. apply for_each_r_app. Qed.

Lemma keep_safe_flat_map {A} (g : Grid) r c color (sel : A -> list (Z * Z)) xs :
  forall ms,
    for_each_r xs (fun x ms => keep_safe g r c color (sel x) ms) ms =
    keep_safe g r c color (flat_map sel xs) ms.
Proof.
  induction xs as [|x xs IH]; intros ms; simpl; [done|].
  rewrite keep_safe_app.
  destruct (keep_safe g r c color (sel x) ms); simpl; [apply IH|done].
Qed.

Lemma for_each_r_ext {A S} (xs : list A) (f f' : A -> S -> result S) :
  (forall x s, x ∈ xs -> f x s = f' x s) ->
  forall s, for_each_r xs f s = for_each_r xs f' s.
Proof.
  induction xs as [|x xs IH]; intros H s; simpl; [done|].
  rewrite (H x s) by left. destruct (f' x s); simpl; [|done].
  apply IH. intros y t Hy. apply H. by right.
Qed.

Lemma keep_safe_one (g : Grid) r c color d ms :
  keep_safe g r c color [d] ms = add_move_on g r c color (fst d) (snd d) ms.
Proof.
  unfold keep_safe. simpl.
  by destruct (add_move_on g r c color (fst d) (snd d) ms).
Qed.

Lemma slide_on_keep_safe (g : Grid) r c color dr dc :
  wf_grid g = true ->
  forall fuel rr cc ms,
    slide_on fuel g r c color rr cc dr dc ms =
    keep_safe g r c color (ray_squares fuel g color rr cc dr dc) ms.
Proof.
  intros Hg. induction fuel as [|n IH]; intros rr cc ms; simpl; [done|].
  destruct (in_bounds rr cc) eqn:Hb; [|done].
  rewrite getcell_wf by done. simpl.
  destruct (cell g rr cc) as [[col k]|].
  - destruct (negb (color_eqb col color)); [|done].
    by rewrite keep_safe_one.
  - change ((rr, cc) :: ray_squares n g color (rr + dr) (cc + dc) dr dc)
      with ([(rr, cc)] ++ ray_squares n g color (rr + dr) (cc + dc) dr dc).
    rewrite keep_safe_app, keep_safe_one. simpl.
    destruct (add_move_on g r c color rr cc ms); simpl; [apply IH|done].
Qed.

Lemma step_keep_safe (g : Grid) r c color offsets ms :
  wf_grid g = true ->
  for_each_r offsets (fun '(dr, dc) moves =>
    (ok <- free_or_enemy_on g color (r + dr) (c + dc) ;;
     if ok : bool then add_move_on g r c color (r + dr) (c + dc) moves
     else Ok moves)%R) ms =
  keep_safe g r c color (step_squares g r c color offsets) ms.
Proof.
  intros Hg. unfold step_squares. rewrite <- keep_safe_flat_map.
  apply for_each_r_ext. intros [dr dc] s _. unfold free_or_enemy_on, free_for.
  destruct (in_bounds (r + dr) (c + dc)) eqn:Hb; simpl; [|done].
  rewrite getcell_wf by done. simpl.
  destruct (cell g (r + dr) (c + dc)) as [[col k]|]; simpl.
  - destruct (negb (color_eqb col color)); [|done]. by rewrite keep_safe_one.
  - by rewrite keep_safe_one.
Qed.

Lemma pawn_keep_safe (g : Grid) r c color ms :
  wf_grid g = true -> in_bounds r c = true ->
  pawn_moves_on g r c color ms =
  keep_safe g r c color (pawn_squares g r c color) ms.
Proof.
  intros Hg Hb. unfold pawn_moves_on, pawn_squares. cbv zeta.
  set (dir := match color with WHITE => -1 | BLACK => 1 end).
  set (start_row := match color with WHITE => 6 | BLACK => 1 end).
  set (caps := flat_map (fun dc =>
     if in_bounds (r + dir) (c + dc) && enemy_at g color (r + dir) (c + dc)
     then [(r + dir, c + dc)] else []) [-1; 1]).
  assert (Hcap : forall s,
    for_each_r [-1; 1] (fun dc moves =>
      (capture <- (if in_bounds (r + dir) (c + dc)
                   then p <- getcell g (r + dir) (c + dc) ;;
                        match p with
                        | Some (col, _) => Ok (negb (color_eqb col color))
                        | None => Ok false
                        end
                   else Ok false) ;;
       if capture : bool then add_move_on g r c color (r + dir) (c + dc) moves
       else Ok moves)%R) s =
    keep_safe g r c color caps s).
  { intros s. unfold caps. rewrite <- keep_safe_flat_map.
    apply for_each_r_ext. intros dc s' _. unfold enemy_at.
    destruct (in_bounds (r + dir) (c + dc)) eqn:Hb1; simpl; [|done].
    rewrite getcell_wf by done. simpl.
    destruct (cell g (r + dir) (c + dc)) as [[col k]|]; simpl; [|done].
    destruct (negb (color_eqb col color)); [|done]. by rewrite keep_safe_one. }
  destruct (in_bounds (r + dir) c) eqn:Hb1; simpl; [|apply Hcap].
  rewrite getcell_wf by done. simpl.
  destruct (bool_decide (cell g (r + dir) c = None)) eqn:Hc1; simpl; [|apply Hcap].
  destruct (r =? start_row) eqn:Hs; simpl.
  - assert (Hb2 : in_bounds (r + 2 * dir) c = true).
    { apply Z.eqb_eq in Hs. apply in_bounds_iff in Hb. apply in_bounds_iff.
      subst start_row dir. destruct color; lia. }
    rewrite getcell_wf by done. simpl.
    destruct (bool_decide (cell g (r + 2 * dir) c = None)); simpl.
    + unfold keep_safe at 1. simpl. fold (keep_safe g r c color caps).
      destruct (add_move_on g r c color (r + dir) c ms) as [ms1|e]; simpl; [|done].
      destruct (add_move_on g r c color (r + 2 * dir) c ms1); simpl; [apply Hcap|done].
    + unfold keep_safe at 1. simpl. fold (keep_safe g r c color caps).
      destruct (add_move_on g r c color (r + dir) c ms) as [ms1|e]; simpl; [apply Hcap|done].
  - unfold keep_safe at 1. simpl. fold (keep_safe g r c color caps).
    destruct (add_move_on g r c color (r + dir) c ms) as [ms1|e]; simpl; [apply Hcap|done].
Qed.

Lemma king_keep_safe (g : Grid) r c color ms :
  wf_grid g = true ->
  for_each_r [-1; 0; 1] (fun dr moves =>
    for_each_r [-1; 0; 1] (fun dc moves =>
      if (dr =? 0) && (dc =? 0) then Ok moves
      else (ok <- free_or_enemy_on g color (r + dr) (c + dc) ;;
            if ok : bool then add_move_on g r c color (r + dr) (c + dc) moves
            else Ok moves)%R) moves) ms =
  keep_safe g r c color (step_squares g r c color king_offsets) ms.
Proof.
  intros Hg.
  set (sel := fun dr dc : Z =>
    if (dr =? 0) && (dc =? 0) then []
    else if in_bounds (r + dr) (c + dc) && free_for g color (r + dr) (c + dc)
         then [(r + dr, c + dc)] else []).
  transitivity (keep_safe g r c color
                  (flat_map (fun dr => flat_map (sel dr) [-1; 0; 1]) [-1; 0; 1]) ms).
  - rewrite <- keep_safe_flat_map. apply for_each_r_ext. intros dr s _.
    rewrite <- keep_safe_flat_map. apply for_each_r_ext. intros dc s' _.
    unfold sel. destruct ((dr =? 0) && (dc =? 0)); [done|].
    unfold free_or_enemy_on, free_for.
    destruct (in_bounds (r + dr) (c + dc)) eqn:Hb; simpl; [|done].
    rewrite getcell_wf by done. simpl.
    destruct (cell g (r + dr) (c + dc)) as [[col k]|]; simpl.
    + destruct (negb (color_eqb col color)); [|done]. by rewrite keep_safe_one.
    + by rewrite keep_safe_one.
  - f_equal. unfold step_squares, king_offsets, sel. simpl.
    rewrite !app_nil_r, <- !app_assoc. reflexivity.
Qed.

(** legal_moves_from calls add_move for the squares of [pseudo_legal], in
    that order. *)
Lemma legal_moves_two_phase (g : Grid) r c color kind :
  wf_grid g = true -> in_bounds r c = true ->
  cell g r c = Some (color, kind) ->
  legal_moves_on g r c color =
  keep_safe g r c color (pseudo_legal g r c color kind) [].
Proof.
  intros Hg Hb Hc. unfold legal_moves_on.
  rewrite getcell_wf, Hc by done. cbn [rbind].
  rewrite color_eqb_refl. cbn [negb]. destruct kind; cbv zeta.
  - by apply pawn_keep_safe.
  - by apply step_keep_safe.
  - unfold pseudo_legal, slide_squares. rewrite <- keep_safe_flat_map.
    apply for_each_r_ext. intros [dr dc] s _. by apply slide_on_keep_safe.
  - unfold pseudo_legal, slide_squares. rewrite <- keep_safe_flat_map.
    apply for_each_r_ext. intros [dr dc] s _. by apply slide_on_keep_safe.
  - unfold pseudo_legal, slide_squares. rewrite <- keep_safe_flat_map.
    apply for_each_r_ext. intros [dr dc] s _. by apply slide_on_keep_safe.
  - by apply king_keep_safe.
Qed.

Lemma keep_safe_Ok (g : Grid) r c color ds :
  forall ms ms',
    keep_safe g r c color ds ms = Ok ms' ->
    ms' = ms ++ List.filter (safe_b g r c color) ds.
Proof.
  induction ds as [|d ds IH]; intros ms ms'; unfold keep_safe; simpl.
  - intros [= <-]. by rewrite app_nil_r.
  - unfold add_move_on at 1, safe_b at 1.
    destruct (safe g r c color (fst d) (snd d)) as [[|]|e]; simpl; [| |done].
    + intros E. apply IH in E. rewrite E, <- app_assoc. destruct d; done.
    + apply IH.
Qed.

(** ** The squares of a ray *)

Lemma ray_squares_elem (g : Grid) color r c dr dc :
  forall fuel (n : nat) d,
    d ∈ ray_squares fuel g color
          (r + Z.of_nat (S n) * dr) (c + Z.of_nat (S n) * dc) dr dc <->
    exists k : nat,
      (n < k <= n + fuel)%nat /\
      d = (r + Z.of_nat k * dr, c + Z.of_nat k * dc) /\
      (forall i : nat, (n < i < k)%nat ->
         in_bounds (r + Z.of_nat i * dr) (c + Z.of_nat i * dc) = true /\
         cell g (r + Z.of_nat i * dr) (c + Z.of_nat i * dc) = None) /\
      in_bounds (r + Z.of_nat k * dr) (c + Z.of_nat k * dc) = true /\
      free_for g color (r + Z.of_nat k * dr) (c + Z.of_nat k * dc) = true.
Proof.
  induction fuel as [|fuel IH]; intros n d.
  - simpl. split; [by intros ?%elem_of_nil|]. intros (k & Hk & _). lia.
  - cbn [ray_squares].
    remember (r + Z.of_nat (S n) * dr) as tr eqn:Etr.
    remember (c + Z.of_nat (S n) * dc) as tc eqn:Etc.
    assert (Enext : forall fuel',
      ray_squares fuel' g color (tr + dr) (tc + dc) dr dc =
      ray_squares fuel' g color (r + Z.of_nat (S (S n)) * dr)
        (c + Z.of_nat (S (S n)) * dc) dr dc).
    { intros fuel'. f_equal; lia. }
    destruct (in_bounds tr tc) eqn:Hb.
    + destruct (cell g tr tc) as [[col kd]|] eqn:Hc.
      * split.
        -- destruct (negb (color_eqb col color)) eqn:Hcol;
             [|by intros ?%elem_of_nil].
           intros ->%list_elem_of_singleton. exists (S n).
           split; [lia|]. split; [by subst|]. split; [intros i Hi; lia|].
           rewrite <- Etr, <- Etc. split; [done|].
           unfold free_for. by rewrite Hc.
        -- intros (k & Hk & -> & Hclear & Hbk & Hfree).
           destruct (decide (k = S n)) as [->|Hne].
           ++ rewrite <- Etr, <- Etc in *. unfold free_for in Hfree.
              rewrite Hc in Hfree. rewrite Hfree. by apply list_elem_of_singleton.
           ++ destruct (Hclear (S n)) as [_ Hnone]; [lia|].
              rewrite <- Etr, <- Etc in Hnone. congruence.
      * rewrite elem_of_cons, Enext, IH. split.
        -- intros [->|(k & Hk & -> & Hclear & Hbk & Hfree)].
           ++ exists (S n). split; [lia|]. split; [by subst|].
              split; [intros i Hi; lia|].
              rewrite <- Etr, <- Etc. split; [done|].
              unfold free_for. by rewrite Hc.
           ++ exists k. split; [lia|]. split; [done|]. split; [|done].
              intros i Hi. destruct (decide (i = S n)) as [->|Hne].
              ** by rewrite <- Etr, <- Etc.
              ** apply Hclear. lia.
        -- intros (k & Hk & -> & Hclear & Hbk & Hfree).
           destruct (decide (k = S n)) as [->|Hne]; [left; by subst|].
           right. exists k. split; [lia|]. split; [done|]. split; [|done].
           intros i Hi. apply Hclear. lia.
    + split; [by intros ?%elem_of_nil|].
      intros (k & Hk & -> & Hclear & Hbk & Hfree).
      destruct (decide (k = S n)) as [->|Hne].
      * rewrite <- Etr, <- Etc in Hbk. congruence.
      * destruct (Hclear (S n)) as [Hbn _]; [lia|].
        rewrite <- Etr, <- Etc in Hbn. congruence.
Qed.

Lemma elem_of_flat_map {A B} (f : A -> list B) (xs : list A) (y : B) :
  y ∈ flat_map f xs <-> exists x, x ∈ xs /\ y ∈ f x.
Proof.
  rewrite list_elem_of_In, in_flat_map. split.
  - intros (x & Hx & Hy). exists x. by rewrite !list_elem_of_In.
  - intros (x & Hx & Hy). exists x. by rewrite <- !list_elem_of_In.
Qed.

Lemma dir_cases dr dc :
  (dr, dc) ∈ diagonal_dirs ++ orthogonal_dirs ->
  (dr = 1 \/ dr = 0 \/ dr = -1) /\ (dc = 1 \/ dc = 0 \/ dc = -1) /\
  (dr <> 0 \/ dc <> 0).
Proof.
  unfold diagonal_dirs, orthogonal_dirs. simpl.
  rewrite !elem_of_cons, elem_of_nil. intros H.
  repeat (destruct H as [[= -> ->]|H]; [lia|]). done.
Qed.

(** The squares a slider is offered along its rays: on the board, reached
    over empty squares only, and empty or held by the enemy. *)
Lemma slide_squares_elem (g : Grid) r c color dirs d :
  in_bounds r c = true ->
  (forall x, x ∈ dirs -> x ∈ diagonal_dirs ++ orthogonal_dirs) ->
  d ∈ slide_squares g r c color dirs <->
  exists dr dc (k : nat),
    (dr, dc) ∈ dirs /\ (1 <= k)%nat /\
    d = (r + Z.of_nat k * dr, c + Z.of_nat k * dc) /\
    in_bounds (fst d) (snd d) = true /\
    (forall i : nat, (1 <= i < k)%nat ->
       cell g (r + Z.of_nat i * dr) (c + Z.of_nat i * dc) = None) /\
    free_for g color (fst d) (snd d) = true.
Proof.
  intros Hb Hdirs. unfold slide_squares. rewrite elem_of_flat_map. split.
  - intros ([dr dc] & Hd & Hin).
    replace (r + dr) with (r + Z.of_nat 1 * dr) in Hin by lia.
    replace (c + dc) with (c + Z.of_nat 1 * dc) in Hin by lia.
    apply (ray_squares_elem g color r c dr dc ray_fuel 0%nat) in Hin
      as (k & Hk & -> & Hclear & Hbk & Hfree).
    exists dr, dc, k. repeat split; try done; try lia.
    intros i Hi. apply Hclear. lia.
  - intros (dr & dc & k & Hd & Hk & -> & Hbk & Hclear & Hfree).
    cbn [fst snd] in *.
    exists (dr, dc). split; [done|].
    replace (r + dr) with (r + Z.of_nat 1 * dr) by lia.
    replace (c + dc) with (c + Z.of_nat 1 * dc) by lia.
    apply (ray_squares_elem g color r c dr dc ray_fuel 0%nat). exists k.
    pose proof (dir_cases dr dc (Hdirs _ Hd)) as (Hdr & Hdc & Hnz).
    apply in_bounds_iff in Hb. pose proof Hbk as Hbk'%in_bounds_iff.
    split; [unfold ray_fuel; lia|]. split; [done|]. split; [|done].
    intros i Hi. split; [|apply Hclear; lia].
    apply in_bounds_iff. lia.
Qed.


(** ** What legal_moves_from returns *)

Lemma legal_moves_on_filter (g : Grid) r c color kind ms :
  wf_grid g = true -> in_bounds r c = true ->
  cell g r c = Some (color, kind) ->
  legal_moves_on g r c color = Ok ms ->
  ms = List.filter (safe_b g r c color) (pseudo_legal g r c color kind).
Proof.
  intros Hg Hb Hc E.
  rewrite (legal_moves_two_phase g r c color kind Hg Hb Hc) in E.
  by apply keep_safe_Ok in E.
Qed.

Lemma safe_b_true (g : Grid) r c color d :
  safe_b g r c color d = true <-> safe g r c color (fst d) (snd d) = Ok true.
Proof.
  unfold safe_b. destruct (safe g r c color (fst d) (snd d)) as [[|]|e];
    split; congruence.
Qed.

Lemma legal_moves_from_elem h (b : Board) r c color kind h' ms :
  wf_board h b = true -> in_bounds r c = true ->
  cell (deref h b) r c = Some (color, kind) ->
  legal_moves_from b r c color h = (h', Ok ms) ->
  forall d, d ∈ ms <->
    d ∈ pseudo_legal (deref h b) r c color kind /\
    safe (deref h b) r c color (fst d) (snd d) = Ok true.
Proof.
  intros (Hnd & Hv & Hg)%wf_board_iff Hb Hc E d.
  destruct (legal_moves_from_refines b r c color h Hv) as (h1 & E1 & _).
  rewrite E in E1. injection E1 as _ E1. symmetry in E1.
  rewrite (legal_moves_on_filter _ r c color kind ms Hg Hb Hc E1).
  rewrite list_elem_of_In, filter_In, <- list_elem_of_In, safe_b_true. done.
Qed.

(** legal_moves_from works in two phases: on a well-formed board with a
    king of the mover it returns, for a piece of the mover, the squares of
    [pseudo_legal] that pass the test of add_move, in the order they are
    generated; the store only grows. *)
Theorem legal_moves_from_two_phases h (b : Board) r c color kind :
  wf_board h b = true -> has_king (deref h b) color = true ->
  in_bounds r c = true -> cell (deref h b) r c = Some (color, kind) ->
  exists h',
    legal_moves_from b r c color h =
      (h', Ok (List.filter (safe_b (deref h b) r c color)
                 (pseudo_legal (deref h b) r c color kind))) /\
    h `prefix_of` h'.
Proof.
  intros Hwf Hk Hb Hc. pose proof Hwf as (Hnd & Hv & Hg)%wf_board_iff.
  destruct (legal_moves_from_refines b r c color h Hv) as (h1 & E1 & Hpre).
  destruct (legal_moves_on_keeps _ r c color kind Hg Hb Hc) as [_ Ht].
  destruct (Ht Hk) as [ms Hms].
  rewrite Hms in E1.
  rewrite (legal_moves_on_filter _ r c color kind ms Hg Hb Hc Hms) in E1.
  eauto.
Qed.

(** A bishop, rook or queen moves along its rays only, over empty squares
    only, onto a square that is empty or holds an enemy piece, and
    legal_moves_from returns exactly those of these squares that pass the
    test of add_move: nothing beyond the first occupied square of a ray. *)
Theorem slider_moves h (b : Board) r c color kind h' ms :
  wf_board h b = true -> in_bounds r c = true ->
  cell (deref h b) r c = Some (color, kind) ->
  kind = Bishop \/ kind = Rook \/ kind = Queen ->
  legal_moves_from b r c color h = (h', Ok ms) ->
  forall d, d ∈ ms <->
    (exists dr dc (k : nat),
       (dr, dc) ∈ slider_dirs kind /\ (1 <= k)%nat /\
       d = (r + Z.of_nat k * dr, c + Z.of_nat k * dc) /\
       in_bounds (fst d) (snd d) = true /\
       (forall i : nat, (1 <= i < k)%nat ->
          cell (deref h b) (r + Z.of_nat i * dr) (c + Z.of_nat i * dc) = None) /\
       free_for (deref h b) color (fst d) (snd d) = true) /\
    safe (deref h b) r c color (fst d) (snd d) = Ok true.
Proof.
  intros Hwf Hb Hc Hk E d.
  rewrite (legal_moves_from_elem h b r c color kind h' ms Hwf Hb Hc E d).
  assert (Hps : pseudo_legal (deref h b) r c color kind =
                slide_squares (deref h b) r c color (slider_dirs kind)).
  { by destruct Hk as [-> | [-> | ->]]. }
  rewrite Hps, slide_squares_elem; [done|done|].
  intros x Hx. destruct Hk as [-> | [-> | ->]]; simpl in Hx.
  - apply elem_of_app. left. exact Hx.
  - apply elem_of_app. right. exact Hx.
  - exact Hx.
Qed.

Lemma enemy_at_true (g : Grid) color rr cc :
  enemy_at g color rr cc = true <->
  exists k, cell g rr cc = Some (enemy_of color, k).
Proof.
  unfold enemy_at. destruct (cell g rr cc) as [[col k]|]; split.
  - intros H. exists k. by destruct col, color.
  - intros (k' & [= -> ->]). by destruct color.
  - done.
  - by intros (k' & ?).
Qed.

Lemma step_squares_elem (g : Grid) r c color offsets d :
  d ∈ step_squares g r c color offsets <->
  exists dr dc,
    (dr, dc) ∈ offsets /\ d = (r + dr, c + dc) /\
    in_bounds (fst d) (snd d) = true /\
    free_for g color (fst d) (snd d) = true.
Proof.
  unfold step_squares. rewrite elem_of_flat_map. split.
  - intros ([dr dc] & Hd & Hin).
    destruct (in_bounds (r + dr) (c + dc) && free_for g color (r + dr) (c + dc))
      eqn:E; [|by apply elem_of_nil in Hin].
    apply list_elem_of_singleton in Hin as ->.
    apply andb_true_iff in E as [E1 E2]. exists dr, dc. done.
  - intros (dr & dc & Hd & -> & Hb & Hf). cbn [fst snd] in *.
    exists (dr, dc). split; [done|]. rewrite Hb, Hf. by apply list_elem_of_singleton.
Qed.

Lemma pawn_squares_elem (g : Grid) r c color d :
  in_bounds r c = true ->
  let dir := match color with WHITE => -1 | BLACK => 1 end in
  let start_row := match color with WHITE => 6 | BLACK => 1 end in
  d ∈ pawn_squares g r c color <->
  (d = (r + dir, c) /\ in_bounds (r + dir) c = true /\
   cell g (r + dir) c = None) \/
  (d = (r + 2 * dir, c) /\ r = start_row /\
   cell g (r + dir) c = None /\ cell g (r + 2 * dir) c = None) \/
  (exists dc, (dc = -1 \/ dc = 1) /\ d = (r + dir, c + dc) /\
     in_bounds (r + dir) (c + dc) = true /\
     exists k, cell g (r + dir) (c + dc) = Some (enemy_of color, k)).
Proof.
  intros Hb dir start_row. unfold pawn_squares. fold dir start_row.
  rewrite elem_of_app, elem_of_flat_map.
  assert (Hb1 : r = start_row -> in_bounds (r + dir) c = true).
  { intros ->. apply in_bounds_iff in Hb. apply in_bounds_iff.
    subst start_row dir. destruct color; lia. }
  split.
  - intros [H|(dc & Hdc & H)].
    + destruct (in_bounds (r + dir) c) eqn:E1; simpl in H;
        [|by apply elem_of_nil in H].
      destruct (bool_decide (cell g (r + dir) c = None)) eqn:E2;
        [|by apply elem_of_nil in H].
      apply bool_decide_eq_true in E2.
      apply elem_of_cons in H as [->|H]; [by left|].
      destruct ((r =? start_row) && bool_decide (cell g (r + 2 * dir) c = None))
        eqn:E3; [|by apply elem_of_nil in H].
      apply list_elem_of_singleton in H as ->.
      apply andb_true_iff in E3 as [E3 E4].
      apply Z.eqb_eq in E3. apply bool_decide_eq_true in E4. right. by left.
    + destruct (in_bounds (r + dir) (c + dc) && enemy_at g color (r + dir) (c + dc))
        eqn:E; [|by apply elem_of_nil in H].
      apply list_elem_of_singleton in H as ->.
      apply andb_true_iff in E as [E1 E2%enemy_at_true].
      right. right. exists dc. rewrite !elem_of_cons, elem_of_nil in Hdc.
      split; [tauto|]. done.
  - intros [(-> & E1 & E2)|[(-> & E3 & E2 & E4)|(dc & Hdc & -> & E1 & E2)]].
    + left. rewrite E1, E2. simpl. left.
    + left. rewrite (Hb1 E3), E2, E4. simpl.
      replace (r =? start_row) with true by (symmetry; by apply Z.eqb_eq).
      simpl. right. left.
    + right. exists dc. split; [rewrite !elem_of_cons; tauto|].
      apply enemy_at_true in E2. rewrite E1, E2. by apply list_elem_of_singleton.
Qed.

(** A pawn moves one row forward onto an empty square, two rows from its
    start row when both squares ahead are empty, or one row forward and one
    column aside onto an enemy piece; legal_moves_from returns exactly
    those of these squares that pass the test of add_move.  There is no
    other pawn move (no en passant, none backward). *)
Theorem pawn_moves_characterised h (b : Board) r c color h' ms :
  wf_board h b = true -> in_bounds r c = true ->
  cell (deref h b) r c = Some (color, Pawn) ->
  legal_moves_from b r c color h = (h', Ok ms) ->
  let dir := match color with WHITE => -1 | BLACK => 1 end in
  let start_row := match color with WHITE => 6 | BLACK => 1 end in
  forall d, d ∈ ms <->
    ((d = (r + dir, c) /\ in_bounds (r + dir) c = true /\
      cell (deref h b) (r + dir) c = None) \/
     (d = (r + 2 * dir, c) /\ r = start_row /\
      cell (deref h b) (r + dir) c = None /\
      cell (deref h b) (r + 2 * dir) c = None) \/
     (exists dc, (dc = -1 \/ dc = 1) /\ d = (r + dir, c + dc) /\
        in_bounds (r + dir) (c + dc) = true /\
        exists k, cell (deref h b) (r + dir) (c + dc) = Some (enemy_of color, k))) /\
    safe (deref h b) r c color (fst d) (snd d) = Ok true.
Proof.
  intros Hwf Hb Hc E dir start_row d.
  rewrite (legal_moves_from_elem h b r c color Pawn h' ms Hwf Hb Hc E d).
  cbn [pseudo_legal]. by rewrite (pawn_squares_elem _ r c color d Hb).
Qed.

(** A knight jumps by one of its eight offsets and a king steps to one of
    the eight neighbouring squares, onto a square of the board that is empty
    or holds an enemy piece; legal_moves_from returns exactly those of these
    squares that pass the test of add_move (the king never moves two
    squares: there is no castling). *)
Theorem knight_and_king_moves h (b : Board) r c color kind h' ms :
  wf_board h b = true -> in_bounds r c = true ->
  cell (deref h b) r c = Some (color, kind) ->
  kind = Knight \/ kind = King ->
  legal_moves_from b r c color h = (h', Ok ms) ->
  forall d, d ∈ ms <->
    (exists dr dc,
       (if kind_eqb kind Knight
        then (dr, dc) ∈ knight_offsets
        else -1 <= dr <= 1 /\ -1 <= dc <= 1 /\ (dr, dc) <> (0, 0)) /\
       d = (r + dr, c + dc) /\
       in_bounds (fst d) (snd d) = true /\
       free_for (deref h b) color (fst d) (snd d) = true) /\
    safe (deref h b) r c color (fst d) (snd d) = Ok true.
Proof.
  intros Hwf Hb Hc Hk E d.
  rewrite (legal_moves_from_elem h b r c color kind h' ms Hwf Hb Hc E d).
  destruct Hk as [-> | ->]; cbn [pseudo_legal kind_eqb];
    rewrite step_squares_elem; [done|].
  split; intros [(dr & dc & Hd & H) Hs]; (split; [|done]);
    exists dr, dc; (split; [|done]).
  - unfold king_offsets in Hd. rewrite !elem_of_cons, elem_of_nil in Hd.
    repeat (destruct Hd as [[= -> ->]|Hd]; [repeat split; (lia || done)|]). done.
  - destruct Hd as (Hdr & Hdc & Hne).
    assert (Hdr' : dr = -1 \/ dr = 0 \/ dr = 1) by lia.
    assert (Hdc' : dc = -1 \/ dc = 0 \/ dc = 1) by lia.
    unfold king_offsets. rewrite !elem_of_cons.
    destruct Hdr' as [-> | [-> | ->]], Hdc' as [-> | [-> | ->]];
      tauto.
Qed.


(** ** What is_square_attacked reports *)

Lemma or_else_true_inv x y : or_else x y = Ok true -> x = Ok true \/ y = Ok true.
Proof. destruct x as [[|]|e]; simpl; auto. Qed.

Lemma any_m_true_inv {A} (f : A -> result bool) xs :
  any_m f xs = Ok true -> exists x, x ∈ xs /\ f x = Ok true.
Proof.
  induction xs as [|x xs IH]; simpl; [done|].
  destruct (f x) as [[|]|e] eqn:E; simpl; [| |done].
  - intros _. exists x. split; [left|done].
  - intros H. destruct (IH H) as (y & Hy & Hf). exists y. split; [by right|done].
Qed.

Lemma piece_at_true_inv (g : Grid) rr cc by_color kind :
  wf_grid g = true -> piece_at g rr cc by_color kind = Ok true ->
  in_bounds rr cc = true /\ cell g rr cc = Some (by_color, kind).
Proof.
  intros Hg. rewrite piece_at_wf by done. intros [= H].
  apply andb_true_iff in H as [Hb Hp]. by apply is_piece_true in Hp.
Qed.

Lemma ray_attacked_true_inv (g : Grid) dr dc by_color kinds :
  wf_grid g = true ->
  forall fuel rr cc,
    ray_attacked fuel g rr cc dr dc by_color kinds = Ok true ->
    exists (k : nat) kd,
      (forall i : nat, (i < k)%nat ->
         in_bounds (rr + Z.of_nat i * dr) (cc + Z.of_nat i * dc) = true /\
         cell g (rr + Z.of_nat i * dr) (cc + Z.of_nat i * dc) = None) /\
      in_bounds (rr + Z.of_nat k * dr) (cc + Z.of_nat k * dc) = true /\
      cell g (rr + Z.of_nat k * dr) (cc + Z.of_nat k * dc) = Some (by_color, kd) /\
      kinds kd = true.
Proof.
  intros Hg. induction fuel as [|n IH]; intros rr cc; simpl; [done|].
  destruct (in_bounds rr cc) eqn:Hb; [|done].
  rewrite getcell_wf by done. simpl.
  destruct (cell g rr cc) as [[col kd]|] eqn:Hc.
  - intros [= H]. apply andb_true_iff in H as [->%color_eqb_eq Hk].
    exists 0%nat, kd. split; [intros i Hi; lia|].
    replace (rr + Z.of_nat 0 * dr) with rr by lia.
    replace (cc + Z.of_nat 0 * dc) with cc by lia. done.
  - intros H. destruct (IH _ _ H) as (k & kd & Hclear & Hbk & Hck & Hk).
    exists (S k), kd. split; [|split; [|split; [|done]]].
    + intros i Hi. destruct i as [|i].
      * replace (rr + Z.of_nat 0 * dr) with rr by lia.
        replace (cc + Z.of_nat 0 * dc) with cc by lia. done.
      * specialize (Hclear i ltac:(lia)).
        replace (rr + Z.of_nat (S i) * dr) with (rr + dr + Z.of_nat i * dr) by lia.
        by replace (cc + Z.of_nat (S i) * dc) with (cc + dc + Z.of_nat i * dc) by lia.
    + replace (rr + Z.of_nat (S k) * dr) with (rr + dr + Z.of_nat k * dr) by lia.
      by replace (cc + Z.of_nat (S k) * dc) with (cc + dc + Z.of_nat k * dc) by lia.
    + replace (rr + Z.of_nat (S k) * dr) with (rr + dr + Z.of_nat k * dr) by lia.
      by replace (cc + Z.of_nat (S k) * dc) with (cc + dc + Z.of_nat k * dc) by lia.
Qed.

Lemma ray_attack_found (g : Grid) r c dr dc by_color kinds :
  wf_grid g = true ->
  ray_attacked ray_fuel g (r + dr) (c + dc) dr dc by_color kinds = Ok true ->
  exists (k : nat) kd,
    (1 <= k)%nat /\
    in_bounds (r + Z.of_nat k * dr) (c + Z.of_nat k * dc) = true /\
    cell g (r + Z.of_nat k * dr) (c + Z.of_nat k * dc) = Some (by_color, kd) /\
    kinds kd = true /\
    forall i : nat, (1 <= i < k)%nat ->
      cell g (r + Z.of_nat i * dr) (c + Z.of_nat i * dc) = None.
Proof.
  intros Hg H.
  apply (ray_attacked_true_inv g dr dc by_color kinds Hg) in H
    as (k & kd & Hclear & Hbk & Hck & Hk).
  exists (S k), kd. split; [lia|].
  replace (r + Z.of_nat (S k) * dr) with (r + dr + Z.of_nat k * dr) by lia.
  replace (c + Z.of_nat (S k) * dc) with (c + dc + Z.of_nat k * dc) by lia.
  repeat split; try done.
  intros i Hi. destruct i as [|i]; [lia|].
  destruct (Hclear i) as [_ Hn]; [lia|].
  replace (r + Z.of_nat (S i) * dr) with (r + dr + Z.of_nat i * dr) by lia.
  by replace (c + Z.of_nat (S i) * dc) with (c + dc + Z.of_nat i * dc) by lia.
Qed.

Lemma knight_offsets_sym dr dc :
  (dr, dc) ∈ knight_offsets -> (- dr, - dc) ∈ knight_offsets.
Proof.
  unfold knight_offsets. rewrite !elem_of_cons, elem_of_nil. intros H.
  repeat (destruct H as [[= -> ->]|H]; [simpl; tauto|]). done.
Qed.

Lemma ray_reaches (g : Grid) r c r0 c0 dr dc (k : nat) by_color kd kinds :
  wf_grid g = true -> in_bounds r c = true -> in_bounds r0 c0 = true ->
  (dr, dc) ∈ diagonal_dirs ++ orthogonal_dirs ->
  (1 <= k)%nat -> r0 = r + Z.of_nat k * dr -> c0 = c + Z.of_nat k * dc ->
  (forall i : nat, (1 <= i < k)%nat ->
     cell g (r + Z.of_nat i * dr) (c + Z.of_nat i * dc) = None) ->
  cell g r0 c0 = Some (by_color, kd) -> kinds kd = true ->
  ray_attacked ray_fuel g (r + dr) (c + dc) dr dc by_color kinds = Ok true.
Proof.
  intros Hg Hb Hb0 Hd Hk -> -> Hclear Hc Hkd.
  pose proof (dir_cases dr dc Hd) as (Hdr & Hdc & Hnz).
  pose proof Hb as Hb'%in_bounds_iff. pose proof Hb0 as Hb0'%in_bounds_iff.
  apply (ray_attacked_reach g dr dc by_color kinds Hg (k - 1) ray_fuel _ _ kd).
  - unfold ray_fuel. lia.
  - intros i Hi.
    replace (r + dr + Z.of_nat i * dr) with (r + Z.of_nat (S i) * dr) by lia.
    replace (c + dc + Z.of_nat i * dc) with (c + Z.of_nat (S i) * dc) by lia.
    split; [apply in_bounds_iff; lia|apply Hclear; lia].
  - replace (r + dr + Z.of_nat (k - 1) * dr) with (r + Z.of_nat k * dr) by lia.
    by replace (c + dc + Z.of_nat (k - 1) * dc) with (c + Z.of_nat k * dc) by lia.
  - replace (r + dr + Z.of_nat (k - 1) * dr) with (r + Z.of_nat k * dr) by lia.
    by replace (c + dc + Z.of_nat (k - 1) * dc) with (c + Z.of_nat k * dc) by lia.
  - done.
Qed.

Lemma is_square_attacked_attacks (g : Grid) r c by_color :
  wf_grid g = true -> in_bounds r c = true ->
  is_square_attacked g r c by_color = Ok true <->
  exists r0 c0, in_bounds r0 c0 = true /\ attacks g by_color r0 c0 r c.
Proof.
  intros Hg Hb. split.
  - unfold is_square_attacked. intros H.
    apply or_else_true_inv in H as [H|H].
    { apply any_m_true_inv in H as (dc & Hdc & H).
      apply piece_at_true_inv in H as [Hb0 Hc]; [|done].
      rewrite !elem_of_cons, elem_of_nil in Hdc.
      eexists _, _. split; [exact Hb0|].
      apply attacks_pawn; [done|done|lia]. }
    apply or_else_true_inv in H as [H|H].
    { apply any_m_true_inv in H as ([dr dc] & Hd & H).
      apply piece_at_true_inv in H as [Hb0 Hc]; [|done].
      eexists _, _. split; [exact Hb0|].
      apply attacks_knight; [done|].
      by replace (r + dr - r) with dr by lia; replace (c + dc - c) with dc by lia. }
    apply or_else_true_inv in H as [H|H].
    { apply any_m_true_inv in H as ([dr dc] & Hd & H).
      apply ray_attack_found in H as (k & kd & Hk & Hb0 & Hc & Hkd & Hclear);
        [|done].
      eexists _, _. split; [exact Hb0|].
      apply (attacks_ray g by_color _ _ r c kd dr dc k); try done.
      left. split; [done|]. by destruct kd; auto. }
    apply or_else_true_inv in H as [H|H].
    { apply any_m_true_inv in H as ([dr dc] & Hd & H).
      apply ray_attack_found in H as (k & kd & Hk & Hb0 & Hc & Hkd & Hclear);
        [|done].
      eexists _, _. split; [exact Hb0|].
      apply (attacks_ray g by_color _ _ r c kd dr dc k); try done.
      right. split; [done|]. by destruct kd; auto. }
    apply or_else_true_inv in H as [H|H]; [|done].
    apply any_m_true_inv in H as (dr & Hdr & H).
    apply any_m_true_inv in H as (dc & Hdc & H).
    destruct ((dr =? 0) && (dc =? 0)) eqn:Hz; [done|].
    apply piece_at_true_inv in H as [Hb0 Hc]; [|done].
    rewrite !elem_of_cons, elem_of_nil in Hdr, Hdc.
    apply andb_false_iff in Hz.
    eexists _, _. split; [exact Hb0|].
    apply attacks_king; [done|lia|lia|]. intros [= ? ?]. lia.
  - intros (r0 & c0 & Hb0 & Hatt). destruct Hatt as
      [Hc Hr Hcol|Hc Hoff|Hc Hr Hcol Hne|kd dr dc k Hc Hkind Hk Hr Hcol Hclear].
    + pose proof (pawn_capture_attacks g r0 c0 by_color Hg Hb0 (c - c0) Hc
                    ltac:(lia)) as H.
      replace (r0 + match by_color with WHITE => -1 | BLACK => 1 end) with r in H
        by lia.
      by replace (c0 + (c - c0)) with c in H by lia.
    + apply knight_offsets_sym in Hoff.
      replace (- (r0 - r)) with (r - r0) in Hoff by lia.
      replace (- (c0 - c)) with (c - c0) in Hoff by lia.
      pose proof (knight_move_attacks g r0 c0 by_color Hg Hb0 _ _ Hc Hoff) as H.
      replace (r0 + (r - r0)) with r in H by lia.
      by replace (c0 + (c - c0)) with c in H by lia.
    + assert (Hz : (r - r0 =? 0) && (c - c0 =? 0) = false).
      { apply andb_false_iff.
        destruct (Z.eqb_spec (r - r0) 0) as [E1|E1]; [|by left].
        destruct (Z.eqb_spec (c - c0) 0) as [E2|E2]; [|by right].
        exfalso. apply Hne. f_equal; lia. }
      pose proof (king_move_attacks g r0 c0 by_color Hg Hb0 (r - r0) (c - c0) Hc
        ltac:(rewrite !elem_of_cons; lia) ltac:(rewrite !elem_of_cons; lia) Hz)
        as H.
      replace (r0 + (r - r0)) with r in H by lia.
      by replace (c0 + (c - c0)) with c in H by lia.
    + destruct Hkind as [[Hd Hkd]|[Hd Hkd]].
      * apply attacked_by_diagonal; [done|].
        apply (any_m_true _ _ (dr, dc)); [|done|].
        { intros [x y] _. by apply ray_attacked_total. }
        apply (ray_reaches g r c r0 c0 dr dc k by_color kd); try done.
        -- apply elem_of_app. by left.
        -- by destruct Hkd as [-> | ->].
      * apply attacked_by_orthogonal; [done|].
        apply (any_m_true _ _ (dr, dc)); [|done|].
        { intros [x y] _. by apply ray_attacked_total. }
        apply (ray_reaches g r c r0 c0 dr dc k by_color kd); try done.
        -- apply elem_of_app. by right.
        -- by destruct Hkd as [-> | ->].
Qed.

(** is_square_attacked returns True for a square of the board exactly when
    some piece of [by_color] on the board attacks it: a pawn diagonally
    ahead of itself, a knight, a neighbouring king, or a bishop, rook or
    queen with nothing between it and the square.  What stands on the
    square itself plays no part. *)
Theorem is_square_attacked_characterised (g : Grid) r c by_color :
  wf_grid g = true -> in_bounds r c = true ->
  is_square_attacked g r c by_color = Ok true <->
  exists r0 c0, in_bounds r0 c0 = true /\ attacks g by_color r0 c0 r c.
Proof. apply is_square_attacked_attacks. Qed.

Lemma dirs_sym dr dc (dirs : list (Z * Z)) :
  dirs = diagonal_dirs \/ dirs = orthogonal_dirs ->
  (dr, dc) ∈ dirs -> (- dr, - dc) ∈ dirs.
Proof.
  intros [-> | ->]; unfold diagonal_dirs, orthogonal_dirs;
    rewrite !elem_of_cons, elem_of_nil; intros H;
    repeat (destruct H as [[= -> ->]|H]; [simpl; tauto|]); done.
Qed.

Lemma slider_dirs_elem kd dr dc :
  (dr, dc) ∈ slider_dirs kd <->
  ((dr, dc) ∈ diagonal_dirs /\ (kd = Bishop \/ kd = Queen)) \/
  ((dr, dc) ∈ orthogonal_dirs /\ (kd = Rook \/ kd = Queen)).
Proof.
  unfold slider_dirs. rewrite elem_of_app.
  destruct kd; cbn [kind_eqb orb]; rewrite ?elem_of_nil;
    intuition (auto; discriminate).
Qed.

Lemma slider_pseudo_legal (g : Grid) r c color kd :
  kd = Bishop \/ kd = Rook \/ kd = Queen ->
  pseudo_legal g r c color kd = slide_squares g r c color (slider_dirs kd).
Proof. by intros [-> | [-> | ->]]. Qed.

Lemma slider_dirs_in kd x :
  x ∈ slider_dirs kd -> x ∈ diagonal_dirs ++ orthogonal_dirs.
Proof.
  destruct x as [dr dc]. rewrite slider_dirs_elem, elem_of_app. tauto.
Qed.

(** The detector and the generator agree on captures: a square of the
    board that holds an enemy piece is attacked by [color] exactly when it
    is among the squares legal_moves_from hands to add_move for some piece
    of [color]. *)
Theorem attack_iff_capture_candidate (g : Grid) r c color k :
  wf_grid g = true -> in_bounds r c = true ->
  cell g r c = Some (enemy_of color, k) ->
  is_square_attacked g r c color = Ok true <->
  exists r0 c0 kind,
    in_bounds r0 c0 = true /\ cell g r0 c0 = Some (color, kind) /\
    (r, c) ∈ pseudo_legal g r0 c0 color kind.
Proof.
  intros Hg Hb Hen.
  assert (Hfree : free_for g color r c = true).
  { unfold free_for. rewrite Hen. by destruct color. }
  rewrite (is_square_attacked_attacks g r c color Hg Hb). split.
  - intros (r0 & c0 & Hb0 & Hatt). exists r0, c0.
    destruct Hatt as
      [Hc Hr Hcol|Hc Hoff|Hc Hr Hcol Hne|kd dr dc n Hc Hkind Hn Hr Hcol Hclear].
    + exists Pawn. split; [done|]. split; [done|]. cbn [pseudo_legal].
      apply (pawn_squares_elem g r0 c0 color (r, c) Hb0). right. right.
      exists (c - c0). split; [lia|].
      replace (r0 + match color with WHITE => -1 | BLACK => 1 end) with r by lia.
      replace (c0 + (c - c0)) with c by lia. eauto.
    + exists Knight. split; [done|]. split; [done|]. cbn [pseudo_legal].
      apply step_squares_elem. exists (r - r0), (c - c0).
      apply knight_offsets_sym in Hoff.
      replace (- (r0 - r)) with (r - r0) in Hoff by lia.
      replace (- (c0 - c)) with (c - c0) in Hoff by lia.
      split; [done|]. split; [f_equal; lia|]. done.
    + exists King. split; [done|]. split; [done|]. cbn [pseudo_legal].
      apply step_squares_elem. exists (r - r0), (c - c0).
      split; [|split; [f_equal; lia|done]].
      assert (Hdr : r - r0 = -1 \/ r - r0 = 0 \/ r - r0 = 1) by lia.
      assert (Hdc : c - c0 = -1 \/ c - c0 = 0 \/ c - c0 = 1) by lia.
      assert (Hnz : ~ (r - r0 = 0 /\ c - c0 = 0)).
      { intros [E1 E2]. apply Hne. f_equal; lia. }
      unfold king_offsets. rewrite !elem_of_cons.
      generalize dependent (r - r0). generalize dependent (c - c0).
      intros y Hy x Hx Hnz.
      destruct Hx as [-> | [-> | ->]], Hy as [-> | [-> | ->]]; tauto.
    + exists kd. split; [done|]. split; [done|].
      assert (Hsl : kd = Bishop \/ kd = Rook \/ kd = Queen)
        by (destruct Hkind as [[_ [?|?]]|[_ [?|?]]]; auto).
      rewrite (slider_pseudo_legal g r0 c0 color kd Hsl).
      apply (slide_squares_elem g r0 c0 color (slider_dirs kd) (r, c) Hb0
               (slider_dirs_in kd)).
      exists (- dr), (- dc), n. split.
      { apply slider_dirs_elem.
        destruct Hkind as [[Hd Hkd]|[Hd Hkd]]; [left|right]; split; try done;
          apply dirs_sym; auto. }
      split; [done|]. split; [f_equal; lia|]. split; [done|]. split; [|done].
      intros i Hi. specialize (Hclear (n - i)%nat ltac:(lia)).
      replace (r0 + Z.of_nat i * - dr) with (r + Z.of_nat (n - i) * dr) by lia.
      by replace (c0 + Z.of_nat i * - dc) with (c + Z.of_nat (n - i) * dc) by lia.
  - intros (r0 & c0 & kind & Hb0 & Hc & Hin). exists r0, c0. split; [done|].
    destruct kind; cbn [pseudo_legal] in Hin.
    + apply (pawn_squares_elem g r0 c0 color (r, c) Hb0) in Hin
        as [(E & _ & Hn)|[(E & _ & _ & Hn)|(dc & Hdc & E & _ & _)]].
      * injection E as -> ->. congruence.
      * injection E as -> ->. congruence.
      * injection E as -> ->. apply attacks_pawn; [done|lia|lia].
    + apply step_squares_elem in Hin as (dr & dc & Hoff & E & _).
      injection E as -> ->. apply attacks_knight; [done|].
      apply knight_offsets_sym in Hoff.
      by replace (r0 - (r0 + dr)) with (- dr) by lia;
         replace (c0 - (c0 + dc)) with (- dc) by lia.
    + apply (slide_squares_elem g r0 c0 color diagonal_dirs (r, c) Hb0) in Hin
        as (dr & dc & n & Hd & Hn & E & _ & Hclear & _);
        [|intros x Hx; apply elem_of_app; by left].
      injection E as -> ->.
      apply (attacks_ray g color r0 c0 _ _ Bishop (- dr) (- dc) n); try done; try lia.
      * left. split; [apply dirs_sym; auto|auto].
      * intros i Hi. specialize (Hclear (n - i)%nat ltac:(lia)).
        replace (r0 + Z.of_nat n * dr + Z.of_nat i * - dr)
          with (r0 + Z.of_nat (n - i) * dr) by lia.
        by replace (c0 + Z.of_nat n * dc + Z.of_nat i * - dc)
          with (c0 + Z.of_nat (n - i) * dc) by lia.
    + apply (slide_squares_elem g r0 c0 color orthogonal_dirs (r, c) Hb0) in Hin
        as (dr & dc & n & Hd & Hn & E & _ & Hclear & _);
        [|intros x Hx; apply elem_of_app; by right].
      injection E as -> ->.
      apply (attacks_ray g color r0 c0 _ _ Rook (- dr) (- dc) n); try done; try lia.
      * right. split; [apply dirs_sym; auto|auto].
      * intros i Hi. specialize (Hclear (n - i)%nat ltac:(lia)).
        replace (r0 + Z.of_nat n * dr + Z.of_nat i * - dr)
          with (r0 + Z.of_nat (n - i) * dr) by lia.
        by replace (c0 + Z.of_nat n * dc + Z.of_nat i * - dc)
          with (c0 + Z.of_nat (n - i) * dc) by lia.
    + apply (slide_squares_elem g r0 c0 color _ (r, c) Hb0) in Hin
        as (dr & dc & n & Hd & Hn & E & _ & Hclear & _); [|done].
      injection E as -> ->.
      apply (attacks_ray g color r0 c0 _ _ Queen (- dr) (- dc) n); try done; try lia.
      * apply elem_of_app in Hd as [Hd|Hd]; [left|right];
          (split; [apply dirs_sym; auto|auto]).
      * intros i Hi. specialize (Hclear (n - i)%nat ltac:(lia)).
        replace (r0 + Z.of_nat n * dr + Z.of_nat i * - dr)
          with (r0 + Z.of_nat (n - i) * dr) by lia.
        by replace (c0 + Z.of_nat n * dc + Z.of_nat i * - dc)
          with (c0 + Z.of_nat (n - i) * dc) by lia.
    + apply step_squares_elem in Hin as (dr & dc & Hoff & E & _).
      injection E as -> ->.
      unfold king_offsets in Hoff. rewrite !elem_of_cons, elem_of_nil in Hoff.
      apply attacks_king; [done| | |];
        repeat (destruct Hoff as [[= -> ->]|Hoff]; [try lia; intros [= ? ?]; lia|]);
        done.
Qed.

(** ** all_legal_moves collects legal_moves_from *)

Lemma for_each_r_elem {A S E} (contrib : A -> E -> Prop) (mem : E -> S -> Prop)
    (xs : list A) (body : A -> S -> result S) :
  (forall x s s', x ∈ xs -> body x s = Ok s' ->
     forall e, mem e s' <-> mem e s \/ contrib x e) ->
  forall s s', for_each_r xs body s = Ok s' ->
    forall e, mem e s' <-> mem e s \/ exists x, x ∈ xs /\ contrib x e.
Proof.
  induction xs as [|x xs IH]; intros H s s' Hrun e; simpl in Hrun.
  - injection Hrun as <-. split; [auto|].
    intros [?|(x & Hx%elem_of_nil & _)]; done.
  - destruct (body x s) as [s1|err] eqn:E1; simpl in Hrun; [|done].
    rewrite (IH (fun y t t' Hy => H y t t' (list_elem_of_further _ _ _ Hy))
               s1 s' Hrun e).
    rewrite (H x s s1 (list_elem_of_here _ _) E1 e). split.
    + intros [[?|?]|(y & Hy & Hc)]; [by left| |].
      * right. exists x. split; [left|done].
      * right. exists y. split; [by right|done].
    + intros [?|(y & Hy & Hc)]; [by left; left|].
      apply elem_of_cons in Hy as [->|Hy]; [left; by right|].
      right. exists y. done.
Qed.

Lemma all_legal_row_elem (g : Grid) color r :
  wf_grid g = true -> 0 <= r < 8 ->
  forall s s',
    for_each_r range8 (fun c res =>
      (p <- getcell g r c ;;
       match p with
       | Some (col, _) =>
           if color_eqb col color then
             ms <- legal_moves_on g r c color ;;
             Ok (res ++ ((fun d => ((r, c), d)) <$> ms))
           else Ok res
       | None => Ok res
       end)%R) s = Ok s' ->
    forall e, e ∈ s' <->
      e ∈ s \/
      exists c, c ∈ range8 /\
        fst e = (r, c) /\
        (exists kind, cell g r c = Some (color, kind)) /\
        exists ds, legal_moves_on g r c color = Ok ds /\ snd e ∈ ds.
Proof.
  intros Hg Hr.
  apply (for_each_r_elem
    (fun c (e : (Z * Z) * (Z * Z)) =>
       fst e = (r, c) /\
       (exists kind, cell g r c = Some (color, kind)) /\
       exists ds, legal_moves_on g r c color = Ok ds /\ snd e ∈ ds)
    (fun e (s : list ((Z * Z) * (Z * Z))) => e ∈ s)).
  intros c s s' Hc%range8_iff Ecell e.
  assert (Hb : in_bounds r c = true) by (apply in_bounds_iff; lia).
  rewrite getcell_wf in Ecell by done. simpl in Ecell.
  destruct (cell g r c) as [[col kind]|] eqn:Hcell.
  - destruct (color_eqb col color) eqn:Hcol.
    + apply color_eqb_eq in Hcol as ->.
      destruct (legal_moves_on g r c color) as [ds|err]; simpl in Ecell; [|done].
      injection Ecell as <-. rewrite elem_of_app, list_elem_of_fmap. split.
      * intros [?|(y & -> & Hy)]; [by left|]. right. simpl. eauto 10.
      * intros [?|(He & _ & ds' & [= <-] & Hd)]; [by left|]. right.
        exists (snd e). split; [|done]. destruct e; simpl in *. by subst.
    + injection Ecell as <-. split; [auto|].
      intros [?|(_ & (kind' & [= -> _]) & _)]; [done|].
      by rewrite color_eqb_refl in Hcol.
  - injection Ecell as <-. split; [auto|].
    intros [?|(_ & (kind' & ?) & _)]; done.
Qed.

Lemma all_legal_moves_on_elem (g : Grid) color ms :
  wf_grid g = true ->
  all_legal_moves_on g color = Ok ms ->
  forall r c d, ((r, c), d) ∈ ms <->
    in_bounds r c = true /\
    (exists kind, cell g r c = Some (color, kind)) /\
    exists ds, legal_moves_on g r c color = Ok ds /\ d ∈ ds.
Proof.
  intros Hg E r c d. unfold all_legal_moves_on in E.
  apply (for_each_r_elem
    (fun r' (e : (Z * Z) * (Z * Z)) =>
       exists c', c' ∈ range8 /\
         fst e = (r', c') /\
         (exists kind, cell g r' c' = Some (color, kind)) /\
         exists ds, legal_moves_on g r' c' color = Ok ds /\ snd e ∈ ds)
    (fun e (s : list ((Z * Z) * (Z * Z))) => e ∈ s)) with (e := ((r, c), d)) in E.
  - rewrite E. split.
    + intros [H%elem_of_nil|(r' & Hr & c' & Hc & Heq & Hk & Hds)]; [done|].
      simpl in Heq, Hds. injection Heq as <- <-.
      apply range8_iff in Hr, Hc. split; [apply in_bounds_iff; lia|done].
    + intros (Hb & Hk & Hds). right. apply in_bounds_iff in Hb as [Hr Hc].
      exists r. split; [by apply range8_iff|]. exists c.
      split; [by apply range8_iff|]. done.
  - intros r' s s' Hr%range8_iff Einner e.
    by apply (all_legal_row_elem g color r' Hg Hr s s').
Qed.

(** all_legal_moves returns the moves of legal_moves_from for every square
    of the board that holds a piece of [color], each paired with its
    source, and nothing else. *)
Theorem all_legal_moves_characterised h (b : Board) color h' ms :
  wf_board h b = true ->
  all_legal_moves b color h = (h', Ok ms) ->
  forall r c d, ((r, c), d) ∈ ms <->
    in_bounds r c = true /\
    (exists kind, cell (deref h b) r c = Some (color, kind)) /\
    exists h1 ds, legal_moves_from b r c color h = (h1, Ok ds) /\ d ∈ ds.
Proof.
  intros (Hnd & Hv & Hg)%wf_board_iff E r c d.
  destruct (all_legal_moves_refines b color h Hv) as (h1 & E1 & _).
  rewrite E in E1. injection E1 as _ E1. symmetry in E1.
  rewrite (all_legal_moves_on_elem _ color ms Hg E1 r c d).
  destruct (legal_moves_from_refines b r c color h Hv) as (h2 & E2 & _).
  split; intros (Hb & Hk & H); (split; [done|]; split; [done|]).
  - destruct H as (ds & Hds & Hd). exists h2, ds. by rewrite E2, Hds.
  - destruct H as (h3 & ds & Hds & Hd). exists ds. split; [|done].
    rewrite Hds in E2. by injection E2 as _ <-.
Qed.

(** ** Queries leave the store as it was *)

Lemma refines_frame {A} (b : Board) (m : M A) p h :
  refines b m p -> valid h b = true ->
  h `prefix_of` fst (m h) /\ deref (fst (m h)) b = deref h b /\
  snd (m h) = p (deref h b).
Proof.
  intros Hm Hv. destruct (Hm h Hv) as (h' & E & Hpre). rewrite E. simpl.
  split; [done|]. split; [|done]. by apply valid_prefix.
Qed.

(** The queries are functions of the content of the board: run on any two
    boards that hold the same grid, in any two stores, legal_moves_from,
    all_legal_moves, is_checkmate and is_stalemate give the same answer (or
    raise the same exception), and each leaves every row that was in the
    store as it was. *)
Theorem queries_read_only h (b : Board) h2 (b2 : Board) r c color :
  valid h b = true -> valid h2 b2 = true -> deref h2 b2 = deref h b ->
  (h `prefix_of` fst (legal_moves_from b r c color h) /\
   snd (legal_moves_from b2 r c color h2) = snd (legal_moves_from b r c color h)) /\
  (h `prefix_of` fst (all_legal_moves b color h) /\
   snd (all_legal_moves b2 color h2) = snd (all_legal_moves b color h)) /\
  (h `prefix_of` fst (is_checkmate b color h) /\
   snd (is_checkmate b2 color h2) = snd (is_checkmate b color h)) /\
  (h `prefix_of` fst (is_stalemate b color h) /\
   snd (is_stalemate b2 color h2) = snd (is_stalemate b color h)).
Proof.
  intros Hv Hv2 Hd.
  destruct (refines_frame b _ _ h (legal_moves_from_refines b r c color) Hv)
    as (P1 & _ & R1).
  destruct (refines_frame b2 _ _ h2 (legal_moves_from_refines b2 r c color) Hv2)
    as (_ & _ & R1').
  destruct (refines_frame b _ _ h (all_legal_moves_refines b color) Hv)
    as (P2 & _ & R2).
  destruct (refines_frame b2 _ _ h2 (all_legal_moves_refines b2 color) Hv2)
    as (_ & _ & R2').
  destruct (refines_frame b _ _ h (is_checkmate_refines b color) Hv)
    as (P3 & _ & R3).
  destruct (refines_frame b2 _ _ h2 (is_checkmate_refines b2 color) Hv2)
    as (_ & _ & R3').
  destruct (refines_frame b _ _ h (is_stalemate_refines b color) Hv)
    as (P4 & _ & R4).
  destruct (refines_frame b2 _ _ h2 (is_stalemate_refines b2 color) Hv2)
    as (_ & _ & R4').
  rewrite R1, R1', R2, R2', R3, R3', R4, R4', Hd. done.
Qed.

(** ** copy_board *)

Lemma setitem2_frame (b : Board) r c v h h' res :
  setitem2 b r c v h = (h', res) ->
  length h' = length h /\ forall l, l ∉ b -> h' !! l = h !! l.
Proof.
  unfold setitem2, mbind, lift, load, store.
  destruct (py_index b r) as [l|e] eqn:El; [|by intros [= <- <-]].
  destruct (py_setitem (h !!! l) c v) as [row'|e]; [|by intros [= <- <-]].
  intros [= <- <-]. split; [apply length_insert|].
  intros l' Hl'. apply list_lookup_insert_ne. intros ->.
  apply py_index_Ok in El as (j & _ & Hj).
  apply Hl', list_elem_of_lookup. eauto.
Qed.

Lemma deref_agree h h' (b : Board) :
  (forall l, l ∈ b -> h' !! l = h !! l) -> deref h' b = deref h b.
Proof.
  intros H. unfold deref. apply list_eq. intros j. rewrite !list_lookup_fmap.
  destruct (b !! j) as [l|] eqn:E; simpl; [|done]. f_equal.
  rewrite !list_lookup_total_alt, H; [done|].
  apply list_elem_of_lookup. eauto.
Qed.

(** copy_board returns a board of fresh rows with the content of the
    original: no row is shared, so a write to either board leaves the
    other as it was. *)
Theorem copy_board_independent h (b : Board) :
  valid h b = true ->
  exists h1 b2,
    copy_board b h = (h1, Ok b2) /\ h `prefix_of` h1 /\
    valid h1 b2 = true /\ NoDup b2 /\
    deref h1 b2 = deref h b /\ deref h1 b = deref h b /\
    (forall l, l ∈ b2 -> l ∉ b) /\
    (forall r c v h2 res, setitem2 b2 r c v h1 = (h2, res) ->
       deref h2 b = deref h b) /\
    (forall r c v h2 res, setitem2 b r c v h1 = (h2, res) ->
       deref h2 b2 = deref h b).
Proof.
  intros Hv. rewrite (copy_board_spec b h Hv).
  assert (Hlen : length b = length (deref h b))
    by (unfold deref; by rewrite length_fmap).
  assert (Hpre : h `prefix_of` h ++ deref h b) by (by eexists).
  destruct (valid_prefix _ _ _ Hv Hpre) as [Hv1 Hd1].
  assert (Hfresh : forall l, l ∈ seq (length h) (length b) -> l ∉ b).
  { intros l Hl%elem_of_seq Hin. apply list_elem_of_lookup in Hin as [j Hj].
    pose proof (valid_lookup _ _ _ _ Hv Hj). lia. }
  assert (Hd2 : deref (h ++ deref h b) (seq (length h) (length b)) = deref h b).
  { rewrite Hlen. apply deref_fresh. }
  eexists _, _. split; [done|]. split; [done|]. split.
  { unfold valid. apply forallb_forall. intros l Hl%list_elem_of_In%elem_of_seq.
    apply Nat.ltb_lt. rewrite length_app. lia. }
  split; [apply NoDup_seq|]. split; [done|]. split; [done|]. split; [done|].
  split.
  - intros r c v h2 res E. rewrite <- Hd1.
    apply setitem2_frame in E as [_ Hfr]. apply deref_agree.
    intros l Hl. apply Hfr. intros Hin. by apply (Hfresh l).
  - intros r c v h2 res E. rewrite <- Hd2.
    apply setitem2_frame in E as [_ Hfr]. apply deref_agree.
    intros l Hl. apply Hfr. by apply Hfresh.
Qed.

(** ** find_king and in_check *)

Lemma find_first_first {A B} (f : A -> result (option B)) xs b :
  find_first f xs = Ok (Some b) ->
  exists pre x post,
    xs = pre ++ x :: post /\ f x = Ok (Some b) /\
    forall y, y ∈ pre -> f y = Ok None.
Proof.
  induction xs as [|x xs IH]; simpl; [done|].
  destruct (f x) as [[b'|]|e] eqn:E; simpl; [| |done].
  - intros [= ->]. exists [], x, xs. split; [done|]. split; [done|].
    intros y Hy. by apply elem_of_nil in Hy.
  - intros H. destruct (IH H) as (pre & y & post & -> & Hy & Hpre).
    exists (x :: pre), y, post. split; [done|]. split; [done|].
    intros z [->|Hz]%elem_of_cons; auto.
Qed.

Lemma range8_before pre x post y :
  range8 = pre ++ x :: post -> 0 <= y < x -> y ∈ pre.
Proof.
  intros E Hy.
  assert (Hx : x ∈ range8) by (rewrite E, elem_of_app, elem_of_cons; auto).
  apply range8_iff in Hx.
  assert (Hyin : y ∈ range8) by (apply range8_iff; lia).
  unfold range8 in E.
  destruct pre as [|p0 pre]; simpl in E; injection E as <- E; [lia|].
  destruct pre as [|p1 pre]; simpl in E; injection E as <- E;
    [rewrite !elem_of_cons; lia|].
  destruct pre as [|p2 pre]; simpl in E; injection E as <- E;
    [rewrite !elem_of_cons; lia|].
  destruct pre as [|p3 pre]; simpl in E; injection E as <- E;
    [rewrite !elem_of_cons; lia|].
  destruct pre as [|p4 pre]; simpl in E; injection E as <- E;
    [rewrite !elem_of_cons; lia|].
  destruct pre as [|p5 pre]; simpl in E; injection E as <- E;
    [rewrite !elem_of_cons; lia|].
  destruct pre as [|p6 pre]; simpl in E; injection E as <- E;
    [rewrite !elem_of_cons; lia|].
  destruct pre as [|p7 pre]; simpl in E; [|by destruct pre].
  injection E as <- E. rewrite !elem_of_cons. lia.
Qed.

(** find_king returns the first king of the color in reading order (row by
    row from rank 8, each row from file a), and None exactly when the board
    holds none; it never raises on a well-formed board. *)
Theorem find_king_first (g : Grid) color :
  wf_grid g = true ->
  (exists kr kc,
     find_king g color = Ok (Some (kr, kc)) /\
     in_bounds kr kc = true /\ cell g kr kc = Some (color, King) /\
     forall r c, in_bounds r c = true ->
       r < kr \/ (r = kr /\ c < kc) ->
       cell g r c <> Some (color, King)) \/
  (find_king g color = Ok None /\
   forall r c, in_bounds r c = true -> cell g r c <> Some (color, King)).
Proof.
  intros Hg.
  destruct (find_king_total g color Hg) as [[[kr kc]|] E].
  - left. exists kr, kc. split; [done|].
    destruct (find_king_Some g color kr kc Hg E) as [Hb Hp].
    apply is_piece_true in Hp. split; [done|]. split; [done|].
    unfold find_king in E.
    apply find_first_first in E as (pre & r0 & post & Er & E & Hpre).
    apply find_first_first in E as (pre' & c0 & post' & Ec & E & Hpre').
    assert (Hr0 : r0 ∈ range8) by (rewrite Er, elem_of_app, elem_of_cons; auto).
    assert (Hc0 : c0 ∈ range8) by (rewrite Ec, elem_of_app, elem_of_cons; auto).
    apply range8_iff in Hr0, Hc0.
    rewrite getcell_wf in E by (done || apply in_bounds_iff; lia).
    simpl in E. destruct (is_piece (cell g r0 c0) color King); [|done].
    injection E as <- <-.
    intros r c [Hr Hc]%in_bounds_iff Hlt Hk.
    assert (Hbrc : in_bounds r c = true) by (apply in_bounds_iff; lia).
    destruct Hlt as [Hlt|[-> Hlt]].
    + pose proof (Hpre r (range8_before _ _ _ r Er ltac:(lia))) as Hrow.
      pose proof (find_first_None _ _ Hrow c (proj2 (range8_iff c) Hc)) as Hcell.
      cbv beta in Hcell. rewrite getcell_wf, Hk in Hcell by done.
      simpl in Hcell. by rewrite color_eqb_refl in Hcell.
    + pose proof (Hpre' c (range8_before _ _ _ c Ec ltac:(lia))) as Hcell.
      cbv beta in Hcell. rewrite getcell_wf, Hk in Hcell by done.
      simpl in Hcell. by rewrite color_eqb_refl in Hcell.
  - right. split; [done|]. intros r c Hb Hk.
    pose proof (find_king_None g color r c Hg E Hb) as Hp.
    rewrite Hk in Hp. simpl in Hp. by rewrite color_eqb_refl in Hp.
Qed.

(** in_check raises TypeError exactly on the boards without a king of the
    color (it unpacks the None of find_king); with a king it returns whether
    the enemy attacks the square find_king found. *)
Theorem in_check_needs_king (g : Grid) color :
  wf_grid g = true ->
  (has_king g color = false -> in_check g color = Raise TypeError) /\
  (has_king g color = true ->
   exists kr kc chk,
     find_king g color = Ok (Some (kr, kc)) /\
     is_square_attacked g kr kc (enemy_of color) = Ok chk /\
     in_check g color = Ok chk).
Proof.
  intros Hg. split.
  - intros Hk. unfold in_check.
    destruct (find_king_total g color Hg) as [[[kr kc]|] E]; rewrite E; [|done].
    destruct (find_king_Some g color kr kc Hg E) as [Hb Hp].
    assert (has_king g color = true); [|congruence].
    apply has_king_iff; eauto.
  - intros Hk. destruct (has_king_find g color Hg Hk) as (kr & kc & E).
    destruct (is_square_attacked_total g kr kc (enemy_of color) Hg) as [chk Ha].
    exists kr, kc, chk. split; [done|]. split; [done|].
    unfold in_check. rewrite E. done.
Qed.

(** ** move and the move generator *)

(** move accepts exactly the destinations legal_moves_from lists for the
    source square: with both squares read from the text and the source on
    the board, the call returns (True, "OK") when the destination is in the
    list, and a failure with one of the three messages when it is not. *)
Theorem move_accepts_listed_moves h (b : Board) src dst color r1 c1 r2 c2 :
  wf_board h b = true -> has_king (deref h b) color = true ->
  algebraic_to_rc src = Ok (r1, c1) -> algebraic_to_rc dst = Ok (r2, c2) ->
  in_bounds r1 c1 = true ->
  exists ms,
    snd (legal_moves_from b r1 c1 color h) = Ok ms /\
    ((r2, c2) ∈ ms -> snd (move b src dst color h) = Ok (true, "OK"%string)) /\
    ((r2, c2) ∉ ms ->
     exists msg, snd (move b src dst color h) = Ok (false, msg) /\
       (msg = "Out of bounds." \/ msg = "No piece of yours on source." \/
        msg = "Illegal move.")%string).
Proof.
  intros Hwf Hk Ps Pd Hb1.
  pose proof Hwf as (Hnd & Hv & Hg)%wf_board_iff.
  destruct (move_checks_in_order h b src dst color r1 c1 r2 c2 Hwf Hk Ps Pd)
    as [Hm Htot].
  destruct (legal_moves_from_refines b r1 c1 color h Hv) as (h1 & E1 & _).
  rewrite Hm, E1, Hb1. cbn [snd negb orb].
  destruct (cell (deref h b) r1 c1) as [[col kind]|] eqn:Hc.
  - destruct (color_eqb col color) eqn:Hcol.
    + apply color_eqb_eq in Hcol as ->.
      destruct (Htot Hb1 kind eq_refl) as [ms Hms]. rewrite Hms.
      exists ms. split; [done|]. cbn [negb].
      assert (Hin2 : (r2, c2) ∈ ms -> in_bounds r2 c2 = true).
      { intros Hin.
        by destruct (legal_moves_on_sound _ r1 c1 color kind ms Hg Hb1 Hc Hms _ Hin)
          as [(Hb2 & _) _]. }
      split.
      * intros Hin. rewrite (Hin2 Hin). cbn [negb].
        apply mem_square_iff in Hin. by rewrite Hin.
      * intros Hnin. destruct (in_bounds r2 c2); cbn [negb]; [|eauto].
        destruct (mem_square (r2, c2) ms) eqn:Hmem; [|cbn [negb]; eauto 6].
        by apply mem_square_iff in Hmem.
    + exists []. split.
      { unfold legal_moves_on. rewrite getcell_wf, Hc by done. cbn [rbind].
        by rewrite Hcol. }
      split; [by intros ?%elem_of_nil|]. intros _.
      destruct (in_bounds r2 c2); cbn [negb]; eauto 6.
  - exists []. split.
    { unfold legal_moves_on. by rewrite getcell_wf, Hc by done. }
    split; [by intros ?%elem_of_nil|]. intros _.
    destruct (in_bounds r2 c2); cbn [negb]; eauto 6.
Qed.

(** Once move has accepted a move, the same call cannot be made again: the
    source square is empty now, so it is rejected with "No piece of yours
    on source." and the board stays as the first call left it. *)
Theorem accepted_move_cannot_repeat h (b : Board) src dst color h' msg :
  wf_board h b = true ->
  move b src dst color h = (h', Ok (true, msg)) ->
  move b src dst color h' = (h', Ok (false, "No piece of yours on source."%string)).
Proof.
  intros Hwf E.
  destruct (move_success h b src dst color h' msg Hwf E)
    as (Hwf' & _ & r1 & c1 & r2 & c2 & kind & Ps & Pd & Hb1 & Hc & HC & _ & Hm).
  destruct Hm as [Hg' Hcells]. destruct HC as (Hb2 & Hne & _). simpl in Hb2.
  assert (Hsrc : cell (deref h' b) r1 c1 = None).
  { rewrite Hcells by done.
    destruct ((r1 =? r2) && (c1 =? c2)) eqn:E12.
    - apply andb_true_iff in E12 as [->%Z.eqb_eq ->%Z.eqb_eq]. done.
    - by rewrite !Z.eqb_refl. }
  unfold move, mbind at 1, lift at 1. rewrite Ps.
  unfold mbind at 1, lift at 1. rewrite Pd, Hb1, Hb2. cbn [negb orb].
  unfold mbind at 1. rewrite getitem2_eq, getcell_wf, Hsrc by done. done.
Qed.

(** ** initial_board *)


(** ** legal_moves_from on a board without a king of the mover *)

Lemma pseudo_legal_in_bounds (g : Grid) r c color kind d :
  in_bounds r c = true ->
  d ∈ pseudo_legal g r c color kind -> in_bounds (fst d) (snd d) = true.
Proof.
  intros Hb. destruct kind; cbn [pseudo_legal].
  - intros H. apply (pawn_squares_elem g r c color d Hb) in H.
    destruct H as [(-> & H & _)|[(-> & -> & _)|(dc & _ & -> & H & _)]]; try done.
    apply in_bounds_iff in Hb. apply in_bounds_iff. cbn [fst snd].
    destruct color; lia.
  - intros (dr & dc & _ & _ & H & _)%step_squares_elem. done.
  - intros H. apply slide_squares_elem in H as (dr & dc & k & _ & _ & _ & H & _);
      [done|done|]. intros x Hx. apply elem_of_app. by left.
  - intros H. apply slide_squares_elem in H as (dr & dc & k & _ & _ & _ & H & _);
      [done|done|]. intros x Hx. apply elem_of_app. by right.
  - intros H. apply slide_squares_elem in H as (dr & dc & k & _ & _ & _ & H & _);
      done.
  - intros (dr & dc & _ & _ & H & _)%step_squares_elem. done.
Qed.

Lemma safe_without_king (g : Grid) r c color rr cc :
  wf_grid g = true -> has_king g color = false ->
  in_bounds r c = true -> in_bounds rr cc = true ->
  safe g r c color rr cc = Raise TypeError.
Proof.
  intros Hg Hk Hb Hb2.
  destruct (safe_wf g r c color rr cc Hg Hb Hb2) as (g2 & Hg2 & Hcell & ->).
  destruct (find_king_total g2 color Hg2) as [[[kr kc]|] E]; rewrite E; [|done].
  destruct (find_king_Some g2 color kr kc Hg2 E) as [Hbk Hp].
  assert (has_king g color = true); [|congruence].
  apply has_king_iff; [done|].
  rewrite Hcell in Hp by done.
  destruct ((kr =? r) && (kc =? c)); [done|].
  destruct ((kr =? rr) && (kc =? cc)); eauto.
Qed.

(** Without a king of the mover on the board, legal_moves_from raises
    TypeError as soon as the piece has a square to try (add_move unpacks the
    None of find_king), and returns the empty list when it has none. *)
Theorem legal_moves_from_without_king h (b : Board) r c color kind :
  wf_board h b = true -> has_king (deref h b) color = false ->
  in_bounds r c = true -> cell (deref h b) r c = Some (color, kind) ->
  snd (legal_moves_from b r c color h) =
  match pseudo_legal (deref h b) r c color kind with
  | [] => Ok []
  | _ :: _ => Raise TypeError
  end.
Proof.
  intros (Hnd & Hv & Hg)%wf_board_iff Hk Hb Hc.
  destruct (legal_moves_from_refines b r c color h Hv) as (h1 & E1 & _).
  rewrite E1. cbn [snd].
  rewrite (legal_moves_two_phase _ r c color kind Hg Hb Hc).
  pose proof (pseudo_legal_in_bounds (deref h b) r c color kind) as Hin.
  destruct (pseudo_legal (deref h b) r c color kind) as [|d ds]; [done|].
  unfold keep_safe. cbn [for_each_r]. unfold add_move_on.
  rewrite safe_without_king; try done.
  apply Hin; [done|]. apply list_elem_of_here.
Qed.

(** ** Coordinates, from text and back *)



(** ** The further theorems at concrete positions *)

Lemma legal_moves_from_two_phases_witness :
  wf_board check_store start_board = true /\
  cell (deref check_store start_board) 3 7 = Some (WHITE, Queen) /\
  exists h',
    legal_moves_from start_board 3 7 WHITE check_store =
      (h', Ok (List.filter (safe_b (deref check_store start_board) 3 7 WHITE)
                 (pseudo_legal (deref check_store start_board) 3 7 WHITE Queen))) /\
    check_store `prefix_of` h'.
Proof.
  split; [vm_compute; reflexivity|]. split; [vm_compute; reflexivity|].
  apply (legal_moves_from_two_phases check_store start_board 3 7 WHITE Queen);
    vm_compute; reflexivity.
Defined.

Lemma slider_moves_witness :
  wf_board check_store start_board = true /\
  cell (deref check_store start_board) 3 7 = Some (WHITE, Queen) /\
  ((2, 6) ∈ returned (snd (legal_moves_from start_board 3 7 WHITE check_store)) ->
   safe (deref check_store start_board) 3 7 WHITE 2 6 = Ok true).
Proof.
  split; [vm_compute; reflexivity|]. split; [vm_compute; reflexivity|].
  intros Hin.
  apply (proj1 (slider_moves check_store start_board 3 7 WHITE Queen
                  (fst (legal_moves_from start_board 3 7 WHITE check_store))
                  (returned (snd (legal_moves_from start_board 3 7 WHITE check_store)))
                  ltac:(vm_compute; reflexivity) ltac:(reflexivity)
                  ltac:(vm_compute; reflexivity) ltac:(auto)
                  ltac:(vm_compute; reflexivity) (2, 6)) Hin).
Defined.

Lemma pawn_moves_characterised_witness :
  wf_board initial_grid start_board = true /\
  cell (deref initial_grid start_board) 6 4 = Some (WHITE, Pawn) /\
  ((4, 4) ∈ returned (snd (legal_moves_from start_board 6 4 WHITE initial_grid)) ->
   safe (deref initial_grid start_board) 6 4 WHITE 4 4 = Ok true).
Proof.
  split; [vm_compute; reflexivity|]. split; [vm_compute; reflexivity|].
  intros Hin.
  apply (proj1 (pawn_moves_characterised initial_grid start_board 6 4 WHITE
                  (fst (legal_moves_from start_board 6 4 WHITE initial_grid))
                  (returned (snd (legal_moves_from start_board 6 4 WHITE initial_grid)))
                  ltac:(vm_compute; reflexivity) ltac:(reflexivity)
                  ltac:(vm_compute; reflexivity)
                  ltac:(vm_compute; reflexivity) (4, 4)) Hin).
Defined.

Lemma knight_and_king_moves_witness :
  wf_board initial_grid start_board = true /\
  cell (deref initial_grid start_board) 7 1 = Some (WHITE, Knight) /\
  ((5, 2) ∈ returned (snd (legal_moves_from start_board 7 1 WHITE initial_grid)) ->
   safe (deref initial_grid start_board) 7 1 WHITE 5 2 = Ok true).
Proof.
  split; [vm_compute; reflexivity|]. split; [vm_compute; reflexivity|].
  intros Hin.
  apply (proj1 (knight_and_king_moves initial_grid start_board 7 1 WHITE Knight
                  (fst (legal_moves_from start_board 7 1 WHITE initial_grid))
                  (returned (snd (legal_moves_from start_board 7 1 WHITE initial_grid)))
                  ltac:(vm_compute; reflexivity) ltac:(reflexivity)
                  ltac:(vm_compute; reflexivity) ltac:(auto)
                  ltac:(vm_compute; reflexivity) (5, 2)) Hin).
Defined.

Lemma is_square_attacked_characterised_witness :
  wf_grid (deref check_store start_board) = true /\
  (is_square_attacked (deref check_store start_board) 0 4 WHITE = Ok true <->
   exists r0 c0, in_bounds r0 c0 = true /\
     attacks (deref check_store start_board) WHITE r0 c0 0 4).
Proof.
  split; [vm_compute; reflexivity|].
  apply (is_square_attacked_characterised (deref check_store start_board) 0 4 WHITE);
    vm_compute; reflexivity.
Defined.

Lemma attack_iff_capture_candidate_witness :
  cell (deref check_store start_board) 0 4 = Some (enemy_of WHITE, King) /\
  (is_square_attacked (deref check_store start_board) 0 4 WHITE = Ok true <->
   exists r0 c0 kind,
     in_bounds r0 c0 = true /\
     cell (deref check_store start_board) r0 c0 = Some (WHITE, kind) /\
     (0, 4) ∈ pseudo_legal (deref check_store start_board) r0 c0 WHITE kind).
Proof.
  split; [vm_compute; reflexivity|].
  apply (attack_iff_capture_candidate (deref check_store start_board) 0 4 WHITE King);
    vm_compute; reflexivity.
Defined.

Lemma all_legal_moves_characterised_witness :
  wf_board initial_grid start_board = true /\
  (((6, 4), (4, 4)) ∈ returned (snd (all_legal_moves start_board WHITE initial_grid)) ->
   exists h1 ds,
     legal_moves_from start_board 6 4 WHITE initial_grid = (h1, Ok ds) /\
     (4, 4) ∈ ds).
Proof.
  split; [vm_compute; reflexivity|].
  intros Hin.
  apply (proj1 (all_legal_moves_characterised initial_grid start_board WHITE
                  (fst (all_legal_moves start_board WHITE initial_grid))
                  (returned (snd (all_legal_moves start_board WHITE initial_grid)))
                  ltac:(vm_compute; reflexivity)
                  ltac:(vm_compute; reflexivity) 6 4 (4, 4)) Hin).
Defined.

Lemma queries_read_only_witness :
  valid initial_grid start_board = true /\
  deref (initial_grid ++ initial_grid) (seq 8 8) = deref initial_grid start_board /\
  snd (is_checkmate (seq 8 8) WHITE (initial_grid ++ initial_grid)) =
  snd (is_checkmate start_board WHITE initial_grid).
Proof.
  split; [vm_compute; reflexivity|]. split; [vm_compute; reflexivity|].
  apply (queries_read_only initial_grid start_board
           (initial_grid ++ initial_grid) (seq 8 8) 6 4 WHITE);
    vm_compute; reflexivity.
Defined.

Lemma copy_board_independent_witness :
  valid initial_grid start_board = true /\
  exists h1 b2,
    copy_board start_board initial_grid = (h1, Ok b2) /\
    deref h1 b2 = deref initial_grid start_board /\
    forall l, l ∈ b2 -> l ∉ start_board.
Proof.
  split; [vm_compute; reflexivity|].
  destruct (copy_board_independent initial_grid start_board)
    as (h1 & b2 & E & _ & _ & _ & Hd & _ & Hfr & _);
    [vm_compute; reflexivity|].
  exists h1, b2. split; [exact E|]. split; [exact Hd|exact Hfr].
Defined.

Lemma find_king_first_witness :
  wf_grid initial_grid = true /\
  ((exists kr kc,
      find_king initial_grid BLACK = Ok (Some (kr, kc)) /\
      in_bounds kr kc = true /\ cell initial_grid kr kc = Some (BLACK, King) /\
      forall r c, in_bounds r c = true ->
        r < kr \/ (r = kr /\ c < kc) ->
        cell initial_grid r c <> Some (BLACK, King)) \/
   (find_king initial_grid BLACK = Ok None /\
    forall r c, in_bounds r c = true -> cell initial_grid r c <> Some (BLACK, King))).
Proof.
  split; [vm_compute; reflexivity|].
  apply (find_king_first initial_grid BLACK). vm_compute; reflexivity.
Defined.

Lemma in_check_needs_king_witness :
  wf_grid kingless_grid = true /\ has_king kingless_grid WHITE = false /\
  in_check kingless_grid WHITE = Raise TypeError.
Proof.
  split; [vm_compute; reflexivity|]. split; [vm_compute; reflexivity|].
  apply (proj1 (in_check_needs_king kingless_grid WHITE ltac:(vm_compute; reflexivity))).
  vm_compute; reflexivity.
Defined.

Lemma move_accepts_listed_moves_witness :
  wf_board initial_grid start_board = true /\
  exists ms,
    snd (legal_moves_from start_board 6 4 WHITE initial_grid) = Ok ms /\
    ((4, 4) ∈ ms ->
     snd (move start_board "e2" "e4" WHITE initial_grid) = Ok (true, "OK"%string)) /\
    ((4, 4) ∉ ms ->
     exists msg, snd (move start_board "e2" "e4" WHITE initial_grid) = Ok (false, msg) /\
       (msg = "Out of bounds." \/ msg = "No piece of yours on source." \/
        msg = "Illegal move.")%string).
Proof.
  split; [vm_compute; reflexivity|].
  apply (move_accepts_listed_moves initial_grid start_board "e2" "e4" WHITE 6 4 4 4);
    vm_compute; reflexivity.
Defined.

Lemma accepted_move_cannot_repeat_witness :
  wf_board initial_grid start_board = true /\
  move start_board "e2" "e4" WHITE
    (fst (move start_board "e2" "e4" WHITE initial_grid)) =
  (fst (move start_board "e2" "e4" WHITE initial_grid),
   Ok (false, "No piece of yours on source."%string)).
Proof.
  split; [vm_compute; reflexivity|].
  apply (accepted_move_cannot_repeat initial_grid start_board "e2" "e4" WHITE
           (fst (move start_board "e2" "e4" WHITE initial_grid)) "OK");
    vm_compute; reflexivity.
Defined.

Lemma legal_moves_from_without_king_witness :
  wf_board kingless_grid start_board = true /\
  has_king (deref kingless_grid start_board) WHITE = false /\
  cell (deref kingless_grid start_board) 1 7 = Some (WHITE, Pawn) /\
  snd (legal_moves_from start_board 1 7 WHITE kingless_grid) =
  match pseudo_legal (deref kingless_grid start_board) 1 7 WHITE Pawn with
  | [] => Ok []
  | _ :: _ => Raise TypeError
  end.
Proof.
  split; [vm_compute; reflexivity|]. split; [vm_compute; reflexivity|].
  split; [vm_compute; reflexivity|].
  apply (legal_moves_from_without_king kingless_grid start_board 1 7 WHITE Pawn);
    vm_compute; reflexivity.
Defined.


(** * The console *)

(** ** board_str *)

Ltac eight l H :=
  do 8 (destruct l as [|? l]; [discriminate H|]);
  destruct l; [clear H|discriminate H].

Lemma board_str_chars_eq (g : Grid) : board_str g = board_str_chars g.
Proof.
  unfold board_str, board_str_chars. cbv zeta. f_equal.
  apply for_each_r_ext. intros r s _. f_equal.
  apply for_each_r_ext. intros c s' _.
  destruct (getcell g r c) as [[[col typ]|]|e]; done.
Qed.

Lemma board_str_layout (g : Grid) :
  wf_grid g = true ->
  exists s,
    board_str g = Ok s /\ String.length s = 240%nat /\
    forall r c, in_bounds r c = true ->
      String.get (Z.to_nat (22 * (r + 1) + 4 + 2 * c)) s = Some (cell_char (cell g r c)).
Proof.
  intros [Hlen Hrows]%wf_grid_iff. rewrite board_str_chars_eq.
  eight g Hlen.
  pose proof (Hrows 0%nat _ eq_refl) as H0. pose proof (Hrows 1%nat _ eq_refl) as H1.
  pose proof (Hrows 2%nat _ eq_refl) as H2. pose proof (Hrows 3%nat _ eq_refl) as H3.
  pose proof (Hrows 4%nat _ eq_refl) as H4. pose proof (Hrows 5%nat _ eq_refl) as H5.
  pose proof (Hrows 6%nat _ eq_refl) as H6. pose proof (Hrows 7%nat _ eq_refl) as H7.
  clear Hrows.
  eight l H0. eight l0 H1. eight l1 H2. eight l2 H3.
  eight l3 H4. eight l4 H5. eight l5 H6. eight l6 H7.
  eexists. split; [cbv -[cell_char]; reflexivity|]. split; [reflexivity|].
  intros r c [Hr Hc]%in_bounds_iff.
  apply small_cases in Hr. apply small_cases in Hc.
  repeat (destruct Hr as [->|Hr]); subst;
    repeat (destruct Hc as [->|Hc]); subst; reflexivity.
Qed.

Lemma cell_char_inj (p q : Cell) : cell_char p = cell_char q -> p = q.
Proof.
  destruct p as [[[] []]|], q as [[[] []]|]; vm_compute; intros H;
    (reflexivity || discriminate H).
Qed.

Lemma wf_grid_ext (g1 g2 : Grid) :
  wf_grid g1 = true -> wf_grid g2 = true ->
  (forall r c, in_bounds r c = true -> cell g1 r c = cell g2 r c) ->
  g1 = g2.
Proof.
  intros [L1 R1]%wf_grid_iff [L2 R2]%wf_grid_iff H.
  apply list_eq. intros i.
  destruct (decide (i < 8)%nat) as [Hi|Hi].
  - destruct (lookup_lt_is_Some_2 g1 i) as [row1 E1]; [lia|].
    destruct (lookup_lt_is_Some_2 g2 i) as [row2 E2]; [lia|].
    rewrite E1, E2. f_equal. apply list_eq. intros j.
    pose proof (R1 _ _ E1) as Hl1. pose proof (R2 _ _ E2) as Hl2.
    destruct (decide (j < 8)%nat) as [Hj|Hj].
    + destruct (lookup_lt_is_Some_2 row1 j) as [p1 P1]; [lia|].
      destruct (lookup_lt_is_Some_2 row2 j) as [p2 P2]; [lia|].
      rewrite P1, P2. f_equal.
      specialize (H (Z.of_nat i) (Z.of_nat j)).
      unfold cell in H. rewrite !Nat2Z.id, E1, E2, P1, P2 in H.
      apply H, in_bounds_iff. lia.
    + rewrite !lookup_ge_None_2 by lia. done.
  - rewrite !lookup_ge_None_2 by lia. done.
Qed.

(** board_str returns on every well-formed board, a text of 240
    characters in which the square of row r and column c is shown at
    position 22 * (r + 1) + 4 + 2 * c: a dot when it is empty, the type
    letter of the piece otherwise, in upper case for white and in lower
    case for black. *)
Theorem board_str_shows_every_square (g : Grid) :
  wf_grid g = true ->
  exists s,
    board_str g = Ok s /\ String.length s = 240%nat /\
    forall r c, in_bounds r c = true ->
      String.get (Z.to_nat (22 * (r + 1) + 4 + 2 * c)) s = Some (cell_char (cell g r c)).
Proof. apply board_str_layout. Qed.

(** The text of board_str determines the position: two well-formed boards
    with the same text hold the same pieces on the same squares. *)
Theorem board_str_injective (g1 g2 : Grid) :
  wf_grid g1 = true -> wf_grid g2 = true ->
  board_str g1 = board_str g2 -> g1 = g2.
Proof.
  intros Hg1 Hg2 E.
  destruct (board_str_layout g1 Hg1) as (s1 & E1 & _ & Hs1).
  destruct (board_str_layout g2 Hg2) as (s2 & E2 & _ & Hs2).
  rewrite E1, E2 in E. injection E as <-.
  apply wf_grid_ext; [done|done|]. intros r c Hb.
  apply cell_char_inj. specialize (Hs1 r c Hb). specialize (Hs2 r c Hb).
  congruence.
Qed.

Lemma board_str_shows_every_square_witness :
  wf_grid initial_grid = true /\
  exists s,
    board_str initial_grid = Ok s /\ String.length s = 240%nat /\
    forall r c, in_bounds r c = true ->
      String.get (Z.to_nat (22 * (r + 1) + 4 + 2 * c)) s =
      Some (cell_char (cell initial_grid r c)).
Proof.
  split; [vm_compute; reflexivity|].
  apply (board_str_shows_every_square initial_grid). vm_compute; reflexivity.
Defined.

Lemma board_str_injective_witness :
  wf_grid initial_grid = true /\ wf_grid promotion_grid = true /\
  (board_str initial_grid = board_str promotion_grid -> initial_grid = promotion_grid).
Proof.
  split; [vm_compute; reflexivity|]. split; [vm_compute; reflexivity|].
  apply (board_str_injective initial_grid promotion_grid); vm_compute; reflexivity.
Defined.


(** ** main *)

Lemma io_bind_done {A B} (m : IO A) (k : A -> IO B) out h out' h' a :
  m out h = (out', h', Done a) -> io_bind m k out h = k a out' h'.
Proof. unfold io_bind. by intros ->. Qed.

Lemma io_bind_failed {A B} (m : IO A) (k : A -> IO B) out h out' h' f :
  m out h = (out', h', Failed f) -> io_bind m k out h = (out', h', Failed f).
Proof. unfold io_bind. by intros ->. Qed.

Lemma io_bind_print {B} (e : event) (k : unit -> IO B) out h :
  io_bind (print e) k out h = k tt (out ++ [e]) h.
Proof. reflexivity. Qed.

Lemma run_refines {A} (m : M A) (p : Grid -> result A) b out h :
  refines b m p -> valid h b = true ->
  exists h', h `prefix_of` h' /\
    run m out h = (out, h', match p (deref h b) with
                            | Ok a => Done a
                            | Raise e => Failed (Exn e)
                            end).
Proof.
  intros Hr Hv. destruct (Hr h Hv) as (h' & E & Hpre).
  exists h'. split; [done|]. unfold run. rewrite E.
  by destruct (p (deref h b)).
Qed.


Lemma good_print ok out e res :
  shows_kings e -> good ok (out ++ [e]) res -> good ok out res.
Proof.
  intros He (evs & E & Hevs & Hok). exists (e :: evs).
  split; [by rewrite E, <- app_assoc|]. split; [by constructor|done].
Qed.

Lemma good_end ok out h a :
  (ok -> forall e, a <> Failed (Exn e)) -> good ok out (out, h, a).
Proof.
  intros H. exists []. split; [by rewrite app_nil_r|]. split; [constructor|done].
Qed.

Lemma good_weaken (ok ok' : Prop) out res :
  (ok' -> ok) -> good ok out res -> good ok' out res.
Proof. intros H (evs & E & Hevs & Hok). exists evs. auto. Qed.

Lemma legal_moves_on_total (g : Grid) r c color :
  wf_grid g = true -> has_king g color = true -> in_bounds r c = true ->
  exists ms, legal_moves_on g r c color = Ok ms /\
    forall d, d ∈ ms -> in_bounds (fst d) (snd d) = true.
Proof.
  intros Hg Hk Hb.
  destruct (cell g r c) as [[col kind]|] eqn:Hc.
  - destruct (color_eqb col color) eqn:Hcol.
    + apply color_eqb_eq in Hcol as ->.
      destruct (legal_moves_on_keeps g r c color kind Hg Hb Hc) as [_ Ht].
      destruct (Ht Hk) as [ms Hms]. exists ms. split; [done|]. intros d Hd.
      by destruct (legal_moves_on_sound g r c color kind ms Hg Hb Hc Hms d Hd)
        as [(Hbd & _) _].
    + exists []. split; [|by intros d ?%elem_of_nil].
      unfold legal_moves_on. rewrite getcell_wf, Hc by done. cbn [rbind].
      by rewrite Hcol.
  - exists []. split; [|by intros d ?%elem_of_nil].
    unfold legal_moves_on. by rewrite getcell_wf, Hc by done.
Qed.

Lemma map_r_squares (ms : list (Z * Z)) :
  (forall d, d ∈ ms -> in_bounds (fst d) (snd d) = true) ->
  exists texts, map_r (fun '(rr, cc) => rc_to_algebraic rr cc) ms = Ok texts.
Proof.
  induction ms as [|[rr cc] ms IH]; intros H; simpl; [eauto|].
  destruct (algebraic_roundtrip rr cc) as (t & -> & _).
  { apply (H (rr, cc)). left. }
  destruct IH as [ts ->]; [intros d Hd; apply H; by right|].
  simpl. eauto.
Qed.

Lemma move_on_answer (g : Grid) src dst color :
  wf_grid g = true -> has_king g color = true ->
  (forall ok msg, snd (move_on g src dst color) = Ok (ok, msg) ->
     ok = false -> fst (move_on g src dst color) = g) /\
  (forall rc1 rc2, algebraic_to_rc src = Ok rc1 -> algebraic_to_rc dst = Ok rc2 ->
     exists ok msg, snd (move_on g src dst color) = Ok (ok, msg)).
Proof.
  intros Hg Hk. unfold move_on.
  destruct (algebraic_to_rc src) as [[r1 c1]|e]; [|split; [done|by intros]].
  destruct (algebraic_to_rc dst) as [[r2 c2]|e]; [|split; [done|by intros]].
  destruct (in_bounds r1 c1) eqn:Hb1; [|split; cbn; eauto].
  destruct (in_bounds r2 c2) eqn:Hb2; [|split; cbn; eauto].
  cbn [negb orb]. rewrite getcell_wf by done.
  destruct (cell g r1 c1) as [[col kind]|] eqn:Hc; [|split; cbn; eauto].
  destruct (color_eqb col color) eqn:Hcol; [|split; cbn; eauto]. cbn [negb].
  apply color_eqb_eq in Hcol as ->.
  destruct (legal_moves_on_total g r1 c1 color Hg Hk Hb1) as (ms & -> & _).
  destruct (mem_square (r2, c2) ms); [|split; cbn; eauto]. cbn [negb].
  destruct (move_on_writes g r1 c1 r2 c2 color kind Hg Hb1 Hb2)
    as (g1 & g2 & E1 & E2 & Hm).
  rewrite E1.
  replace (if kind_eqb kind Pawn && ((r2 =? 0) || (r2 =? 7))
           then Some (color, Queen) else Some (color, kind))
    with (Some (color, placed_kind kind r2))
    by (unfold placed_kind; by destruct (kind_eqb kind Pawn && _)).
  rewrite E2. split; cbn; [|eauto]. intros ok msg [= <- <-]. done.
Qed.

Lemma game_inv_same h (b : Board) turn h' :
  game_inv h b turn -> valid h' b = true -> deref h' b = deref h b ->
  game_inv h' b turn.
Proof.
  intros (Hwf & HW & HB & Hchk) Hv Hd.
  apply wf_board_iff in Hwf as (Hnd & _ & Hg).
  unfold game_inv. rewrite Hd. repeat split; try done.
  apply wf_board_iff. by rewrite Hd.
Qed.

Lemma loop_head (k : IO unit) (b : Board) turn out h (ok : Prop) :
  game_inv h b turn ->
  (forall out' h', game_inv h' b turn -> good ok out' (k out' h')) ->
  good ok out
    ((s <- run (reading board_str b) ;;
      print (ShowBoard s) ;;;
      mate <- run (is_checkmate b turn) ;;
      if mate : bool then print (Checkmated turn)
      else
      stale <- run (is_stalemate b turn) ;;
      if stale : bool then print Drawn
      else
      chk <- run (reading (fun g => in_check g turn) b) ;;
      print (ToMove turn chk) ;;;
      print Prompt ;;;
      k)%IO out h).
Proof.
  intros Hinv Hk'.
  pose proof Hinv as (Hwf & HW & HB & Hchk).
  pose proof Hwf as (Hnd & Hv & Hg)%wf_board_iff.
  pose proof (one_king_has_king _ _ Hg HW) as HkW.
  pose proof (one_king_has_king _ _ Hg HB) as HkB.
  assert (Hk : has_king (deref h b) turn = true) by (by destruct turn).
  destruct (board_str_layout _ Hg) as (s & Es & _).
  destruct (in_check_total _ turn Hg Hk) as [chk Echk].
  destruct (all_legal_moves_on_total _ turn Hg Hk) as [ms Ems].
  destruct (run_refines _ _ b (out ++ [ShowBoard s]) h
              (is_checkmate_refines b turn) Hv) as (h1 & P1 & E1).
  destruct (valid_prefix _ _ _ Hv P1) as [Hv1 Hd1].
  destruct (run_refines _ _ b (out ++ [ShowBoard s]) h1
              (is_stalemate_refines b turn) Hv1) as (h2 & P2 & E2).
  destruct (valid_prefix _ _ _ Hv1 P2) as [Hv2 Hd2].
  rewrite Hd1 in E2. rewrite Hd1 in Hd2.
  unfold is_checkmate_on in E1. unfold is_stalemate_on in E2.
  rewrite Echk, Ems in E1. rewrite Echk, Ems in E2. cbn [rbind] in E1, E2.
  assert (Hinv1 : game_inv h1 b turn) by (by apply (game_inv_same h)).
  assert (Hinv2 : game_inv h2 b turn) by (by apply (game_inv_same h)).
  rewrite (io_bind_done _ _ out h out h s)
    by (unfold run, reading; by rewrite Es).
  rewrite io_bind_print. apply (good_print _ _ (ShowBoard s)).
  { by exists (deref h b). }
  destruct chk; cbn [negb] in E1, E2.
  - rewrite (io_bind_done _ _ _ _ _ _ _ E1).
    destruct (Nat.eqb (length ms) 0).
    { apply (good_print _ _ (Checkmated turn)); [done|]. by apply good_end. }
    rewrite (io_bind_done _ _ _ _ _ _ _ E2).
    rewrite (io_bind_done _ _ _ h2 _ h2 true)
      by (unfold run, reading; by rewrite Hd2, Echk).
    rewrite !io_bind_print.
    apply (good_print _ _ (ToMove turn true)); [done|].
    apply (good_print _ _ Prompt); [done|]. by apply Hk'.
  - rewrite (io_bind_done _ _ _ _ _ _ _ E1).
    rewrite (io_bind_done _ _ _ _ _ _ _ E2).
    destruct (Nat.eqb (length ms) 0).
    { apply (good_print _ _ Drawn); [done|]. by apply good_end. }
    rewrite (io_bind_done _ _ _ h2 _ h2 false)
      by (unfold run, reading; by rewrite Hd2, Echk).
    rewrite !io_bind_print.
    apply (good_print _ _ (ToMove turn false)); [done|].
    apply (good_print _ _ Prompt); [done|]. by apply Hk'.
Qed.

Lemma main_loop_good (inputs : list string) :
  forall (b : Board) turn out h,
    game_inv h b turn ->
    good (forallb command_ok inputs = true) out (main_loop inputs b turn out h).
Proof.
  induction inputs as [|line rest IH]; intros b turn out h Hinv;
    cbn [main_loop]; apply loop_head; try exact Hinv; clear out h Hinv;
    intros out h Hinv.
  - by apply good_end.
  - set (ok := forallb command_ok (line :: rest) = true).
    assert (Hrest : forall turn' out' h', game_inv h' b turn' ->
              good ok out' (main_loop rest b turn' out' h')).
    { intros turn' out' h' Hinv'.
      apply (good_weaken (forallb command_ok rest = true)); [|by apply IH].
      unfold ok. cbn [forallb]. by intros [_ ?]%andb_true_iff. }
    assert (Hline : ok -> command_ok line = true).
    { unfold ok. cbn [forallb]. by intros [? _]%andb_true_iff. }
    clearbody ok. clear IH. unfold command_ok in Hline. cbv zeta in Hline.
    pose proof Hinv as (Hwf & HW & HB & Hchk).
    pose proof Hwf as (Hnd & Hv & Hg)%wf_board_iff.
    pose proof (one_king_has_king _ _ Hg HW) as HkW.
    pose proof (one_king_has_king _ _ Hg HB) as HkB.
    assert (Hk : has_king (deref h b) turn = true) by (by destruct turn).
    destruct (existsb _ _); [by apply good_end|].
    destruct (startswith _ _).
    + destruct (split (strip line)) as [|w0 [|sq [|w2 ws]]];
        try (rewrite io_bind_print; apply (good_print _ _ Usage); [done|];
             by apply Hrest).
      destruct (algebraic_to_rc sq) as [[r c]|e]; cycle 1.
      { rewrite io_bind_print. apply (good_print _ _ BadSquare); [done|].
        by apply Hrest. }
      destruct (run_refines _ _ b out h (legal_moves_from_refines b r c turn) Hv)
        as (h1 & P1 & E1).
      assert (Hinv1 : game_inv h1 b turn) by (by apply (game_inv_query h)).
      destruct (legal_moves_on (deref h b) r c turn) as [ms|e] eqn:Ems; cycle 1.
      { rewrite (io_bind_failed _ _ _ _ _ _ _ E1). apply good_end.
        intros Hok. specialize (Hline Hok).
        destruct (legal_moves_on_total _ r c turn Hg Hk Hline) as (ms & Hms & _).
        congruence. }
      rewrite (io_bind_done _ _ _ _ _ _ _ E1).
      destruct ms as [|m ms].
      { rewrite io_bind_print. apply (good_print _ _ (NoLegalMoves sq)); [done|].
        by apply Hrest. }
      destruct (map_r (fun '(rr, cc) => rc_to_algebraic rr cc) (m :: ms))
        as [texts|e] eqn:Etx.
      * rewrite (io_bind_done _ _ out h1 (out ++ [LegalMoves (join ", " texts)]) h1 tt).
        { apply (good_print _ _ (LegalMoves (join ", " texts))); [done|].
          by apply Hrest. }
        rewrite (io_bind_done _ _ out h1 out h1 texts); [done|].
        reflexivity.
      * rewrite (io_bind_failed _ _ out h1 out h1 (Exn e)).
        { apply good_end. intros Hok. specialize (Hline Hok).
          destruct (legal_moves_on_total _ r c turn Hg Hk Hline) as (ms' & Hms & Hin).
          rewrite Ems in Hms. injection Hms as <-.
          destruct (map_r_squares _ Hin) as [texts Htx]. congruence. }
        rewrite (io_bind_failed _ _ out h1 out h1 (Exn e)); [done|].
        reflexivity.
    + destruct (split (strip line)) as [|src [|dst [|w2 ws]]];
        try (rewrite io_bind_print; apply (good_print _ _ EnterMove); [done|];
             by apply Hrest).
      destruct (move_refines h b src dst turn Hnd Hv) as (h1 & E1 & Hd1 & Hv1 & _).
      destruct (move_on_answer (deref h b) src dst turn Hg Hk) as [Hrej Htot].
      destruct (snd (move_on (deref h b) src dst turn)) as [[[|] msg]|e] eqn:Eres.
      * rewrite (io_bind_done _ _ out h out h1 (true, msg))
          by (unfold run; by rewrite E1).
        cbn [negb]. apply Hrest.
        by apply (game_inv_move h b turn src dst h1 msg).
      * rewrite (io_bind_done _ _ out h out h1 (false, msg))
          by (unfold run; by rewrite E1).
        cbn [negb]. rewrite io_bind_print.
        apply (good_print _ _ (Error msg)); [done|]. apply Hrest.
        apply (game_inv_same h); [done|done|].
        rewrite Hd1. by apply (Hrej false msg).
      * rewrite (io_bind_failed _ _ out h out h1 (Exn e))
          by (unfold run; by rewrite E1).
        apply good_end. intros Hok. specialize (Hline Hok).
        destruct (algebraic_to_rc src) as [rc1|]; [|done].
        destruct (algebraic_to_rc dst) as [rc2|]; [|done].
        destruct (Htot rc1 rc2 eq_refl eq_refl) as (o & m & ?). congruence.
Qed.

Lemma main_good (inputs : list string) :
  exists evs h a,
    (board <- run initial_board ;;
     print Banner ;;;
     main_loop inputs board WHITE)%IO [] [] = (evs, h, a) /\
    Forall shows_kings evs /\
    (forallb command_ok inputs = true -> forall e, a <> Failed (Exn e)).
Proof.
  rewrite (io_bind_done _ _ [] [] [] initial_grid start_board)
    by (unfold run; by rewrite initial_board_start).
  rewrite io_bind_print.
  destruct (main_loop_good inputs start_board WHITE ([] ++ [Banner]) initial_grid)
    as (evs & E & Hevs & Hok).
  { apply (game_inv_start []). apply initial_board_start. }
  destruct (main_loop inputs start_board WHITE ([] ++ [Banner]) initial_grid)
    as [[out h] a].
  cbn [fst snd] in E, Hok. subst out.
  exists (([] ++ [Banner]) ++ evs), h, a. split; [done|]. split; [|done].
  apply Forall_app. split; [|done]. by repeat constructor.
Qed.


(** Whatever is typed, every board main prints holds exactly one white and
    one black king: the text is that of a well-formed position with one
    king of each color. *)
Theorem main_shows_both_kings (inputs : list string) :
  Forall shows_kings (fst (main inputs)).
Proof.
  unfold main.
  by destruct (main_good inputs) as (evs & h & a & -> & Hevs & _).
Qed.


(** ** The end of the game *)

Lemma move_on_accepted_listed (g : Grid) src dst color msg :
  wf_grid g = true ->
  snd (move_on g src dst color) = Ok (true, msg) ->
  exists r1 c1 r2 c2 kind ms,
    in_bounds r1 c1 = true /\ cell g r1 c1 = Some (color, kind) /\
    legal_moves_on g r1 c1 color = Ok ms /\ (r2, c2) ∈ ms.
Proof.
  intros Hg. unfold move_on.
  destruct (algebraic_to_rc src) as [[r1 c1]|e]; [|done].
  destruct (algebraic_to_rc dst) as [[r2 c2]|e]; [|done].
  destruct (in_bounds r1 c1) eqn:Hb1; [|done].
  destruct (in_bounds r2 c2) eqn:Hb2; [|done]. cbn [negb orb].
  rewrite getcell_wf by done.
  destruct (cell g r1 c1) as [[col kind]|] eqn:Hc; [|done].
  destruct (color_eqb col color) eqn:Hcol; [|done]. cbn [negb].
  apply color_eqb_eq in Hcol as ->.
  destruct (legal_moves_on g r1 c1 color) as [ms|e] eqn:Hms; [|done].
  destruct (mem_square (r2, c2) ms) eqn:Hin; [|done].
  apply mem_square_iff in Hin. intros _.
  exists r1, c1, r2, c2, kind, ms. done.
Qed.

Lemma no_moves_none_accepted (g : Grid) color src dst msg :
  wf_grid g = true ->
  all_legal_moves_on g color = Ok [] ->
  snd (move_on g src dst color) <> Ok (true, msg).
Proof.
  intros Hg Hall Hacc.
  destruct (move_on_accepted_listed g src dst color msg Hg Hacc)
    as (r1 & c1 & r2 & c2 & kind & ms & Hb & Hc & Hms & Hin).
  assert (H : ((r1, c1), (r2, c2)) ∈ ([] : list ((Z * Z) * (Z * Z)))).
  { apply (all_legal_moves_on_elem g color [] Hg Hall). eauto 6. }
  by apply elem_of_nil in H.
Qed.

(** The game is over when is_checkmate or is_stalemate says so: on a
    well-formed board for which one of them returns True, move accepts no
    move of that color, whatever the text. *)
Theorem no_move_after_game_over h (b : Board) color src dst :
  wf_board h b = true ->
  snd (is_checkmate b color h) = Ok true \/ snd (is_stalemate b color h) = Ok true ->
  forall msg, snd (move b src dst color h) <> Ok (true, msg).
Proof.
  intros (Hnd & Hv & Hg)%wf_board_iff Hover msg.
  destruct (move_refines h b src dst color Hnd Hv) as (h1 & E1 & _).
  rewrite E1. cbn [snd].
  apply no_moves_none_accepted; [done|].
  destruct (is_checkmate_refines b color h Hv) as (h2 & E2 & _).
  destruct (is_stalemate_refines b color h Hv) as (h3 & E3 & _).
  rewrite E2, E3 in Hover. cbn [snd] in Hover.
  unfold is_checkmate_on, is_stalemate_on in Hover.
  destruct (in_check (deref h b) color) as [chk|e]; [|by destruct Hover].
  cbn [rbind] in Hover.
  destruct (all_legal_moves_on (deref h b) color) as [[|m ms]|e]; [done| |].
  - destruct chk; cbn in Hover; by destruct Hover.
  - destruct chk; cbn in Hover; by destruct Hover.
Qed.

Lemma no_move_after_game_over_witness :
  wf_board mate_store start_board = true /\
  snd (is_checkmate start_board WHITE mate_store) = Ok true /\
  snd (move start_board "e2" "e4" WHITE mate_store) <> Ok (true, "OK"%string).
Proof.
  split; [vm_compute; reflexivity|]. split; [vm_compute; reflexivity|].
  apply (no_move_after_game_over mate_store start_board WHITE "e2" "e4");
    [vm_compute; reflexivity|left; vm_compute; reflexivity].
Defined.
